(** * Project storage: a shallow embedding of [projects/storage.ts]

    The development models the workspace-scoped project store
    (path derivation, slug generation, [config.json] persistence, the
    recursive file listing and the file CRUD helpers) over an explicit
    model of the platform it runs on: a directory tree for [fs], a clock
    for [Date.now], an entropy source for [crypto.randomUUID], and a
    printer and parser for [JSON.stringify] / [JSON.parse]. *)

From Stdlib Require Import List String Ascii Bool Arith NArith ZArith Lia FinFun.
From Stdlib Require Import DecimalString DecimalN DecimalPos DecimalFacts.
Import ListNotations.
Open Scope string_scope.
Open Scope N_scope.

Set Implicit Arguments.
Set Warnings "-register-all".

(** ** JavaScript strings

    A JavaScript string is a sequence of UTF-16 code units.  The model uses
    Rocq's [string], whose characters are the code units U+0000..U+00FF;
    on that range the functions below are exact. *)

Module JsString.

Definition code (c : ascii) : N := N_of_ascii c.

Definition in_range (lo hi : N) (c : ascii) : bool :=
  (lo <=? code c) && (code c <=? hi).

Definition is_digit (c : ascii) : bool := in_range 48 57 c.
Definition is_lower (c : ascii) : bool := in_range 97 122 c.
Definition is_upper (c : ascii) : bool := in_range 65 90 c.

(** The class [[a-z0-9]] of the slug regular expression. *)
Definition is_lower_alnum (c : ascii) : bool := is_lower c || is_digit c.

(** ASCII letters and digits, the characters that survive slugging. *)
Definition is_alnum (c : ascii) : bool :=
  is_lower c || is_upper c || is_digit c.

(** [String.prototype.toLowerCase] on one code unit below U+0100:
    A-Z and the Latin-1 capitals U+00C0..U+00DE (but not the
    multiplication sign U+00D7) move up by 32. *)
Definition lower_char (c : ascii) : ascii :=
  if is_upper c then ascii_of_N (code c + 32)
  else if in_range 192 222 c && negb (code c =? 215)
       then ascii_of_N (code c + 32)
  else c.

Fixpoint toLowerCase (s : string) : string :=
  match s with
  | EmptyString => EmptyString
  | String c r => String (lower_char c) (toLowerCase r)
  end.

(** [s.startsWith(p)] *)
Fixpoint startsWith (p s : string) : bool :=
  match p, s with
  | EmptyString, _ => true
  | String a p', String b s' => Ascii.eqb a b && startsWith p' s'
  | String _ _, EmptyString => false
  end.

Fixpoint endsWith_char (c : ascii) (s : string) : bool :=
  match s with
  | EmptyString => false
  | String a EmptyString => Ascii.eqb a c
  | String _ r => endsWith_char c r
  end.

Fixpoint forallb (p : ascii -> bool) (s : string) : bool :=
  match s with
  | EmptyString => true
  | String c r => p c && forallb p r
  end.

Fixpoint existsb (p : ascii -> bool) (s : string) : bool :=
  match s with
  | EmptyString => false
  | String c r => p c || existsb p r
  end.

(** [s.substring(0, n)] *)
Fixpoint take (n : nat) (s : string) : string :=
  match n, s with
  | O, _ => EmptyString
  | S _, EmptyString => EmptyString
  | S n', String c r => String c (take n' r)
  end.

(** [s.substring(n)] *)
Fixpoint drop (n : nat) (s : string) : string :=
  match n, s with
  | O, _ => s
  | S _, EmptyString => EmptyString
  | S n', String _ r => drop n' r
  end.

Fixpoint repeat (c : ascii) (n : nat) : string :=
  match n with
  | O => EmptyString
  | S n' => String c (repeat c n')
  end.

(** Template-literal rendering of a non-negative integer. *)
Definition of_N (n : N) : string := NilEmpty.string_of_uint (N.to_uint n).

(** Number of bytes of the UTF-8 encoding, as [fs.Stats.size] reports
    for a file written from this string. *)
Fixpoint utf8_length (s : string) : N :=
  match s with
  | EmptyString => 0
  | String c r => (if code c <? 128 then 1 else 2) + utf8_length r
  end.

End JsString.
Import JsString.

(** ** Slug generation *)

(** [.replace(/[^a-z0-9]+/g, '-')]: every maximal run of characters outside
    [[a-z0-9]] becomes one dash.  [in_run] records that the previous
    character already belonged to the run being replaced. *)
Fixpoint replace_non_alnum_runs (in_run : bool) (s : string) : string :=
  match s with
  | EmptyString => EmptyString
  | String c r =>
      if is_lower_alnum c then String c (replace_non_alnum_runs false r)
      else if in_run then replace_non_alnum_runs true r
      else String "-" (replace_non_alnum_runs true r)
  end.

Fixpoint drop_last_dash (s : string) : string :=
  match s with
  | EmptyString => EmptyString
  | String c EmptyString => if Ascii.eqb c "-" then EmptyString else s
  | String c r => String c (drop_last_dash r)
  end.

(** [.replace(/^-|-$/g, '')]: one dash at the start and one at the end. *)
Definition strip_edge_dashes (s : string) : string :=
  match s with
  | String "-" r => drop_last_dash r
  | _ => drop_last_dash s
  end.

Definition generateSlug (name : string) : string :=
  let slug :=
    take 50 (strip_edge_dashes (replace_non_alnum_runs false (toLowerCase name))) in
  if String.eqb slug "" then "project" else slug.

(** ** Paths

    A resolved absolute path is the list of its components below the
    filesystem root.  [path.join] glues its arguments with a slash and
    normalises the result lexically; here [join] resolves the segments of
    its second argument on top of an already resolved base.  The slash a
    path string may end in is not a component; [join_name] keeps it beside
    the components, for the calls on files where it decides the outcome. *)

Definition path := list string.

(** The slash-separated segments of a path string. *)
Fixpoint segments (s : string) : list string :=
  match s with
  | EmptyString => [EmptyString]
  | String c r =>
      if Ascii.eqb c "/" then EmptyString :: segments r
      else match segments r with
           | seg :: rest => String c seg :: rest
           | [] => [String c EmptyString]
           end
  end.

(** One step of lexical normalisation: empty and [.] segments vanish,
    [..] pops the last component (and stays at the root). *)
Definition step_segment (acc : path) (seg : string) : path :=
  if String.eqb seg "" then acc
  else if String.eqb seg "." then acc
  else if String.eqb seg ".." then removelast acc
  else (acc ++ [seg])%list.

Definition join (base : path) (rel : string) : path :=
  fold_left step_segment (segments rel) base.

(** [path.join] keeps a slash at the end of its last argument, and the
    system then takes the name for that of a directory.  A path name is
    the list of components together with that slash. *)
Definition ends_in_slash (s : string) : bool := endsWith_char "/" s.

Record pathname : Type := mkPathname {
  components : path;
  slash : bool
}.

(** [path.join(base, rel)] as the name the file operations hand to the
    system; [base] is a path without a slash at its end. *)
Definition join_name (base : path) (rel : string) : pathname :=
  mkPathname (join base rel) (ends_in_slash rel).

(** An absolute path string, resolved from the root. *)
Definition resolve (abs : string) : path := join [] abs.

Fixpoint relative_segments (from to : path) : list string :=
  match from, to with
  | f :: from', t :: to' =>
      if String.eqb f t then relative_segments from' to'
      else (List.repeat ".." (List.length from) ++ to)%list
  | _, _ => (List.repeat ".." (List.length from) ++ to)%list
  end.

(** [path.relative(from, to)] on resolved paths. *)
Definition relative (from to : path) : string :=
  String.concat "/" (relative_segments from to).

(** A name a directory entry can carry. *)
Definition valid_segment (s : string) : bool :=
  negb (String.eqb s "") && negb (String.eqb s ".") && negb (String.eqb s "..")
  && JsString.forallb (fun c => negb (Ascii.eqb c "/")) s.

Fixpoint is_prefix (p q : path) : bool :=
  match p, q with
  | [], _ => true
  | a :: p', b :: q' => String.eqb a b && is_prefix p' q'
  | _ :: _, [] => false
  end.

Definition path_eqb (p q : path) : bool := is_prefix p q && is_prefix q p.

Definition getWorkspaceProjectsPath (workspaceRootPath : string) : path :=
  join (resolve workspaceRootPath) "projects".

Definition getProjectPath (workspaceRootPath projectSlug : string) : path :=
  join (getWorkspaceProjectsPath workspaceRootPath) projectSlug.

Definition getProjectFilesPath (workspaceRootPath projectSlug : string) : path :=
  join (getProjectPath workspaceRootPath projectSlug) "files".

(** ** The filesystem

    A directory is an ordered list of named entries (the order is the one
    [readdirSync] reports).  [Special] stands for every entry that is
    neither a regular file nor a directory: a socket, a FIFO, a device or a
    link.  Links are not followed by the model, and a read of a special
    entry fails at once, where a read of a FIFO would wait for a writer. *)

Inductive node : Type :=
| File (content : string)
| Dir (entries : list (string * node))
| Special.

Definition is_dir (n : node) : bool :=
  match n with Dir _ => true | _ => false end.

Definition is_file (n : node) : bool :=
  match n with File _ => true | _ => false end.

Module Entries.

Fixpoint find (n : string) (es : list (string * node)) : option node :=
  match es with
  | [] => None
  | (k, c) :: r => if String.eqb k n then Some c else find n r
  end.

(** Replace the entry called [n], or append it after the others. *)
Fixpoint set (n : string) (c : node) (es : list (string * node))
  : list (string * node) :=
  match es with
  | [] => [(n, c)]
  | (k, c0) :: r => if String.eqb k n then (n, c) :: r else (k, c0) :: set n c r
  end.

Fixpoint remove (n : string) (es : list (string * node))
  : list (string * node) :=
  match es with
  | [] => []
  | (k, c) :: r => if String.eqb k n then remove n r else (k, c) :: remove n r
  end.

End Entries.

Fixpoint lookup (t : node) (p : path) : option node :=
  match p with
  | [] => Some t
  | n :: p' =>
      match t with
      | Dir es =>
          match Entries.find n es with
          | Some c => lookup c p'
          | None => None
          end
      | _ => None
      end
  end.

(** What a primitive does to the entry at the end of a path: [None] is a
    failure, [Some None] removes the entry, [Some (Some c)] stores [c]. *)
Definition change := option node -> option (option node).

(** Apply a change to the entry at [p].  Every proper prefix of [p] has to
    be an existing directory; the root itself cannot be replaced. *)
Fixpoint alter (f : change) (p : path) (t : node) : option node :=
  match p with
  | [] => None
  | n :: p' =>
      match t with
      | Dir es =>
          match p' with
          | [] =>
              match f (Entries.find n es) with
              | Some (Some c) => Some (Dir (Entries.set n c es))
              | Some None => Some (Dir (Entries.remove n es))
              | None => None
              end
          | _ :: _ =>
              match Entries.find n es with
              | Some c =>
                  match alter f p' c with
                  | Some c' => Some (Dir (Entries.set n c' es))
                  | None => None
                  end
              | None => None
              end
          end
      | _ => None
      end
  end.

(** [mkdir -p]: walk down [p], creating the directories that are missing;
    fails when a component exists and is not a directory. *)
Fixpoint mkdir_p (p : path) (t : node) : option node :=
  match t with
  | Dir es =>
      match p with
      | [] => Some t
      | n :: p' =>
          let child := match Entries.find n es with
                       | Some c => c
                       | None => Dir []
                       end in
          match mkdir_p p' child with
          | Some c' => Some (Dir (Entries.set n c' es))
          | None => None
          end
      end
  | _ => None
  end.

Definition write_change (content : string) : change :=
  fun o => match o with
           | None | Some (File _) => Some (Some (File content))
           | Some (Dir _) | Some Special => None
           end.

Definition unlink_change : change :=
  fun o => match o with
           | Some (File _) | Some Special => Some None
           | Some (Dir _) | None => None
           end.

Definition rm_change : change :=
  fun o => match o with
           | Some _ => Some None
           | None => None
           end.

(** Installing the node [src] under a new name, as [rename(2)] does: a
    free name takes it, a non-directory replaces a non-directory, a
    directory replaces an empty directory. *)
Definition rename_change (src : node) : change :=
  fun o => match o, src with
           | None, _ => Some (Some src)
           | Some (Dir []), Dir _ => Some (Some src)
           | Some (Dir _), _ => None
           | Some _, Dir _ => None
           | Some _, _ => Some (Some src)
           end.

Definition rename_node (old new : path) (t : node) : option node :=
  match lookup t old with
  | None => None
  | Some src =>
      if path_eqb old new then Some t
      else if is_prefix old new then None
      else match alter rm_change old t with
           | Some t1 => alter (rename_change src) new t1
           | None => None
           end
  end.

(** Depth of the tree below a node, the bound for recursive walks. *)
Fixpoint height (t : node) : nat :=
  match t with
  | Dir es => S (list_max (map (fun e => height (snd e)) es))
  | _ => O
  end.

(** Every entry name below the node is a single path component. *)
Fixpoint names_valid (t : node) : bool :=
  match t with
  | Dir es =>
      List.forallb (fun e => valid_segment (fst e) && names_valid (snd e)) es
  | _ => true
  end.

(** ** The world and the monad of the store

    An operation runs against the filesystem, the clock read by
    [Date.now()] and the entropy read by [randomUUID()].  It returns a
    value, throws, or -- for the recursive walks, which are given fuel --
    is cut off. *)

Record World : Type := mkWorld {
  fs : node;
  clock : nat -> Z;
  ticks : nat;
  entropy : nat -> N;
  draws : nat
}.

Definition with_fs (w : World) (t : node) : World :=
  mkWorld t (clock w) (ticks w) (entropy w) (draws w).

Inductive outcome (A : Type) : Type :=
| Ret (a : A)
| Throw
| Diverge.
Arguments Ret {A} a.
Arguments Throw {A}.
Arguments Diverge {A}.

Definition M (A : Type) : Type := World -> World * outcome A.

Definition ret {A} (a : A) : M A := fun w => (w, Ret a).

Definition throw {A} : M A := fun w => (w, Throw).

Definition diverge {A} : M A := fun w => (w, Diverge).

Definition bind {A B} (m : M A) (k : A -> M B) : M B :=
  fun w => match m w with
           | (w', Ret a) => k a w'
           | (w', Throw) => (w', Throw)
           | (w', Diverge) => (w', Diverge)
           end.

(** [try { m } catch { handler }] *)
Definition try_catch {A} (m : M A) (handler : M A) : M A :=
  fun w => match m w with
           | (w', Throw) => handler w'
           | r => r
           end.

Declare Scope store_scope.
Delimit Scope store_scope with store.
Notation "x <- m ;; k" := (bind m (fun x => k))
  (at level 61, m at next level, right associativity) : store_scope.
Notation "m ;; k" := (bind m (fun _ => k))
  (at level 61, right associativity) : store_scope.
Open Scope store_scope.

(** A filesystem update that may fail with an exception. *)
Definition update_fs (f : node -> option node) : M unit :=
  fun w => match f (fs w) with
           | Some t => (with_fs w t, Ret tt)
           | None => (w, Throw)
           end.

Record Dirent : Type := mkDirent {
  dirent_name : string;
  isFile : bool;
  isDirectory : bool
}.

Record Stats : Type := mkStats {
  stats_isDirectory : bool;
  stats_size : N
}.

Definition dirent_of (e : string * node) : Dirent :=
  mkDirent (fst e) (is_file (snd e)) (is_dir (snd e)).

Definition stats_of (n : node) : Stats :=
  mkStats (is_dir n)
          (match n with File c => utf8_length c | _ => 0 end).

Definition existsSync (p : path) : M bool :=
  fun w => (w, Ret (match lookup (fs w) p with Some _ => true | None => false end)).

Definition mkdirSync_recursive (p : path) : M unit := update_fs (mkdir_p p).

Definition readFileSync (p : path) : M string :=
  fun w => match lookup (fs w) p with
           | Some (File c) => (w, Ret c)
           | _ => (w, Throw)
           end.

Definition writeFileSync (p : path) (content : string) : M unit :=
  update_fs (alter (write_change content) p).

Definition readdirSync (p : path) : M (list Dirent) :=
  fun w => match lookup (fs w) p with
           | Some (Dir es) => (w, Ret (map dirent_of es))
           | _ => (w, Throw)
           end.

Definition statSync (p : path) : M Stats :=
  fun w => match lookup (fs w) p with
           | Some n => (w, Ret (stats_of n))
           | None => (w, Throw)
           end.

Definition rmSync_recursive (p : path) : M unit := update_fs (alter rm_change p).

Definition unlinkSync (p : path) : M unit := update_fs (alter unlink_change p).

Definition renameSync (old new : path) : M unit := update_fs (rename_node old new).

(** *** Path names

    The same calls on a path name.  A name that ends in a slash leads to
    a directory or to nothing: [existsSync] and [statSync] do not see a
    file behind it, a file cannot be read, written or unlinked through it,
    and only a directory can be renamed from it or to it. *)

Definition node_at (t : node) (n : pathname) : option node :=
  match lookup t (components n) with
  | Some c => if slash n && negb (is_dir c) then None else Some c
  | None => None
  end.

Definition existsSync_name (n : pathname) : M bool :=
  fun w => (w, Ret (match node_at (fs w) n with Some _ => true | None => false end)).

Definition readFileSync_name (n : pathname) : M string :=
  fun w => match node_at (fs w) n with
           | Some (File c) => (w, Ret c)
           | _ => (w, Throw)
           end.

Definition statSync_name (n : pathname) : M Stats :=
  fun w => match node_at (fs w) n with
           | Some c => (w, Ret (stats_of c))
           | None => (w, Throw)
           end.

Definition mkdirSync_recursive_name (n : pathname) : M unit :=
  mkdirSync_recursive (components n).

Definition writeFileSync_name (n : pathname) (content : string) : M unit :=
  if slash n then throw else writeFileSync (components n) content.

Definition unlinkSync_name (n : pathname) : M unit :=
  if slash n then throw else unlinkSync (components n).

Definition rmSync_recursive_name (n : pathname) : M unit :=
  fun w => match node_at (fs w) n with
           | Some _ => rmSync_recursive (components n) w
           | None => (w, Throw)
           end.

Definition renameSync_name (old new : pathname) : M unit :=
  fun w => match lookup (fs w) (components old) with
           | Some src =>
               if (slash old || slash new) && negb (is_dir src) then (w, Throw)
               else renameSync (components old) (components new) w
           | None => (w, Throw)
           end.

Definition Date_now : M Z :=
  fun w => (mkWorld (fs w) (clock w) (S (ticks w)) (entropy w) (draws w),
            Ret (clock w (ticks w))).

(** *** UUIDs

    [randomUUID()] renders 128 random bits as 32 lowercase hexadecimal
    digits in groups of 8-4-4-4-12, with the version digit forced to 4 and
    the variant digit to one of 8, 9, a, b. *)

Definition hex_digit (n : N) : ascii :=
  if n <? 10 then ascii_of_N (48 + n) else ascii_of_N (87 + n).

Definition is_hex_digit (c : ascii) : bool := is_digit c || in_range 97 102 c.

Definition uuid_nibble (bits : N) (i : N) : N :=
  let raw := N.land (N.shiftr bits (4 * (31 - i))) 15 in
  if i =? 12 then 4
  else if i =? 16 then 8 + N.land raw 3
  else raw.

Fixpoint uuid_digits (bits : N) (i : N) (count : nat) : string :=
  match count with
  | O => EmptyString
  | S count' => String (hex_digit (uuid_nibble bits i)) (uuid_digits bits (i + 1) count')
  end.

Definition uuid_string (bits : N) : string :=
  uuid_digits bits 0 8 ++ "-" ++ uuid_digits bits 8 4 ++ "-"
  ++ uuid_digits bits 12 4 ++ "-" ++ uuid_digits bits 16 4 ++ "-"
  ++ uuid_digits bits 20 12.

Definition randomUUID : M string :=
  fun w => (mkWorld (fs w) (clock w) (ticks w) (entropy w) (S (draws w)),
            Ret (uuid_string (entropy w (draws w)))).

(** ** JSON

    Values, [JSON.stringify(v, null, 2)] and [JSON.parse].  Numbers are the
    integers (the store only writes millisecond timestamps); a text with a
    fraction, an exponent or a [\u] escape above U+00FF denotes a value
    outside the model and is not parsed. *)

Inductive json : Type :=
| JNull
| JBool (b : bool)
| JNum (n : Z)
| JStr (s : string)
| JArr (items : list json)
| JObj (members : list (string * json)).

Module Json.

Definition quote_char : ascii := ascii_of_N 34.
Definition backslash : ascii := ascii_of_N 92.
Definition newline : ascii := ascii_of_N 10.

Definition hex2 (n : N) : string :=
  String (hex_digit (n / 16)) (String (hex_digit (n mod 16)) EmptyString).

(** The escape [JSON.stringify] writes for one code unit. *)
Definition escape_char (c : ascii) : string :=
  let n := code c in
  if n =? 34 then String backslash (String quote_char EmptyString)
  else if n =? 92 then String backslash (String backslash EmptyString)
  else if n =? 8 then String backslash "b"
  else if n =? 12 then String backslash "f"
  else if n =? 10 then String backslash "n"
  else if n =? 13 then String backslash "r"
  else if n =? 9 then String backslash "t"
  else if n <? 32 then String backslash ("u00" ++ hex2 n)
  else String c EmptyString.

Fixpoint escape (s : string) : string :=
  match s with
  | EmptyString => EmptyString
  | String c r => escape_char c ++ escape r
  end.

Definition quote (s : string) : string :=
  String quote_char (escape s ++ String quote_char EmptyString).

Definition of_Z (n : Z) : string :=
  if (n <? 0)%Z then String "-" (of_N (Z.abs_N n)) else of_N (Z.to_N n).

Definition pad (indent : nat) : string := JsString.repeat " " indent.

Definition line_break (indent : nat) : string := String newline (pad indent).

(** The elements of an array after the first, and the closing bracket. *)
Fixpoint items_text (print : json -> string) (indent : nat) (l : list json)
  : string :=
  match l with
  | [] => line_break indent ++ "]"
  | y :: r => "," ++ line_break (2 + indent) ++ print y ++ items_text print indent r
  end.

(** The members of an object after the first, and the closing brace. *)
Fixpoint members_text (print : json -> string) (indent : nat)
         (l : list (string * json)) : string :=
  match l with
  | [] => line_break indent ++ "}"
  | (k, y) :: r =>
      "," ++ line_break (2 + indent) ++ quote k ++ ": " ++ print y
      ++ members_text print indent r
  end.

(** [JSON.stringify(v, null, 2)] at a nesting depth of [indent] spaces. *)
Fixpoint stringify_at (indent : nat) (v : json) : string :=
  match v with
  | JNull => "null"
  | JBool true => "true"
  | JBool false => "false"
  | JNum n => of_Z n
  | JStr s => quote s
  | JArr [] => "[]"
  | JArr (x :: xs) =>
      "[" ++ line_break (2 + indent) ++ stringify_at (2 + indent) x
      ++ items_text (stringify_at (2 + indent)) indent xs
  | JObj [] => "{}"
  | JObj ((k, x) :: ms) =>
      "{" ++ line_break (2 + indent) ++ quote k ++ ": "
      ++ stringify_at (2 + indent) x
      ++ members_text (stringify_at (2 + indent)) indent ms
  end.

Definition stringify (v : json) : string := stringify_at 0 v.

(** *** Parsing *)

Definition is_ws (c : ascii) : bool :=
  let n := code c in (n =? 32) || (n =? 9) || (n =? 10) || (n =? 13).

Fixpoint skip_ws (s : string) : string :=
  match s with
  | String c r => if is_ws c then skip_ws r else s
  | EmptyString => s
  end.

Definition hex_value (c : ascii) : option N :=
  let n := code c in
  if is_digit c then Some (n - 48)
  else if in_range 97 102 c then Some (n - 87)
  else if in_range 65 70 c then Some (n - 55)
  else None.

Definition hex4 (a b c d : ascii) : option N :=
  match hex_value a, hex_value b, hex_value c, hex_value d with
  | Some x, Some y, Some z, Some t => Some (((x * 16 + y) * 16 + z) * 16 + t)
  | _, _, _, _ => None
  end.

(** The character a one-letter escape stands for. *)
Definition unescape (e : ascii) : option ascii :=
  let n := code e in
  if n =? 34 then Some quote_char
  else if n =? 92 then Some backslash
  else if n =? 47 then Some "/"%char
  else if n =? 98 then Some (ascii_of_N 8)
  else if n =? 102 then Some (ascii_of_N 12)
  else if n =? 110 then Some (ascii_of_N 10)
  else if n =? 114 then Some (ascii_of_N 13)
  else if n =? 116 then Some (ascii_of_N 9)
  else None.

Definition cons_char (c : ascii) (r : option (string * string))
  : option (string * string) :=
  match r with
  | Some (s, rest) => Some (String c s, rest)
  | None => None
  end.

(** The characters of a string literal, after its opening quote, up to
    and including the closing quote. *)
Fixpoint parse_chars (s : string) : option (string * string) :=
  match s with
  | EmptyString => None
  | String c r =>
      if code c =? 34 then Some (EmptyString, r)
      else if code c =? 92 then
        match r with
        | String e r' =>
            if code e =? 117 then
              match r' with
              | String h1 (String h2 (String h3 (String h4 r''))) =>
                  match hex4 h1 h2 h3 h4 with
                  | Some n =>
                      if n <? 256 then cons_char (ascii_of_N n) (parse_chars r'')
                      else None
                  | None => None
                  end
              | _ => None
              end
            else
              match unescape e with
              | Some ch => cons_char ch (parse_chars r')
              | None => None
              end
        | EmptyString => None
        end
      else if code c <? 32 then None
      else cons_char c (parse_chars r)
  end.

(** The longest prefix of digits, and what follows it. *)
Fixpoint span_digits (s : string) : string * string :=
  match s with
  | String c r =>
      if is_digit c then let (d, rest) := span_digits r in (String c d, rest)
      else (EmptyString, s)
  | EmptyString => (EmptyString, EmptyString)
  end.

Definition starts_fraction (s : string) : bool :=
  match s with
  | String c _ => (code c =? 46) || (code c =? 101) || (code c =? 69)
  | EmptyString => false
  end.

(** An unsigned integer literal: digits without a superfluous leading
    zero, not followed by a fraction or an exponent. *)
Definition parse_nat (s : string) : option (N * string) :=
  let (d, rest) := span_digits s in
  match d with
  | EmptyString => None
  | String c d' =>
      if (code c =? 48) && negb (String.eqb d' "") then None
      else if starts_fraction rest then None
      else match NilEmpty.uint_of_string d with
           | Some u => Some (N.of_uint u, rest)
           | None => None
           end
  end.

Definition parse_number (s : string) : option (Z * string) :=
  match s with
  | String c r =>
      if code c =? 45 then
        match parse_nat r with
        | Some (n, rest) => Some ((- Z.of_N n)%Z, rest)
        | None => None
        end
      else
        match parse_nat s with
        | Some (n, rest) => Some (Z.of_N n, rest)
        | None => None
        end
  | EmptyString => None
  end.

Definition expect (word : string) (v : json) (s : string)
  : option (json * string) :=
  if startsWith word s
  then Some (v, JsString.drop (String.length word) s)
  else None.

(** A repeated key keeps its first position and takes the last value. *)
Fixpoint obj_set (k : string) (v : json) (m : list (string * json))
  : list (string * json) :=
  match m with
  | [] => [(k, v)]
  | (k0, v0) :: r =>
      if String.eqb k0 k then (k, v) :: r else (k0, v0) :: obj_set k v r
  end.

Definition dedupe (l : list (string * json)) : list (string * json) :=
  fold_left (fun acc kv => obj_set (fst kv) (snd kv) acc) l [].

(** Recursive descent; every nested call spends one unit of [fuel], and
    the length of the text is always enough. *)
Fixpoint parse_value (fuel : nat) (s : string) : option (json * string) :=
  match fuel with
  | O => None
  | S fuel' =>
      match skip_ws s with
      | EmptyString => None
      | String c r =>
          let n := code c in
          if n =? 34 then
            match parse_chars r with
            | Some (str, rest) => Some (JStr str, rest)
            | None => None
            end
          else if n =? 91 then
            match skip_ws r with
            | String c' r' =>
                if code c' =? 93 then Some (JArr [], r')
                else match parse_elements fuel' r with
                     | Some (l, rest) => Some (JArr l, rest)
                     | None => None
                     end
            | EmptyString => None
            end
          else if n =? 123 then
            match skip_ws r with
            | String c' r' =>
                if code c' =? 125 then Some (JObj [], r')
                else match parse_members fuel' r with
                     | Some (l, rest) => Some (JObj (dedupe l), rest)
                     | None => None
                     end
            | EmptyString => None
            end
          else if n =? 110 then expect "null" JNull (String c r)
          else if n =? 116 then expect "true" (JBool true) (String c r)
          else if n =? 102 then expect "false" (JBool false) (String c r)
          else match parse_number (String c r) with
               | Some (z, rest) => Some (JNum z, rest)
               | None => None
               end
      end
  end

(** [value (, value)* ]] *)
with parse_elements (fuel : nat) (s : string) : option (list json * string) :=
  match fuel with
  | O => None
  | S fuel' =>
      match parse_value fuel' s with
      | Some (v, r) =>
          match skip_ws r with
          | String c r' =>
              if code c =? 44 then
                match parse_elements fuel' r' with
                | Some (l, rest) => Some (v :: l, rest)
                | None => None
                end
              else if code c =? 93 then Some ([v], r')
              else None
          | EmptyString => None
          end
      | None => None
      end
  end

(** [string : value (, string : value)* }] *)
with parse_members (fuel : nat) (s : string)
  : option (list (string * json) * string) :=
  match fuel with
  | O => None
  | S fuel' =>
      match skip_ws s with
      | String q r0 =>
          if code q =? 34 then
            match parse_chars r0 with
            | Some (k, r1) =>
                match skip_ws r1 with
                | String colon r2 =>
                    if code colon =? 58 then
                      match parse_value fuel' r2 with
                      | Some (v, r) =>
                          match skip_ws r with
                          | String c r' =>
                              if code c =? 44 then
                                match parse_members fuel' r' with
                                | Some (l, rest) => Some ((k, v) :: l, rest)
                                | None => None
                                end
                              else if code c =? 125 then Some ([(k, v)], r')
                              else None
                          | EmptyString => None
                          end
                      | None => None
                      end
                    else None
                | EmptyString => None
                end
            | None => None
            end
          else None
      | EmptyString => None
      end
  end.

(** [JSON.parse]: one value, surrounded by white space only. *)
Definition parse (s : string) : option json :=
  match parse_value (S (String.length s)) s with
  | Some (v, rest) =>
      match skip_ws rest with
      | EmptyString => Some v
      | String _ _ => None
      end
  | None => None
  end.

End Json.

(** ** The data model of [types.ts] *)

Record ProjectConfig : Type := mkProjectConfig {
  id : string;
  name : string;
  slug : string;
  description : option string;
  guidelines : option string;
  createdAt : Z;
  updatedAt : Z;
  enabledSourceSlugs : option (list string)
}.

Record CreateProjectInput : Type := mkCreateProjectInput {
  input_name : string;
  input_description : option string;
  input_guidelines : option string;
  input_enabledSourceSlugs : option (list string)
}.

Record ProjectSummary : Type := mkProjectSummary {
  summary_id : string;
  summary_slug : string;
  summary_name : string;
  summary_description : option string;
  sessionCount : N;
  fileCount : N;
  summary_createdAt : Z;
  summary_updatedAt : Z
}.

(** A property of the [updates] argument of [updateProject]: left out,
    present with the value [undefined], or present with a value. *)
Inductive provided (A : Type) : Type :=
| Absent
| Undefined
| Value (a : A).
Arguments Absent {A}.
Arguments Undefined {A}.
Arguments Value {A} a.

(** The [updates] argument of [updateProject].  Its declared type is
    [Partial<Pick<ProjectConfig, 'name' | 'description' | 'guidelines' |
    'enabledSourceSlugs'>>], which an object with further properties
    satisfies as well (a whole [ProjectConfig] does); the spread copies
    every own property, so the record has one field for each property of a
    config.  A required property of the config ([id], [name], [slug],
    [createdAt], [updatedAt]) is either left out or given. *)
Record ProjectUpdates : Type := mkUpdates {
  upd_id : option string;
  upd_name : option string;
  upd_slug : option string;
  upd_description : provided string;
  upd_guidelines : provided string;
  upd_createdAt : option Z;
  upd_updatedAt : option Z;
  upd_enabledSourceSlugs : provided (list string)
}.

(** An [updates] object with the four properties of the declared type
    and no other. *)
Definition mkProjectUpdates (name : option string) (description guidelines : provided string)
           (enabledSourceSlugs : provided (list string)) : ProjectUpdates :=
  mkUpdates None name None description guidelines None None enabledSourceSlugs.

Inductive FileType : Type := TFile | TDirectory.

Inductive ProjectFile : Type := mkProjectFile {
  pf_name : string;
  pf_path : string;
  pf_type : FileType;
  pf_size : option N;
  pf_children : option (list ProjectFile)
}.

Definition with_updatedAt (c : ProjectConfig) (t : Z) : ProjectConfig :=
  mkProjectConfig (id c) (name c) (slug c) (description c) (guidelines c)
                  (createdAt c) t (enabledSourceSlugs c).

Definition spread_field {A} (old : option A) (u : provided A) : option A :=
  match u with
  | Absent => old
  | Undefined => None
  | Value a => Some a
  end.

(** [{ ...config, ...updates, updatedAt: now }]: every own property of
    [updates] replaces the property of the config, and [updatedAt] is set
    last, over whatever [updates] carries for it. *)
Definition spread_updates (c : ProjectConfig) (u : ProjectUpdates) (now : Z)
  : ProjectConfig :=
  mkProjectConfig (match upd_id u with Some i => i | None => id c end)
                  (match upd_name u with Some n => n | None => name c end)
                  (match upd_slug u with Some s => s | None => slug c end)
                  (spread_field (description c) (upd_description u))
                  (spread_field (guidelines c) (upd_guidelines u))
                  (match upd_createdAt u with Some t => t | None => createdAt c end)
                  now
                  (spread_field (enabledSourceSlugs c) (upd_enabledSourceSlugs u)).

(** JavaScript truthiness of an optional string. *)
Definition truthy (s : option string) : bool :=
  match s with
  | Some v => negb (String.eqb v "")
  | None => false
  end.

(** *** A config as a JSON object

    [JSON.stringify] leaves out the properties whose value is [undefined].
    The cast [JSON.parse(...) as ProjectConfig] is unchecked; the model
    reads back exactly the objects that have the declared shape, and
    treats any other text like one that does not parse. *)

Module ConfigJson.

Definition optional {A} (k : string) (f : A -> json) (o : option A)
  : list (string * json) :=
  match o with
  | Some a => [(k, f a)]
  | None => []
  end.

Definition to_json (c : ProjectConfig) : json :=
  JObj ([("id", JStr (id c)); ("name", JStr (name c)); ("slug", JStr (slug c))]
        ++ optional "description" JStr (description c)
        ++ optional "guidelines" JStr (guidelines c)
        ++ [("createdAt", JNum (createdAt c)); ("updatedAt", JNum (updatedAt c))]
        ++ optional "enabledSourceSlugs" (fun l => JArr (map JStr l))
                    (enabledSourceSlugs c))%list.

Fixpoint member (k : string) (m : list (string * json)) : option json :=
  match m with
  | [] => None
  | (k0, v) :: r => if String.eqb k0 k then Some v else member k r
  end.

Fixpoint strings_of (l : list json) : option (list string) :=
  match l with
  | [] => Some []
  | JStr s :: r =>
      match strings_of r with
      | Some ss => Some (s :: ss)
      | None => None
      end
  | _ :: _ => None
  end.

Definition get_string (k : string) (m : list (string * json)) : option string :=
  match member k m with
  | Some (JStr s) => Some s
  | _ => None
  end.

Definition get_number (k : string) (m : list (string * json)) : option Z :=
  match member k m with
  | Some (JNum n) => Some n
  | _ => None
  end.

Definition get_optional_string (k : string) (m : list (string * json))
  : option (option string) :=
  match member k m with
  | None => Some None
  | Some (JStr s) => Some (Some s)
  | Some _ => None
  end.

Definition get_optional_strings (k : string) (m : list (string * json))
  : option (option (list string)) :=
  match member k m with
  | None => Some None
  | Some (JArr l) =>
      match strings_of l with
      | Some ss => Some (Some ss)
      | None => None
      end
  | Some _ => None
  end.

Definition keys : list string :=
  ["id"; "name"; "slug"; "description"; "guidelines"; "createdAt";
   "updatedAt"; "enabledSourceSlugs"].

Definition known_key (kv : string * json) : bool :=
  List.existsb (String.eqb (fst kv)) keys.

Definition of_json (v : json) : option ProjectConfig :=
  match v with
  | JObj m =>
      if List.forallb known_key m then
        match get_string "id" m, get_string "name" m, get_string "slug" m,
              get_optional_string "description" m,
              get_optional_string "guidelines" m,
              get_number "createdAt" m, get_number "updatedAt" m,
              get_optional_strings "enabledSourceSlugs" m with
        | Some i, Some n, Some s, Some d, Some g, Some c, Some u, Some e =>
            Some (mkProjectConfig i n s d g c u e)
        | _, _, _, _, _, _, _, _ => None
        end
      else None
  | _ => None
  end.

(** [JSON.stringify(config, null, 2)] *)
Definition stringify (c : ProjectConfig) : string := Json.stringify (to_json c).

(** [JSON.parse(text) as ProjectConfig]; throws on a text that does not
    parse. *)
Definition parse (text : string) : M ProjectConfig :=
  match Json.parse text with
  | Some v =>
      match of_json v with
      | Some c => ret c
      | None => throw
      end
  | None => throw
  end.

End ConfigJson.

(** ** The store *)

(** [for (const x of l) { ... }] over a loop-carried state. *)
Fixpoint for_each {A S : Type} (l : list A) (body : A -> S -> M S) (s : S)
  : M S :=
  match l with
  | [] => ret s
  | x :: r => s' <- body x s ;; for_each r body s'
  end.

(** The [while] loop of [generateUniqueProjectSlug]. *)
Fixpoint probe_counter (fuel : nat) (slug : string) (projectsDir : path)
         (counter : N) : M N :=
  match fuel with
  | O => diverge
  | S fuel' =>
      e <- existsSync (join projectsDir (slug ++ "-" ++ of_N counter)) ;;
      if e then probe_counter fuel' slug projectsDir (counter + 1)
      else ret counter
  end.

Definition generateUniqueProjectSlug (fuel : nat) (name : string)
           (projectsDir : path) : M string :=
  let slug := generateSlug name in
  let candidate := slug in
  e <- existsSync (join projectsDir candidate) ;;
  if negb e then ret candidate
  else
    counter <- probe_counter fuel slug projectsDir 2 ;;
    ret (slug ++ "-" ++ of_N counter).

Definition loadProjectConfig (workspaceRootPath projectSlug : string)
  : M (option ProjectConfig) :=
  let configPath := join (getProjectPath workspaceRootPath projectSlug) "config.json" in
  e <- existsSync configPath ;;
  if negb e then ret None
  else
    try_catch
      (text <- readFileSync configPath ;;
       c <- ConfigJson.parse text ;;
       ret (Some c))
      (ret None).

Definition saveProjectConfig (workspaceRootPath projectSlug : string)
           (config : ProjectConfig) : M unit :=
  let projectPath := getProjectPath workspaceRootPath projectSlug in
  e <- existsSync projectPath ;;
  (if negb e then mkdirSync_recursive projectPath else ret tt) ;;
  now <- Date_now ;;
  let storageConfig := with_updatedAt config now in
  writeFileSync (join projectPath "config.json") (ConfigJson.stringify storageConfig).

Fixpoint countFiles (fuel : nat) (dirPath : path) : M N :=
  match fuel with
  | O => diverge
  | S fuel' =>
      e <- existsSync dirPath ;;
      if negb e then ret 0
      else
        try_catch
          (entries <- readdirSync dirPath ;;
           for_each entries
             (fun entry count =>
                if isFile entry then ret (count + 1)
                else if isDirectory entry then
                  n <- countFiles fuel' (join dirPath (dirent_name entry)) ;;
                  ret (count + n)
                else ret count)
             0)
          (ret 0)
  end.

Definition loadProject (workspaceRootPath projectSlug : string)
  : M (option ProjectConfig) :=
  loadProjectConfig workspaceRootPath projectSlug.

Definition getProjectSummary (fuel : nat) (workspaceRootPath projectSlug : string)
           (sessionCount : N) : M (option ProjectSummary) :=
  config <- loadProjectConfig workspaceRootPath projectSlug ;;
  match config with
  | None => ret None
  | Some config =>
      fileCount <- countFiles fuel (getProjectFilesPath workspaceRootPath projectSlug) ;;
      ret (Some (mkProjectSummary (id config) (slug config) (name config)
                                  (description config) sessionCount fileCount
                                  (createdAt config) (updatedAt config)))
  end.

(** [Array.prototype.sort] is stable; for a comparator that reports a
    negative number when its first argument goes first. *)
Section Sort.
Variable A : Type.
Variable compare : A -> A -> Z.

Fixpoint insert_sorted (x : A) (l : list A) : list A :=
  match l with
  | [] => [x]
  | y :: r => if (compare x y <? 0)%Z then x :: y :: r else y :: insert_sorted x r
  end.

Definition sort (l : list A) : list A :=
  fold_left (fun acc x => insert_sorted x acc) l [].
End Sort.

Definition listProjects (fuel : nat) (workspaceRootPath : string)
  : M (list ProjectSummary) :=
  let projectsDir := getWorkspaceProjectsPath workspaceRootPath in
  e <- existsSync projectsDir ;;
  if negb e then ret []
  else
    projects <-
      try_catch
        (entries <- readdirSync projectsDir ;;
         for_each entries
           (fun entry projects =>
              if negb (isDirectory entry) then ret projects
              else
                summary <- getProjectSummary fuel workspaceRootPath
                                             (dirent_name entry) 0 ;;
                match summary with
                | Some s => ret (projects ++ [s])%list
                | None => ret projects
                end)
           [])
        (ret []) ;;
    ret (sort (fun a b => (summary_updatedAt b - summary_updatedAt a)%Z) projects).

Definition createProject (fuel : nat) (workspaceRootPath : string)
           (input : CreateProjectInput) : M ProjectConfig :=
  now <- Date_now ;;
  let projectsDir := getWorkspaceProjectsPath workspaceRootPath in
  e <- existsSync projectsDir ;;
  (if negb e then mkdirSync_recursive projectsDir else ret tt) ;;
  slug <- generateUniqueProjectSlug fuel (input_name input) projectsDir ;;
  uuid <- randomUUID ;;
  let config :=
    mkProjectConfig ("proj_" ++ take 8 uuid) (input_name input) slug
                    (input_description input) (input_guidelines input)
                    now now (input_enabledSourceSlugs input) in
  let projectPath := join projectsDir slug in
  mkdirSync_recursive projectPath ;;
  mkdirSync_recursive (join projectPath "files") ;;
  writeFileSync (join projectPath "config.json") (ConfigJson.stringify config) ;;
  (match input_guidelines input with
   | Some g =>
       if truthy (Some g) then writeFileSync (join projectPath "guidelines.md") g
       else ret tt
   | None => ret tt
   end) ;;
  ret config.

Definition updateProject (workspaceRootPath projectSlug : string)
           (updates : ProjectUpdates) : M (option ProjectConfig) :=
  config <- loadProjectConfig workspaceRootPath projectSlug ;;
  match config with
  | None => ret None
  | Some config =>
      now <- Date_now ;;
      let updated := spread_updates config updates now in
      saveProjectConfig workspaceRootPath projectSlug updated ;;
      (match upd_guidelines updates with
       | Value g =>
           let guidelinesPath :=
             join (getProjectPath workspaceRootPath projectSlug) "guidelines.md" in
           if truthy (Some g) then writeFileSync guidelinesPath g
           else
             e <- existsSync guidelinesPath ;;
             if e then unlinkSync guidelinesPath else ret tt
       | Absent | Undefined => ret tt
       end) ;;
      ret (Some updated)
  end.

Definition deleteProject (workspaceRootPath projectSlug : string) : M bool :=
  let projectPath := getProjectPath workspaceRootPath projectSlug in
  e <- existsSync projectPath ;;
  if negb e then ret false
  else try_catch (rmSync_recursive projectPath ;; ret true) (ret false).

Section Listing.

(** [String.prototype.localeCompare], which depends on the host's
    locale. *)
Variable localeCompare : string -> string -> Z.

Definition file_type_eqb (a b : FileType) : bool :=
  match a, b with
  | TFile, TFile | TDirectory, TDirectory => true
  | _, _ => false
  end.

Definition compare_files (a b : ProjectFile) : Z :=
  if negb (file_type_eqb (pf_type a) (pf_type b))
  then match pf_type a with TDirectory => (-1)%Z | TFile => 1%Z end
  else localeCompare (pf_name a) (pf_name b).

Fixpoint listProjectFiles (fuel : nat) (workspaceRootPath projectSlug : string)
         (subPath : option string) : M (list ProjectFile) :=
  match fuel with
  | O => diverge
  | S fuel' =>
      let filesRoot := getProjectFilesPath workspaceRootPath projectSlug in
      let dirPath := match subPath with
                     | Some s => if truthy (Some s) then join filesRoot s else filesRoot
                     | None => filesRoot
                     end in
      e <- existsSync dirPath ;;
      if negb e then ret []
      else
        try_catch
          (entries <- readdirSync dirPath ;;
           files <-
             for_each entries
               (fun entry files =>
                  if startsWith "." (dirent_name entry) then ret files
                  else
                    let fullPath := join dirPath (dirent_name entry) in
                    let relativePath := relative filesRoot fullPath in
                    if isDirectory entry then
                      children <- listProjectFiles fuel' workspaceRootPath
                                                   projectSlug (Some relativePath) ;;
                      ret (files ++ [mkProjectFile (dirent_name entry) relativePath
                                                   TDirectory None (Some children)])%list
                    else if isFile entry then
                      stat <- statSync fullPath ;;
                      ret (files ++ [mkProjectFile (dirent_name entry) relativePath
                                                   TFile (Some (stats_size stat)) None])%list
                    else ret files)
               [] ;;
           ret (sort compare_files files))
          (ret [])
  end.

End Listing.

Definition readProjectFile (workspaceRootPath projectSlug filePath : string)
  : M (option string) :=
  let fullPath :=
    join_name (getProjectFilesPath workspaceRootPath projectSlug) filePath in
  e <- existsSync_name fullPath ;;
  if negb e then ret None
  else try_catch (c <- readFileSync_name fullPath ;; ret (Some c)) (ret None).

Definition writeProjectFile (workspaceRootPath projectSlug filePath content : string)
  : M unit :=
  let fullPath :=
    join_name (getProjectFilesPath workspaceRootPath projectSlug) filePath in
  let dir := join_name (components fullPath) ".." in
  e <- existsSync_name dir ;;
  (if negb e then mkdirSync_recursive_name dir else ret tt) ;;
  writeFileSync_name fullPath content.

Definition createProjectFile (workspaceRootPath projectSlug filePath content : string)
  : M bool :=
  let fullPath :=
    join_name (getProjectFilesPath workspaceRootPath projectSlug) filePath in
  e <- existsSync_name fullPath ;;
  if e then ret false
  else
    let dir := join_name (components fullPath) ".." in
    e' <- existsSync_name dir ;;
    (if negb e' then mkdirSync_recursive_name dir else ret tt) ;;
    writeFileSync_name fullPath content ;;
    ret true.

Definition deleteProjectFile (workspaceRootPath projectSlug filePath : string)
  : M bool :=
  let fullPath :=
    join_name (getProjectFilesPath workspaceRootPath projectSlug) filePath in
  e <- existsSync_name fullPath ;;
  if negb e then ret false
  else
    try_catch
      (stat <- statSync_name fullPath ;;
       (if stats_isDirectory stat then rmSync_recursive_name fullPath
        else unlinkSync_name fullPath) ;;
       ret true)
      (ret false).

Definition renameProjectFile (workspaceRootPath projectSlug oldPath newPath : string)
  : M bool :=
  let filesRoot := getProjectFilesPath workspaceRootPath projectSlug in
  let fullOldPath := join_name filesRoot oldPath in
  let fullNewPath := join_name filesRoot newPath in
  e <- existsSync_name fullOldPath ;;
  if negb e then ret false
  else
    e' <- existsSync_name fullNewPath ;;
    if e' then ret false
    else
      try_catch
        (let newDir := join_name (components fullNewPath) ".." in
         d <- existsSync_name newDir ;;
         (if negb d then mkdirSync_recursive_name newDir else ret tt) ;;
         renameSync_name fullOldPath fullNewPath ;;
         ret true)
        (ret false).

(** ** Vocabulary of the properties *)

Definition is_slug_char (c : ascii) : bool := is_lower_alnum c || Ascii.eqb c "-".

(** No two dashes in a row. *)
Fixpoint single_dashes (s : string) : bool :=
  match s with
  | String a ((String b _) as r) =>
      negb (Ascii.eqb a "-" && Ascii.eqb b "-") && single_dashes r
  | _ => true
  end.


(** The number of entries of the directory at [p] (0 when there is none). *)
Definition dir_size (t : node) (p : path) : nat :=
  match lookup t p with
  | Some (Dir es) => List.length es
  | _ => O
  end.

(** Every component of a resolved path is a plain name. *)
Definition normal (p : path) : bool := List.forallb valid_segment p.

(** The tree [t] with the node at [p] replaced by [s] (and [t] itself when
    there is no node at [p]). *)
Fixpoint graft (p : path) (s : node) (t : node) : node :=
  match p with
  | [] => s
  | n :: p' =>
      match t with
      | Dir es =>
          match Entries.find n es with
          | Some c => Dir (Entries.set n (graft p' s c) es)
          | None => t
          end
      | _ => t
      end
  end.

(** There is a directory at [p]. *)
Definition dir_at (t : node) (p : path) : Prop :=
  exists es, lookup t p = Some (Dir es).

(** What [existsSync] answers. *)
Definition exists_at (t : node) (p : path) : bool :=
  match lookup t p with
  | Some _ => true
  | None => false
  end.

(** The world an operation leaves, and what it returns. *)
Definition world_after {A} (m : M A) (w : World) : World := fst (m w).
Definition result_of {A} (m : M A) (w : World) : outcome A := snd (m w).

(** The config [createProject] builds for the slug [s] in the world [w]. *)
Definition created_config (input : CreateProjectInput) (s : string) (w : World)
  : ProjectConfig :=
  mkProjectConfig ("proj_" ++ take 8 (uuid_string (entropy w (draws w))))
                  (input_name input) s
                  (input_description input) (input_guidelines input)
                  (clock w (ticks w)) (clock w (ticks w))
                  (input_enabledSourceSlugs input).

(** The folder [createProject] lays out for a config. *)
Definition project_folder (c : ProjectConfig) : node :=
  Dir ([("files", Dir []); ("config.json", File (ConfigJson.stringify c))]
       ++ match guidelines c with
          | Some g => if truthy (Some g) then [("guidelines.md", File g)] else []
          | None => []
          end)%list.

(** The slug chosen for [name] among the entries [es]: the base slug when
    it is free, and otherwise the first free one of [slug-2], [slug-3], ... *)
Definition slug_choice (es : list (string * node)) (name s : string) : Prop :=
  Entries.find s es = None
  /\ valid_segment s = true
  /\ ((Entries.find (generateSlug name) es = None /\ s = generateSlug name)
      \/ (Entries.find (generateSlug name) es <> None
          /\ exists i : nat,
               s = generateSlug name ++ "-" ++ of_N (2 + N.of_nat i)
               /\ forall j : nat, (j < i)%nat ->
                    Entries.find (generateSlug name ++ "-" ++ of_N (2 + N.of_nat j)) es
                    <> None)).

(** The projects root holds no project yet: it is an empty directory, or
    it is missing and can be created. *)
Definition empty_projects_root (w : World) (root : string) : Prop :=
  lookup (fs w) (getWorkspaceProjectsPath root) = Some (Dir [])
  \/ (lookup (fs w) (getWorkspaceProjectsPath root) = None
      /\ mkdir_p (getWorkspaceProjectsPath root) (fs w) <> None).

(** An operation that leaves the world as it found it. *)
Definition readonly {A} (m : M A) : Prop := forall w, fst (m w) = w.

(** An operation that keeps the directory at [p]. *)
Definition keeps_dir {A} (m : M A) (p : path) : Prop :=
  forall w, dir_at (fs w) p -> dir_at (fs (fst (m w))) p.

(** The calls a client can make on the store. *)
Inductive StoreOp : Type :=
| LoadProjectConfig (root slug : string)
| SaveProjectConfig (root slug : string) (config : ProjectConfig)
| LoadProject (root slug : string)
| GetProjectSummary (fuel : nat) (root slug : string) (sessions : N)
| ListProjects (fuel : nat) (root : string)
| CreateProject (fuel : nat) (root : string) (input : CreateProjectInput)
| UpdateProject (root slug : string) (updates : ProjectUpdates)
| DeleteProject (root slug : string)
| ListProjectFiles (fuel : nat) (root slug : string) (subPath : option string)
| ReadProjectFile (root slug filePath : string)
| WriteProjectFile (root slug filePath content : string)
| CreateProjectFile (root slug filePath content : string)
| DeleteProjectFile (root slug filePath : string)
| RenameProjectFile (root slug oldPath newPath : string).

(** The world after a call, whatever the call returned or threw. *)
Definition run_op (localeCompare : string -> string -> Z) (op : StoreOp)
           (w : World) : World :=
  match op with
  | LoadProjectConfig root slug => fst (loadProjectConfig root slug w)
  | SaveProjectConfig root slug config => fst (saveProjectConfig root slug config w)
  | LoadProject root slug => fst (loadProject root slug w)
  | GetProjectSummary fuel root slug sessions =>
      fst (getProjectSummary fuel root slug sessions w)
  | ListProjects fuel root => fst (listProjects fuel root w)
  | CreateProject fuel root input => fst (createProject fuel root input w)
  | UpdateProject root slug updates => fst (updateProject root slug updates w)
  | DeleteProject root slug => fst (deleteProject root slug w)
  | ListProjectFiles fuel root slug subPath =>
      fst (listProjectFiles localeCompare fuel root slug subPath w)
  | ReadProjectFile root slug filePath => fst (readProjectFile root slug filePath w)
  | WriteProjectFile root slug filePath content =>
      fst (writeProjectFile root slug filePath content w)
  | CreateProjectFile root slug filePath content =>
      fst (createProjectFile root slug filePath content w)
  | DeleteProjectFile root slug filePath =>
      fst (deleteProjectFile root slug filePath w)
  | RenameProjectFile root slug oldPath newPath =>
      fst (renameProjectFile root slug oldPath newPath w)
  end.

Definition run_ops (localeCompare : string -> string -> Z) (ops : list StoreOp)
           (w : World) : World :=
  fold_left (fun w op => run_op localeCompare op w) ops w.

(** The path a call deletes or moves away, if it does. *)
Definition removed_path (op : StoreOp) : option path :=
  match op with
  | DeleteProject root slug => Some (getProjectPath root slug)
  | DeleteProjectFile root slug filePath =>
      Some (join (getProjectFilesPath root slug) filePath)
  | RenameProjectFile root slug oldPath _ =>
      Some (join (getProjectFilesPath root slug) oldPath)
  | _ => None
  end.

(** The call does not delete or move [p] or a directory above it. *)
Definition spares (op : StoreOp) (p : path) : Prop :=
  match removed_path op with
  | Some r => is_prefix r p = false
  | None => True
  end.

(** A JSON value whose objects name every member once. *)
Fixpoint unique_keys (keys : list string) : bool :=
  match keys with
  | [] => true
  | k :: r => negb (List.existsb (String.eqb k) r) && unique_keys r
  end.

Fixpoint wf_json (v : json) : bool :=
  match v with
  | JArr l => List.forallb wf_json l
  | JObj m =>
      unique_keys (map fst m) && List.forallb (fun kv => wf_json (snd kv)) m
  | _ => true
  end.

(** What may follow a value in a text: not a character that would extend
    a number. *)
Definition delimited (rest : string) : bool :=
  match rest with
  | EmptyString => true
  | String c _ => negb (is_digit c) && negb (Json.starts_fraction rest)
  end.

(** The path of a project's [config.json]. *)
Definition config_path (root slug : string) : path :=
  join (getProjectPath root slug) "config.json".

(** The path of a project's [guidelines.md]. *)
Definition guidelines_path (root slug : string) : path :=
  join (getProjectPath root slug) "guidelines.md".

(** Nothing stands in the way of writing a regular file at [p]: there is
    no entry yet, or a regular file. *)
Definition file_or_free (t : node) (p : path) : Prop :=
  match lookup t p with
  | None | Some (File _) => True
  | Some (Dir _) | Some Special => False
  end.

(** A regular file or a directory.  Whether the system finds anything
    behind an entry of another kind depends on the kind: a link leads
    wherever it points. *)
Definition file_or_dir (n : node) : bool := is_file n || is_dir n.

(** [saveProjectConfig] can do its work: the project folder is a directory
    or can be created, and [config.json] is not a directory or a special
    entry. *)
Definition config_writable (t : node) (root slug : string) : Prop :=
  exists t1, mkdir_p (getProjectPath root slug) t = Some t1
             /\ file_or_free t1 (config_path root slug).

(** The last step of [updateProject]: bringing [guidelines.md] in line
    with an update that gives [guidelines]. *)
Definition guidelines_step (root slug : string) (updates : ProjectUpdates)
  : M unit :=
  match upd_guidelines updates with
  | Value g =>
      let guidelinesPath := join (getProjectPath root slug) "guidelines.md" in
      if truthy (Some g) then writeFileSync guidelinesPath g
      else
        e <- existsSync guidelinesPath ;;
        if e then unlinkSync guidelinesPath else ret tt
  | Absent | Undefined => ret tt
  end.

(** *** Walks, as functions of the tree *)

(** No directory below the node has two entries of one name. *)
Fixpoint names_unique (t : node) : bool :=
  match t with
  | Dir es =>
      unique_keys (map fst es) && List.forallb (fun e => names_unique (snd e)) es
  | _ => true
  end.

Definition well_formed (t : node) : bool := names_valid t && names_unique t.

Fixpoint erase_entries (erase : node -> node) (l : list (string * node))
  : list (string * node) :=
  match l with
  | [] => []
  | (k, c) :: r =>
      match c with
      | Special => erase_entries erase r
      | _ => (k, erase c) :: erase_entries erase r
      end
  end.

(** The tree without the entries that are neither files nor directories. *)
Fixpoint erase_special (t : node) : node :=
  match t with
  | Dir es => Dir (erase_entries erase_special es)
  | _ => t
  end.

Fixpoint count_entries (count : node -> N) (l : list (string * node)) : N :=
  match l with
  | [] => 0
  | (_, c) :: r =>
      match c with
      | File _ => 1 + count_entries count r
      | Dir _ => count c + count_entries count r
      | Special => count_entries count r
      end
  end.

(** The regular files below a directory. *)
Fixpoint count_node (t : node) : N :=
  match t with
  | Dir es => count_entries count_node es
  | _ => 0
  end.

Definition count_at (t : node) (p : path) : N :=
  match lookup t p with
  | Some n => count_node n
  | None => 0
  end.

Section ListingOfATree.
Variable localeCompare : string -> string -> Z.
Variable filesRoot : path.

(** The entries [listProjectFiles] collects from a directory at [dirPath],
    in the order it meets them; [walk] lists a subdirectory. *)
Fixpoint list_entries (walk : path -> node -> list ProjectFile) (dirPath : path)
         (l : list (string * node)) : list ProjectFile :=
  match l with
  | [] => []
  | (k, c) :: r =>
      if startsWith "." k then list_entries walk dirPath r
      else
        match c with
        | Dir _ =>
            mkProjectFile k (relative filesRoot (dirPath ++ [k])%list) TDirectory None
                          (Some (walk (dirPath ++ [k])%list c))
            :: list_entries walk dirPath r
        | File txt =>
            mkProjectFile k (relative filesRoot (dirPath ++ [k])%list) TFile
                          (Some (utf8_length txt)) None
            :: list_entries walk dirPath r
        | Special => list_entries walk dirPath r
        end
  end.

(** The listing of the directory [t] found at [dirPath]. *)
Fixpoint list_node (dirPath : path) (t : node) : list ProjectFile :=
  match t with
  | Dir es =>
      sort (compare_files localeCompare)
           (list_entries (fun p c => list_node p c) dirPath es)
  | _ => []
  end.

End ListingOfATree.

Definition list_at (localeCompare : string -> string -> Z) (filesRoot : path)
           (t : node) (dirPath : path) : list ProjectFile :=
  match lookup t dirPath with
  | Some n => list_node localeCompare filesRoot dirPath n
  | None => []
  end.

(** The directory [listProjectFiles] reads for a given [subPath]. *)
Definition listed_path (root slug : string) (subPath : option string) : path :=
  match subPath with
  | Some s =>
      if truthy (Some s) then join (getProjectFilesPath root slug) s
      else getProjectFilesPath root slug
  | None => getProjectFilesPath root slug
  end.

(** No entry of the listing, at any depth, has a name starting with a dot. *)
Fixpoint visible (f : ProjectFile) : bool :=
  match f with
  | mkProjectFile n _ _ _ children =>
      negb (startsWith "." n)
      && match children with
         | Some l => List.forallb visible l
         | None => true
         end
  end.

Definition slash_free (s : string) : bool :=
  JsString.forallb (fun c => negb (Ascii.eqb c "/")) s.

(** *** Worlds and values of the examples *)

Definition unique_slug_world : World :=
  mkWorld (Dir [("projects", Dir [("x", Dir []); ("x-2", Dir [])])])
          (fun _ => 0%Z) 0 (fun _ => 0) 0.

(** Successive readings of the clock and of the random source. *)
Definition example_clock (n : nat) : Z :=
  nth n [1700000000000; 1700000000250; 1700000000500; 1700000000750]%Z
      1700000001000%Z.

Definition example_entropy (n : nat) : N :=
  nth n [170141184411207181902859354838411509760;
         24197857200151252728969465429440056815]
      340282366920938463463374607431768211455.

Definition fresh_workspace : World :=
  mkWorld (Dir [("ws", Dir [])]) example_clock 0 example_entropy 0.

Definition saved_config : ProjectConfig :=
  mkProjectConfig "proj_0a1b2c3d" "My Plan" "my-plan" (Some "notes")
                  None 1700000000000%Z 1700000000000%Z (Some ["docs"; "web"]).

(** A config whose [updatedAt] is older than every reading of the
    clock. *)
Definition stale_config : ProjectConfig :=
  mkProjectConfig "proj_0a1b2c3d" "My Plan" "my-plan" (Some "notes")
                  None 1600000000000%Z 1600000000001%Z (Some ["docs"; "web"]).

(** A workspace with one project, as [createProject] leaves it. *)
Definition project_input : CreateProjectInput :=
  mkCreateProjectInput "My Plan" None (Some "be nice") None.

Definition project_world : World :=
  world_after (createProject 1 "/ws" project_input) fresh_workspace.

Definition project_config : ProjectConfig :=
  created_config project_input "my-plan" fresh_workspace.

Definition guidelines_update : ProjectUpdates :=
  mkProjectUpdates (Some "Renamed") Absent (Value "") (Value ["docs"]).



(** An update that gives a guidelines text. *)
Definition text_update : ProjectUpdates :=
  mkProjectUpdates None Absent (Value "be brief") Absent.

Definition updated_world : World :=
  world_after (updateProject "/ws" "my-plan" guidelines_update) project_world.


(** The first character of a number. *)
Definition number_start (c : ascii) : bool := (code c =? 45) || is_digit c.

(** The statement proved of every value: its text, followed by anything
    that does not extend a number, parses back to it. *)
Definition parses (v : json) : Prop :=
  wf_json v = true ->
  forall indent rest fuel,
    delimited rest = true ->
    (String.length (Json.stringify_at indent v) < fuel)%nat ->
    Json.parse_value fuel (Json.stringify_at indent v ++ rest) = Some (v, rest).

(** A world whose tree holds a project with a hidden file, a socket, a
    visible file and a subdirectory under [files]. *)
Definition listing_world : World :=
  mkWorld
    (Dir [("ws",
           Dir [("projects",
                 Dir [("my-plan",
                       Dir [("config.json", File (ConfigJson.stringify saved_config));
                            ("files",
                             Dir [(".hidden", File "secret");
                                  ("b.txt", File "hello");
                                  ("sock", Special);
                                  ("a", Dir [("c.md", File "# c");
                                             ("pipe", Special)])])])])])])
    example_clock 0 example_entropy 0.

(** The order of code units, standing in for a locale's collation. *)
Fixpoint code_unit_compare (a b : string) : Z :=
  match a, b with
  | EmptyString, EmptyString => 0%Z
  | EmptyString, String _ _ => (-1)%Z
  | String _ _, EmptyString => 1%Z
  | String x a', String y b' =>
      if code x <? code y then (-1)%Z
      else if code y <? code x then 1%Z
      else code_unit_compare a' b'
  end.

(** ** Vocabulary of the further properties *)

From Stdlib Require Sorted.

(** A slug in its final form: lowercase letters, digits and single dashes,
    no dash at either end, between 1 and 50 characters. *)
Definition is_slug (s : string) : bool :=
  JsString.forallb is_slug_char s && single_dashes s
  && negb (startsWith "-" s) && negb (endsWith_char "-" s)
  && negb (String.eqb s "") && (String.length s <=? 50)%nat.

(** [createProject] can do its work: the projects root is a directory or
    can be created, and the slug probe has fuel for its entries. *)
Definition projects_root_ready (fuel : nat) (w : World) (root : string) : Prop :=
  exists t1, mkdir_p (getWorkspaceProjectsPath root) (fs w) = Some t1
             /\ (dir_size t1 (getWorkspaceProjectsPath root) < fuel)%nat.

(** Neither path lies on the other: they name entries of different
    subtrees. *)
Definition apart (p q : path) : Prop :=
  is_prefix p q = false /\ is_prefix q p = false.

(** A regular file can be written at [p]: the directories above [p] exist
    or can be created, and neither a directory nor a special entry stands
    at [p] itself. *)
Definition file_writable (t : node) (p : path) : Prop :=
  exists t1, mkdir_p (removelast p) t = Some t1 /\ file_or_free t1 p.

(** What [readProjectFile] answers for the node at the path it reads. *)
Definition file_text (o : option node) : option string :=
  match o with
  | Some (File c) => Some c
  | _ => None
  end.

(** An operation that is never cut off, and one that always returns. *)
Definition settles {A} (m : M A) : Prop := forall w, snd (m w) <> Diverge.

Definition returns {A} (m : M A) : Prop := forall w, exists w' a, m w = (w', Ret a).

(** The path string has a [..] segment. *)
Definition climbs (s : string) : bool :=
  List.existsb (String.eqb "..") (segments s).

(** *** Listings *)

Definition is_file_entry (f : ProjectFile) : bool := file_type_eqb (pf_type f) TFile.

(** No file comes before a directory. *)
Fixpoint dirs_first (l : list ProjectFile) : bool :=
  match l with
  | [] => true
  | f :: r =>
      match pf_type f with
      | TDirectory => dirs_first r
      | TFile => List.forallb is_file_entry r
      end
  end.

(** The same in the children of the entry, at every depth. *)
Fixpoint ordered (f : ProjectFile) : bool :=
  match f with
  | mkProjectFile _ _ _ _ (Some l) => dirs_first l && List.forallb ordered l
  | _ => true
  end.

(** No entry is followed by one that the comparator puts before it. *)
Fixpoint in_order (localeCompare : string -> string -> Z) (l : list ProjectFile)
  : bool :=
  match l with
  | a :: ((b :: _) as r) =>
      negb (compare_files localeCompare b a <? 0)%Z && in_order localeCompare r
  | _ => true
  end.

Fixpoint sorted_deep (localeCompare : string -> string -> Z) (f : ProjectFile)
  : bool :=
  match f with
  | mkProjectFile _ _ _ _ (Some l) =>
      in_order localeCompare l && List.forallb (sorted_deep localeCompare) l
  | _ => true
  end.

Definition sum_N (l : list N) : N := fold_right N.add 0 l.

(** The regular files a listing shows, at every depth. *)
Fixpoint listed_files (f : ProjectFile) : N :=
  match f with
  | mkProjectFile _ _ TFile _ _ => 1
  | mkProjectFile _ _ TDirectory _ (Some l) => sum_N (map listed_files l)
  | mkProjectFile _ _ TDirectory _ None => 0
  end.

(** No entry below the node has a name that starts with a dot. *)
Fixpoint hidden_free (t : node) : bool :=
  match t with
  | Dir es =>
      List.forallb (fun e => negb (startsWith "." (fst e)) && hidden_free (snd e)) es
  | _ => true
  end.

Definition hidden_free_at (t : node) (p : path) : bool :=
  match lookup t p with
  | Some n => hidden_free n
  | None => true
  end.

(** An entry of a listing and the entries below it. *)
Fixpoint all_entries (f : ProjectFile) : list ProjectFile :=
  match f with
  | mkProjectFile _ _ _ _ (Some l) => f :: flat_map all_entries l
  | _ => [f]
  end.


(** The summary of the project of [listing_world]. *)
Definition listing_summary : ProjectSummary :=
  mkProjectSummary "proj_0a1b2c3d" "my-plan" "My Plan" (Some "notes") 0 3
                   1700000000000%Z 1700000000000%Z.

(** The entry [f] of a listing shows the node [n] found at the path [p]:
    it carries the path relative to the files root, and the size of a file
    or the listing of a directory. *)
Definition shows (localeCompare : string -> string -> Z) (filesRoot : path)
           (f : ProjectFile) (p : path) (n : node) : Prop :=
  pf_path f = relative filesRoot p
  /\ match n with
     | File txt => pf_type f = TFile /\ pf_size f = Some (utf8_length txt)
     | Dir _ =>
         pf_type f = TDirectory
         /\ pf_children f = Some (list_node localeCompare filesRoot p n)
     | Special => False
     end.


(** A workspace with two projects, the second created after the first. *)
Definition two_projects_world : World :=
  world_after (createProject 2 "/ws" (mkCreateProjectInput "My Plan" None None None))
              project_world.

(** An update that renames the project and passes [guidelines: undefined]. *)
Definition undefined_guidelines_update : ProjectUpdates :=
  mkProjectUpdates (Some "Renamed") Absent Undefined Absent.

(** ** [formatFileSize] of [ProjectHomePage.tsx]

    The page shows the [size] that [listProjectFiles] reports.  A file size
    is a non-negative integer below 2^53, so the quotients [bytes / 1024]
    and [bytes / (1024 * 1024)] are exact in floating point, and
    [toFixed(1)] rounds their exact value to the nearest tenth, to the
    larger one on a tie. *)

(** [(num / den).toFixed(1)] for an exact quotient of non-negative
    integers. *)
Definition toFixed1 (num den : N) : string :=
  let tenths := (20 * num + den) / (2 * den) in
  of_N (tenths / 10) ++ "." ++ of_N (tenths mod 10).

Definition formatFileSize (bytes : N) : string :=
  if bytes <? 1024 then of_N bytes ++ " B"
  else if bytes <? 1024 * 1024 then toFixed1 bytes 1024 ++ " KB"
  else toFixed1 bytes (1024 * 1024) ++ " MB".

(** * Properties *)

Unset Implicit Arguments.

#[local] Arguments Ascii.eqb : simpl never.
#[local] Arguments String.eqb : simpl never.
#[local] Arguments N.leb : simpl never.
#[local] Arguments N.ltb : simpl never.
#[local] Arguments N.eqb : simpl never.
#[local] Arguments N.add : simpl never.
#[local] Arguments N.of_nat : simpl never.

(** ** Slugs *)

Lemma forallb_take p n s :
  JsString.forallb p s = true -> JsString.forallb p (take n s) = true.
Proof.
  revert s; induction n as [|n IH]; intros [|c r]; simpl; auto.
  intros H; apply andb_true_iff in H as [Hc Hr].
  rewrite Hc; simpl; auto.
Qed.

Lemma length_take n s : (String.length (take n s) <= n)%nat.
Proof.
  revert s; induction n as [|n IH]; intros [|c r]; simpl; try lia.
  specialize (IH r); lia.
Qed.

Lemma forallb_drop_last_dash p s :
  JsString.forallb p s = true -> JsString.forallb p (drop_last_dash s) = true.
Proof.
  induction s as [|c r IH]; simpl; auto.
  intros H; apply andb_true_iff in H as [Hc Hr].
  destruct r as [|d r'].
  - destruct (Ascii.eqb c "-"); simpl; auto. now rewrite Hc.
  - change (JsString.forallb p (String c (drop_last_dash (String d r'))) = true).
    simpl JsString.forallb at 1. rewrite Hc; simpl. auto.
Qed.

Lemma forallb_strip_edge_dashes p s :
  JsString.forallb p s = true -> JsString.forallb p (strip_edge_dashes s) = true.
Proof.
  intros H. unfold strip_edge_dashes.
  destruct s as [|c r]; [exact H|].
  assert (Hr : JsString.forallb p r = true)
    by (simpl in H; apply andb_true_iff in H; tauto).
  destruct c as [[] [] [] [] [] [] [] []];
    first [ now apply forallb_drop_last_dash ].
Qed.

Lemma replace_runs_slug_chars b s :
  JsString.forallb is_slug_char (replace_non_alnum_runs b s) = true.
Proof.
  revert b; induction s as [|c r IH]; intros b; simpl; auto.
  destruct (is_lower_alnum c) eqn:E.
  - simpl. unfold is_slug_char at 1. rewrite E. simpl. apply IH.
  - destruct b; simpl; auto.
Qed.

Lemma is_lower_alnum_dash c : is_lower_alnum c = true -> Ascii.eqb c "-" = false.
Proof.
  destruct (Ascii.eqb c "-") eqn:E; auto.
  apply Ascii.eqb_eq in E; subst; vm_compute; congruence.
Qed.

Lemma replace_runs_single_dashes b s :
  single_dashes (replace_non_alnum_runs b s) = true
  /\ (b = true -> startsWith "-" (replace_non_alnum_runs b s) = false).
Proof.
  revert b; induction s as [|c r IH]; intros b.
  - simpl; split; auto.
  - simpl. destruct (is_lower_alnum c) eqn:E.
    + destruct (IH false) as [H1 _]. split.
      * simpl. rewrite (is_lower_alnum_dash _ E). simpl.
        destruct (replace_non_alnum_runs false r); auto.
      * intros _. simpl. now rewrite Ascii.eqb_sym, (is_lower_alnum_dash _ E).
    + destruct (IH true) as [H1 H2]. specialize (H2 eq_refl).
      destruct b; [split; auto|]. split; [|discriminate].
      simpl. destruct (replace_non_alnum_runs true r) as [|d r'] eqn:R; auto.
      simpl in H2. rewrite Ascii.eqb_sym in H2.
      destruct (Ascii.eqb d "-"); [discriminate|]. simpl. exact H1.
Qed.

Lemma startsWith_dash_drop_last s :
  startsWith "-" s = false -> startsWith "-" (drop_last_dash s) = false.
Proof.
  destruct s as [|c r]; simpl; auto.
  destruct r as [|d r'].
  - destruct (Ascii.eqb c "-") eqn:E; simpl; auto.
  - simpl. auto.
Qed.

Lemma startsWith_dash_take n s :
  startsWith "-" s = false -> startsWith "-" (take n s) = false.
Proof. destruct n, s; simpl; auto. Qed.

Lemma strip_edge_no_leading_dash s :
  single_dashes s = true -> startsWith "-" (strip_edge_dashes s) = false.
Proof.
  intros H. destruct s as [|c r]; [reflexivity|].
  destruct (Ascii.eqb c "-") eqn:E.
  - apply Ascii.eqb_eq in E; subst c.
    change (strip_edge_dashes (String "-" r)) with (drop_last_dash r).
    apply startsWith_dash_drop_last.
    destruct r as [|d r']; [reflexivity|].
    simpl in H. simpl. rewrite Ascii.eqb_sym.
    destruct (Ascii.eqb d "-"); [discriminate|reflexivity].
  - assert (S : strip_edge_dashes (String c r) = drop_last_dash (String c r)).
    { unfold strip_edge_dashes.
      destruct c as [[] [] [] [] [] [] [] []]; try reflexivity.
      discriminate E. }
    rewrite S. apply startsWith_dash_drop_last. simpl.
    rewrite Ascii.eqb_sym, E. reflexivity.
Qed.

Lemma lower_char_alnum c :
  is_lower_alnum (lower_char c) = true -> is_alnum c = true.
Proof. destruct c as [[] [] [] [] [] [] [] []]; vm_compute; congruence. Qed.

Lemma replace_runs_no_alnum s :
  JsString.existsb is_alnum s = false ->
  forall b, strip_edge_dashes (replace_non_alnum_runs b (toLowerCase s)) = "".
Proof.
  induction s as [|c r IH]; intros H b; [reflexivity|].
  simpl in H. apply orb_false_iff in H as [Hc Hr].
  simpl. destruct (is_lower_alnum (lower_char c)) eqn:E.
  - apply lower_char_alnum in E. congruence.
  - specialize (IH Hr true).
    assert (D : replace_non_alnum_runs true (toLowerCase r) = ""
                \/ replace_non_alnum_runs true (toLowerCase r) = "-").
    { destruct (replace_runs_single_dashes true (toLowerCase r)) as [_ S].
      specialize (S eq_refl).
      destruct (replace_non_alnum_runs true (toLowerCase r)) as [|d r']; auto.
      simpl in S. unfold strip_edge_dashes in IH.
      destruct (Ascii.eqb "-" d) eqn:F; [discriminate|].
      exfalso. clear - IH F.
      destruct d as [[] [] [] [] [] [] [] []]; try discriminate F;
        destruct r' as [|e r'']; simpl in IH; try discriminate IH;
        match type of IH with
        | (if ?c then _ else _) = _ => destruct c; discriminate IH
        end. }
    destruct b; [exact IH|].
    destruct D as [-> | ->]; reflexivity.
Qed.

(** What holds of every slug: its alphabet, its length, its first
    character, and the fallback. *)
Lemma generateSlug_shape (N : string) :
  JsString.forallb is_slug_char (generateSlug N) = true
  /\ (String.length (generateSlug N) <= 50)%nat
  /\ startsWith "-" (generateSlug N) = false
  /\ generateSlug N <> ""
  /\ (JsString.existsb is_alnum N = false -> generateSlug N = "project").
Proof.
  unfold generateSlug.
  set (body := strip_edge_dashes (replace_non_alnum_runs false (toLowerCase N))).
  assert (A : JsString.forallb is_slug_char (take 50 body) = true).
  { apply forallb_take, forallb_strip_edge_dashes, replace_runs_slug_chars. }
  assert (B : startsWith "-" (take 50 body) = false).
  { apply startsWith_dash_take, strip_edge_no_leading_dash.
    apply (replace_runs_single_dashes false). }
  pose proof (length_take 50 body) as L.
  destruct (String.eqb (take 50 body) "") eqn:E.
  - repeat split; try reflexivity; try (simpl; lia); try discriminate.
  - repeat split; auto.
    + intros F. rewrite F in E. discriminate.
    + intros H. subst body. rewrite (replace_runs_no_alnum N H false) in E.
      discriminate.
Qed.

(** Slug characters are lowercase: no slug contains a capital letter. *)
Lemma generateSlug_lowercase (N : string) :
  JsString.existsb is_upper (generateSlug N) = false.
Proof.
  destruct (generateSlug_shape N) as [H _].
  induction (generateSlug N) as [|c r IH]; [reflexivity|].
  simpl in *. apply andb_true_iff in H as [Hc Hr].
  rewrite (IH Hr), orb_false_r.
  destruct c as [[] [] [] [] [] [] [] []]; try reflexivity; discriminate Hc.
Qed.

(** C3 (the defect): the slug is cut to 50 characters after the dashes at
    its ends were stripped, so a dash that lands on position 50 stays.  For
    the name made of 49 letters [a], a space and a [b], the slug is 49
    letters [a] followed by a dash. *)
Theorem generateSlug_trailing_dash :
  generateSlug (JsString.repeat "a" 49 ++ " b") = JsString.repeat "a" 49 ++ "-"
  /\ endsWith_char "-" (generateSlug (JsString.repeat "a" 49 ++ " b")) = true.
Proof. split; vm_compute; reflexivity. Qed.

(** ** Paths *)

Lemma segments_no_slash s :
  JsString.forallb (fun c => negb (Ascii.eqb c "/")) s = true ->
  segments s = [s].
Proof.
  induction s as [|c r IH]; [reflexivity|].
  simpl. intros H. apply andb_true_iff in H as [Hc Hr].
  destruct (Ascii.eqb c "/"); [discriminate|].
  now rewrite (IH Hr).
Qed.

Lemma join_valid base s :
  valid_segment s = true -> join base s = (base ++ [s])%list.
Proof.
  unfold valid_segment, join. intros H.
  apply andb_true_iff in H as [H H4].
  apply andb_true_iff in H as [H H3].
  apply andb_true_iff in H as [H1 H2].
  rewrite (segments_no_slash _ H4). simpl. unfold step_segment.
  destruct (String.eqb s ""); [discriminate|].
  destruct (String.eqb s "."); [discriminate|].
  destruct (String.eqb s ".."); [discriminate|reflexivity].
Qed.

Lemma forallb_append p a b :
  JsString.forallb p (a ++ b) = JsString.forallb p a && JsString.forallb p b.
Proof.
  induction a as [|c r IH]; simpl; auto. now rewrite IH, andb_assoc.
Qed.

Lemma slug_char_not_special c :
  is_slug_char c = true ->
  negb (Ascii.eqb c "/") = true /\ Ascii.eqb c "." = false.
Proof. destruct c as [[] [] [] [] [] [] [] []]; vm_compute; auto; discriminate. Qed.

Lemma slug_chars_valid s :
  JsString.forallb is_slug_char s = true -> s <> "" -> valid_segment s = true.
Proof.
  intros H Hne. unfold valid_segment.
  assert (Hs : JsString.forallb (fun c => negb (Ascii.eqb c "/")) s = true).
  { clear Hne. induction s as [|c r IH]; [reflexivity|].
    simpl in *. apply andb_true_iff in H as [Hc Hr].
    rewrite (IH Hr), andb_true_r. now apply slug_char_not_special. }
  rewrite Hs, andb_true_r.
  assert (Hdot : forall r, String.eqb s (String "." r) = false).
  { intros r. destruct s as [|c s']; [reflexivity|].
    simpl in H. apply andb_true_iff in H as [Hc _].
    apply slug_char_not_special in Hc as [_ Hc].
    apply String.eqb_neq. intros [= -> _]. discriminate Hc. }
  rewrite (Hdot ""), (Hdot "."). simpl.
  destruct s; [congruence|reflexivity].
Qed.

Lemma uint_digits_slug d :
  JsString.forallb is_slug_char (NilEmpty.string_of_uint d) = true.
Proof. induction d; simpl; auto. Qed.

Lemma of_N_slug_chars n : JsString.forallb is_slug_char (of_N n) = true.
Proof. apply uint_digits_slug. Qed.

Lemma of_N_inj a b : of_N a = of_N b -> a = b.
Proof.
  unfold of_N. intros H.
  apply (f_equal NilEmpty.uint_of_string) in H.
  rewrite !NilEmpty.usu in H. injection H as H.
  apply (f_equal N.of_uint) in H.
  now rewrite !DecimalN.Unsigned.of_to in H.
Qed.

Lemma append_inj_r (a b c : string) : a ++ b = a ++ c -> b = c.
Proof. induction a as [|x a IH]; simpl; auto. intros [= H]. auto. Qed.

(** The candidates [slug-2], [slug-3], ... are names of single entries. *)
Lemma candidate_valid slug k :
  JsString.forallb is_slug_char slug = true ->
  valid_segment (slug ++ "-" ++ of_N k) = true.
Proof.
  intros H. apply slug_chars_valid.
  - rewrite !forallb_append, H, of_N_slug_chars. reflexivity.
  - destruct slug; simpl; discriminate.
Qed.

Lemma generateSlug_valid name : valid_segment (generateSlug name) = true.
Proof.
  destruct (generateSlug_shape name) as (H1 & _ & _ & H4 & _).
  now apply slug_chars_valid.
Qed.

(** ** Looking up paths *)

Lemma lookup_app t p q :
  lookup t (p ++ q)%list = match lookup t p with
                      | Some s => lookup s q
                      | None => None
                      end.
Proof.
  revert t; induction p as [|n p IH]; intros t; simpl; [reflexivity|].
  destruct t as [c|es|]; auto.
  destruct (Entries.find n es); auto.
Qed.

Lemma lookup_child t p n :
  lookup t (p ++ [n])%list = match lookup t p with
                        | Some (Dir es) => Entries.find n es
                        | _ => None
                        end.
Proof.
  rewrite lookup_app. destruct (lookup t p) as [[c|es|]|]; simpl; auto.
  destruct (Entries.find n es); auto.
Qed.

Lemma find_In n es c :
  Entries.find n es = Some c -> In n (map fst es).
Proof.
  induction es as [|[k c0] r IH]; simpl; [discriminate|].
  destruct (String.eqb k n) eqn:E.
  - apply String.eqb_eq in E. auto.
  - auto.
Qed.

(** ** Unique slugs *)

Lemma distinct_names_bound (f : nat -> string) es n :
  (forall i j, f i = f j -> i = j) ->
  (forall i, (i < n)%nat -> Entries.find (f i) es <> None) ->
  (n <= List.length es)%nat.
Proof.
  intros Hinj Hin.
  assert (L : List.length (map f (seq 0 n)) = n)
    by now rewrite length_map, length_seq.
  rewrite <- L, <- (length_map fst es).
  apply NoDup_incl_length.
  - apply Injective_map_NoDup; [exact Hinj | apply seq_NoDup].
  - intros x Hx. apply in_map_iff in Hx as (i & <- & Hi).
    apply in_seq in Hi. specialize (Hin i ltac:(lia)).
    destruct (Entries.find (f i) es) eqn:E; [|congruence].
    eapply find_In; eauto.
Qed.

Section Probe.
Variables (slug : string) (projectsDir : path) (w : World).
Variable es : list (string * node).
Hypothesis Hslug : JsString.forallb is_slug_char slug = true.
Hypothesis Hdir : lookup (fs w) projectsDir = Some (Dir es).

Local Abbreviation candidate k := (slug ++ "-" ++ of_N k).

Lemma candidate_inj i j :
  candidate (2 + N.of_nat i) = candidate (2 + N.of_nat j) -> i = j.
Proof.
  intros H.
  apply append_inj_r in H. apply (append_inj_r "-") in H.
  apply of_N_inj in H. lia.
Qed.

Lemma lookup_candidate k :
  lookup (fs w) (join projectsDir (candidate k)) = Entries.find (candidate k) es.
Proof.
  rewrite join_valid by now apply candidate_valid.
  now rewrite lookup_child, Hdir.
Qed.

(** The loop stops at the first counter whose candidate is free, and it
    does so within as many rounds as the directory has entries. *)
Lemma probe_counter_first_free fuel :
  forall i,
    (forall j, (j < i)%nat -> Entries.find (candidate (2 + N.of_nat j)) es <> None) ->
    (List.length es < fuel + i)%nat ->
    exists i',
      probe_counter fuel slug projectsDir (2 + N.of_nat i) w
      = (w, Ret (2 + N.of_nat i'))
      /\ Entries.find (candidate (2 + N.of_nat i')) es = None
      /\ (forall j, (j < i')%nat ->
                    Entries.find (candidate (2 + N.of_nat j)) es <> None).
Proof.
  induction fuel as [|fuel IH]; intros i Hbelow Hlen.
  - exfalso.
    pose proof (distinct_names_bound
                  (fun j => candidate (2 + N.of_nat j)) es i
                  candidate_inj Hbelow).
    lia.
  - cbn [probe_counter]. unfold bind, existsSync.
    rewrite lookup_candidate.
    destruct (Entries.find (candidate (2 + N.of_nat i)) es) eqn:E.
    + replace (2 + N.of_nat i + 1) with (2 + N.of_nat (S i)) by lia.
      apply IH; [|lia].
      intros j Hj. destruct (Nat.eq_dec j i) as [->|]; [congruence|].
      apply Hbelow. lia.
    + exists i. auto.
Qed.
End Probe.

(** C4: the slug handed out names no existing entry of the projects
    directory; with [x] and [x-2] taken and [x-3] free it is [x-3]. *)
Theorem generateUniqueProjectSlug_fresh fuel name projectsDir w :
  (dir_size (fs w) projectsDir < fuel)%nat ->
  exists s,
    generateUniqueProjectSlug fuel name projectsDir w = (w, Ret s)
    /\ lookup (fs w) (join projectsDir s) = None
    /\ (generateSlug name = "x" ->
        lookup (fs w) (join projectsDir "x") <> None ->
        lookup (fs w) (join projectsDir "x-2") <> None ->
        lookup (fs w) (join projectsDir "x-3") = None ->
        s = "x-3").
Proof.
  intros Hfuel.
  destruct (generateSlug_shape name) as (Hchars & _ & _ & Hne & _).
  pose proof (generateSlug_valid name) as Hvalid.
  unfold generateUniqueProjectSlug, bind, existsSync.
  destruct (lookup (fs w) (join projectsDir (generateSlug name))) as [hit|] eqn:E;
    simpl.
  2:{ exists (generateSlug name). repeat split; auto.
      intros Hx H1 _ _. rewrite Hx in E. congruence. }
  rewrite join_valid, lookup_child in E by assumption.
  destruct (lookup (fs w) projectsDir) as [[c|es|]|] eqn:D; try discriminate.
  unfold dir_size in Hfuel. rewrite D in Hfuel.
  destruct (probe_counter_first_free _ _ _ _ Hchars D fuel 0%nat)
    as (i' & Hrun & Hfree & Hbelow).
  { intros j Hj. lia. }
  { lia. }
  change (2 + N.of_nat 0) with 2 in Hrun. rewrite Hrun.
  exists (generateSlug name ++ "-" ++ of_N (2 + N.of_nat i')).
  split; [reflexivity|]. split.
  - rewrite (lookup_candidate _ _ _ _ Hchars D). exact Hfree.
  - intros Hx _ H2 H3. rewrite Hx in *.
    pose proof (lookup_candidate _ _ _ _ Hchars D 2) as L2.
    pose proof (lookup_candidate _ _ _ _ Hchars D 3) as L3.
    change ("x" ++ "-" ++ of_N 2) with "x-2" in L2.
    change ("x" ++ "-" ++ of_N 3) with "x-3" in L3.
    rewrite L2 in H2. rewrite L3 in H3.
    destruct i' as [|[|i'']].
    + exfalso. apply H2. exact Hfree.
    + reflexivity.
    + exfalso. apply (Hbelow 1%nat); [lia|]. exact H3.
Qed.

Lemma generateUniqueProjectSlug_fresh_witness :
  generateUniqueProjectSlug 3 "X" ["projects"] unique_slug_world
  = (unique_slug_world, Ret "x-3").
Proof.
  destruct (generateUniqueProjectSlug_fresh 3 "X" ["projects"] unique_slug_world)
    as (s & Hrun & _ & Hx).
  - vm_compute. lia.
  - rewrite Hrun.
    rewrite (Hx eq_refl); [reflexivity| | |]; vm_compute; congruence.
Defined.

(** ** Directory entries *)

Lemma find_set_same n c es : Entries.find n (Entries.set n c es) = Some c.
Proof.
  induction es as [|[k c0] r IH]; simpl.
  - now rewrite String.eqb_refl.
  - destruct (String.eqb k n) eqn:E; simpl.
    + now rewrite String.eqb_refl.
    + now rewrite E.
Qed.

Lemma find_set_other k n c es :
  k <> n -> Entries.find k (Entries.set n c es) = Entries.find k es.
Proof.
  intros Hne. induction es as [|[k0 c0] r IH]; simpl.
  - destruct (String.eqb n k) eqn:E; auto.
    apply String.eqb_eq in E. congruence.
  - destruct (String.eqb k0 n) eqn:E; simpl.
    + apply String.eqb_eq in E. subst k0.
      destruct (String.eqb n k) eqn:F; auto.
      apply String.eqb_eq in F. congruence.
    + now rewrite IH.
Qed.

Lemma find_remove_same n es : Entries.find n (Entries.remove n es) = None.
Proof.
  induction es as [|[k c0] r IH]; simpl; auto.
  destruct (String.eqb k n) eqn:E; simpl; auto. now rewrite E.
Qed.

Lemma find_remove_other k n es :
  k <> n -> Entries.find k (Entries.remove n es) = Entries.find k es.
Proof.
  intros Hne. induction es as [|[k0 c0] r IH]; simpl; auto.
  destruct (String.eqb k0 n) eqn:E; simpl.
  - apply String.eqb_eq in E. subst k0.
    destruct (String.eqb n k) eqn:F; auto.
    apply String.eqb_eq in F. congruence.
  - now rewrite IH.
Qed.

Lemma set_absent n c es :
  Entries.find n es = None -> Entries.set n c es = (es ++ [(n, c)])%list.
Proof.
  induction es as [|[k c0] r IH]; simpl; auto.
  destruct (String.eqb k n); [discriminate|].
  intros H. now rewrite IH.
Qed.

(** ** Prefixes *)

Lemma is_prefix_refl p : is_prefix p p = true.
Proof. induction p; simpl; auto. now rewrite String.eqb_refl. Qed.

Lemma is_prefix_app p q : is_prefix p (p ++ q)%list = true.
Proof. induction p; simpl; auto. now rewrite String.eqb_refl. Qed.

Lemma is_prefix_spec p q :
  is_prefix p q = true <-> exists r, q = (p ++ r)%list.
Proof.
  split.
  - revert q; induction p as [|a p IH]; intros q H.
    + now exists q.
    + destruct q as [|b q]; [discriminate|]. simpl in H.
      apply andb_true_iff in H as [E H]. apply String.eqb_eq in E. subst b.
      destruct (IH _ H) as [r ->]. now exists r.
  - intros [r ->]. apply is_prefix_app.
Qed.

Lemma is_prefix_trans p q r :
  is_prefix p q = true -> is_prefix q r = true -> is_prefix p r = true.
Proof.
  rewrite !is_prefix_spec. intros [a ->] [b ->].
  exists (a ++ b)%list. now rewrite List.app_assoc.
Qed.


(** A path that exists has all its prefixes, and they are directories. *)
Lemma lookup_prefix_dir t p q x :
  lookup t (p ++ q)%list = Some x -> q <> [] -> dir_at t p.
Proof.
  rewrite lookup_app. intros H Hq.
  destruct (lookup t p) as [[c|es|]|] eqn:E; try discriminate.
  - destruct q; [congruence|discriminate].
  - now exists es.
  - destruct q; [congruence|discriminate].
Qed.


(** ** Changing the entry at a path *)

Lemma alter_cons f n m p es :
  alter f (n :: m :: p) (Dir es)
  = match Entries.find n es with
    | Some c =>
        match alter f (m :: p) c with
        | Some c' => Some (Dir (Entries.set n c' es))
        | None => None
        end
    | None => None
    end.
Proof. reflexivity. Qed.

Lemma alter_one f n es :
  alter f [n] (Dir es)
  = match f (Entries.find n es) with
    | Some (Some c) => Some (Dir (Entries.set n c es))
    | Some None => Some (Dir (Entries.remove n es))
    | None => None
    end.
Proof. reflexivity. Qed.

(** The entry at the path after a change is what the change made of the
    entry that was there. *)
Lemma lookup_alter_same f p t t' :
  alter f p t = Some t' -> f (lookup t p) = Some (lookup t' p).
Proof.
  revert t t'; induction p as [|n p IH]; intros t t' H; [discriminate|].
  destruct t as [c|es|]; try discriminate.
  destruct p as [|m p].
  - rewrite alter_one in H. simpl.
    destruct (Entries.find n es) as [c|] eqn:E;
      destruct (f _) as [[c'|]|] eqn:F; try discriminate;
      injection H as <-; simpl;
      rewrite ?find_set_same, ?find_remove_same; reflexivity.
  - rewrite alter_cons in H.
    destruct (Entries.find n es) as [c|] eqn:E; [|discriminate].
    destruct (alter f (m :: p) c) as [c'|] eqn:A; [|discriminate].
    injection H as <-.
    change (lookup (Dir es) (n :: m :: p)) with
      (match Entries.find n es with Some c => lookup c (m :: p) | None => None end).
    change (lookup (Dir (Entries.set n c' es)) (n :: m :: p)) with
      (match Entries.find n (Entries.set n c' es) with
       | Some c => lookup c (m :: p) | None => None end).
    rewrite E, find_set_same. now apply IH.
Qed.

(** Paths beside the changed one keep their entries. *)
Lemma lookup_alter_frame f p t t' q :
  alter f p t = Some t' ->
  is_prefix p q = false -> is_prefix q p = false ->
  lookup t' q = lookup t q.
Proof.
  revert t t' q; induction p as [|n p IH]; intros t t' q H Hpq Hqp;
    [discriminate|].
  destruct q as [|k q]; [discriminate|].
  destruct t as [c|es|]; try discriminate.
  simpl in Hpq, Hqp.
  destruct (String.eqb n k) eqn:E.
  - apply String.eqb_eq in E. subst k. rewrite String.eqb_refl in Hqp.
    simpl in Hpq, Hqp.
    destruct p as [|m p]; [discriminate|].
    rewrite alter_cons in H.
    destruct (Entries.find n es) as [c|] eqn:F; [|discriminate].
    destruct (alter f (m :: p) c) as [c'|] eqn:A; [|discriminate].
    injection H as <-. simpl. rewrite F, find_set_same. eauto.
  - assert (Hne : k <> n).
    { intros ->. rewrite String.eqb_refl in E. discriminate. }
    destruct p as [|m p].
    + rewrite alter_one in H.
      destruct (f _) as [[c'|]|]; try discriminate; injection H as <-; simpl;
        now rewrite ?find_set_other, ?find_remove_other by assumption.
    + rewrite alter_cons in H.
      destruct (Entries.find n es) as [c|] eqn:F; [|discriminate].
      destruct (alter f (m :: p) c) as [c'|] eqn:A; [|discriminate].
      injection H as <-. simpl. now rewrite find_set_other by assumption.
Qed.

(** A change goes through exactly when the parent is a directory and the
    change accepts the entry. *)
Lemma alter_succeeds f d n t es r :
  lookup t d = Some (Dir es) ->
  f (Entries.find n es) = Some r ->
  exists t', alter f (d ++ [n])%list t = Some t'.
Proof.
  revert t; induction d as [|k d IH]; intros t Hd Hf.
  - simpl in Hd. injection Hd as ->. simpl app. rewrite alter_one, Hf.
    destruct r; eauto.
  - destruct t as [c|es0|]; try discriminate. simpl in Hd.
    destruct (Entries.find k es0) as [c|] eqn:E; [|discriminate].
    destruct (IH c Hd Hf) as [c' Hc'].
    destruct (d ++ [n])%list as [|m p] eqn:D.
    + destruct d; discriminate.
    + change ((k :: d) ++ [n])%list with (k :: (d ++ [n]))%list.
      rewrite D, alter_cons, E, Hc'. eauto.
Qed.

Lemma alter_parent_dir f p t t' :
  alter f p t = Some t' -> p <> [] /\ dir_at t (removelast p).
Proof.
  revert t t'; induction p as [|n p IH]; intros t t' H; [discriminate|].
  split; [discriminate|].
  destruct t as [c|es|]; try discriminate.
  destruct p as [|m p].
  - now exists es.
  - rewrite alter_cons in H.
    destruct (Entries.find n es) as [c|] eqn:E; [|discriminate].
    destruct (alter f (m :: p) c) as [c'|] eqn:A; [|discriminate].
    destruct (IH _ _ A) as [_ [es' He]].
    exists es'. change (removelast (n :: m :: p)) with (n :: removelast (m :: p)).
    simpl. now rewrite E.
Qed.

(** Directories survive every change that does not touch them or one of
    their ancestors. *)
Lemma dir_at_alter f p t t' q :
  alter f p t = Some t' -> is_prefix p q = false -> dir_at t q -> dir_at t' q.
Proof.
  revert t t' q; induction p as [|n p IH]; intros t t' q H Hpq [es0 Hq];
    [discriminate|].
  destruct t as [c|es|]; try discriminate.
  destruct q as [|k q].
  - destruct p as [|m p].
    + rewrite alter_one in H.
      destruct (f _) as [[c'|]|]; try discriminate; injection H as <-;
        eexists; reflexivity.
    + rewrite alter_cons in H.
      destruct (Entries.find n es) as [c|]; [|discriminate].
      destruct (alter f (m :: p) c) as [c'|]; [|discriminate].
      injection H as <-. eexists; reflexivity.
  - simpl in Hpq, Hq.
    destruct (String.eqb n k) eqn:E.
    + apply String.eqb_eq in E. subst k. simpl in Hpq.
      destruct p as [|m p]; [discriminate|].
      rewrite alter_cons in H.
      destruct (Entries.find n es) as [c|] eqn:F; [|discriminate].
      destruct (alter f (m :: p) c) as [c'|] eqn:A; [|discriminate].
      injection H as <-.
      destruct (IH _ _ q A Hpq (ex_intro _ es0 Hq)) as [es' He].
      exists es'. simpl. now rewrite find_set_same.
    + assert (Hne : k <> n).
      { intros ->. rewrite String.eqb_refl in E. discriminate. }
      exists es0. rewrite <- Hq.
      destruct p as [|m p].
      * rewrite alter_one in H.
        destruct (f _) as [[c'|]|]; try discriminate; injection H as <-; simpl;
          now rewrite ?find_set_other, ?find_remove_other by assumption.
      * rewrite alter_cons in H.
        destruct (Entries.find n es) as [c|] eqn:F; [|discriminate].
        destruct (alter f (m :: p) c) as [c'|] eqn:A; [|discriminate].
        injection H as <-. simpl. now rewrite find_set_other by assumption.
Qed.

(** ** Creating directories *)

Lemma set_same n c es : Entries.find n es = Some c -> Entries.set n c es = es.
Proof.
  induction es as [|[k c0] r IH]; simpl; [discriminate|].
  destruct (String.eqb k n) eqn:E.
  - apply String.eqb_eq in E. now intros [= ->]; subst.
  - intros H. now rewrite IH.
Qed.

Lemma set_set n a b es :
  Entries.set n a (Entries.set n b es) = Entries.set n a es.
Proof.
  induction es as [|[k c0] r IH]; simpl.
  - now rewrite String.eqb_refl.
  - destruct (String.eqb k n) eqn:E; simpl.
    + now rewrite String.eqb_refl.
    + now rewrite E, IH.
Qed.

Lemma mkdir_p_nil t : mkdir_p [] t = if is_dir t then Some t else None.
Proof. destruct t; reflexivity. Qed.

Lemma mkdir_p_cons n p es :
  mkdir_p (n :: p) (Dir es)
  = match mkdir_p p (match Entries.find n es with
                     | Some c => c
                     | None => Dir []
                     end) with
    | Some c' => Some (Dir (Entries.set n c' es))
    | None => None
    end.
Proof. reflexivity. Qed.

Lemma mkdir_p_is_dir p t t' : mkdir_p p t = Some t' -> is_dir t = true.
Proof. destruct t, p; simpl; congruence. Qed.

Lemma mkdir_p_dir_at p t t' : mkdir_p p t = Some t' -> dir_at t' p.
Proof.
  revert t t'; induction p as [|n p IH]; intros t t' H.
  - destruct t; try discriminate. injection H as <-. eexists; reflexivity.
  - destruct t as [c|es|]; try discriminate. rewrite mkdir_p_cons in H.
    destruct (mkdir_p p _) as [c'|] eqn:E; [|discriminate].
    injection H as <-. destruct (IH _ _ E) as [es' He].
    exists es'. simpl. now rewrite find_set_same.
Qed.

Lemma mkdir_p_existing p t es : lookup t p = Some (Dir es) -> mkdir_p p t = Some t.
Proof.
  revert t; induction p as [|n p IH]; intros t H.
  - simpl in H. injection H as ->. reflexivity.
  - destruct t as [c|es0|]; try discriminate. simpl in H.
    destruct (Entries.find n es0) as [c|] eqn:E; [|discriminate].
    rewrite mkdir_p_cons, E, (IH _ H). now rewrite set_same.
Qed.

Lemma mkdir_p_empty p : exists t', mkdir_p p (Dir []) = Some t'.
Proof.
  induction p as [|n p [t' IH]]; [eexists; reflexivity|].
  rewrite mkdir_p_cons. simpl. rewrite IH. eauto.
Qed.

(** Only the prefixes of the created path change. *)
Lemma mkdir_p_frame p t t' q :
  mkdir_p p t = Some t' -> is_prefix q p = false -> lookup t' q = lookup t q.
Proof.
  revert t t' q; induction p as [|n p IH]; intros t t' q H Hq.
  - destruct t; try discriminate. now injection H as <-.
  - destruct t as [c|es|]; try discriminate. rewrite mkdir_p_cons in H.
    destruct (mkdir_p p _) as [c'|] eqn:E; [|discriminate].
    injection H as <-.
    destruct q as [|k q]; [discriminate|]. simpl in Hq. simpl.
    destruct (String.eqb k n) eqn:F.
    + apply String.eqb_eq in F. subst k. simpl in Hq.
      rewrite find_set_same, (IH _ _ _ E Hq).
      destruct (Entries.find n es); [reflexivity|].
      destruct q; [discriminate|reflexivity].
    + rewrite find_set_other; [reflexivity|].
      intros ->. rewrite String.eqb_refl in F. discriminate.
Qed.

Lemma mkdir_p_fresh p t t' :
  mkdir_p p t = Some t' -> lookup t p = None -> lookup t' p = Some (Dir []).
Proof.
  revert t t'; induction p as [|n p IH]; intros t t' H Hn; [discriminate|].
  destruct t as [c|es|]; try discriminate. rewrite mkdir_p_cons in H.
  destruct (mkdir_p p _) as [c'|] eqn:E; [|discriminate].
  injection H as <-. simpl. rewrite find_set_same. simpl in Hn.
  destruct (Entries.find n es) as [c|].
  - eauto.
  - clear Hn IH. revert c' E. induction p as [|m p IHp]; intros c' E.
    + now injection E as <-.
    + rewrite mkdir_p_cons in E. simpl in E.
      destruct (mkdir_p p (Dir [])) as [c''|] eqn:G; [|discriminate].
      injection E as <-. simpl. rewrite String.eqb_refl. eauto.
Qed.

Lemma dir_at_mkdir_p p t t' q :
  mkdir_p p t = Some t' -> dir_at t q -> dir_at t' q.
Proof.
  intros H Hq. destruct (is_prefix q p) eqn:E.
  - apply is_prefix_spec in E as [r ->].
    destruct (mkdir_p_dir_at _ _ _ H) as [es He].
    destruct r as [|k r].
    + rewrite List.app_nil_r in He. now exists es.
    + eapply lookup_prefix_dir; [exact He|discriminate].
  - destruct Hq as [es He]. exists es. now rewrite (mkdir_p_frame _ _ _ _ H E).
Qed.

(** ** Grafting: operations below a known directory *)

Lemma lookup_graft_under p s t q :
  lookup t p <> None -> lookup (graft p s t) (p ++ q)%list = lookup s q.
Proof.
  revert t; induction p as [|n p IH]; intros t H; [reflexivity|].
  destruct t as [c|es|]; try (simpl in H; congruence).
  simpl in H. simpl graft.
  destruct (Entries.find n es) as [c|] eqn:E; [|congruence].
  simpl. rewrite find_set_same. now apply IH.
Qed.

Lemma lookup_graft_same p s t :
  lookup t p <> None -> lookup (graft p s t) p = Some s.
Proof.
  intros H. rewrite <- (List.app_nil_r p) at 2. now rewrite lookup_graft_under.
Qed.

Lemma graft_graft p a b t : graft p a (graft p b t) = graft p a t.
Proof.
  revert t; induction p as [|n p IH]; intros t; [reflexivity|].
  destruct t as [c|es|]; try reflexivity. simpl.
  destruct (Entries.find n es) as [c|] eqn:E.
  - simpl. now rewrite find_set_same, IH, set_set.
  - simpl. now rewrite E.
Qed.

Lemma graft_child p n x t es c :
  lookup t p = Some (Dir es) -> Entries.find n es = Some c ->
  graft (p ++ [n])%list x t = graft p (Dir (Entries.set n x es)) t.
Proof.
  revert t; induction p as [|k p IH]; intros t H E.
  - simpl in H. injection H as ->. simpl. now rewrite E.
  - destruct t as [c0|es0|]; try discriminate. simpl in H. simpl.
    destruct (Entries.find k es0) as [c0|] eqn:F; [|discriminate].
    now rewrite (IH _ H E).
Qed.

Lemma lookup_graft_frame p s t q :
  is_prefix p q = false -> is_prefix q p = false ->
  lookup (graft p s t) q = lookup t q.
Proof.
  revert t q; induction p as [|n p IH]; intros t q Hpq Hqp; [discriminate|].
  destruct q as [|k q]; [discriminate|].
  destruct t as [c|es|]; try reflexivity. simpl in *.
  destruct (Entries.find n es) as [c|] eqn:E; [|reflexivity].
  destruct (String.eqb n k) eqn:F.
  - apply String.eqb_eq in F. subst k. rewrite String.eqb_refl in Hqp.
    simpl in *. rewrite find_set_same, E. now apply IH.
  - simpl. rewrite find_set_other; [reflexivity|].
    intros ->. rewrite String.eqb_refl in F. discriminate.
Qed.

Lemma mkdir_p_graft p q t s :
  lookup t p = Some s ->
  mkdir_p (p ++ q)%list t = option_map (fun s' => graft p s' t) (mkdir_p q s).
Proof.
  revert t; induction p as [|n p IH]; intros t H.
  - simpl in H. injection H as ->. simpl. now destruct (mkdir_p q s).
  - destruct t as [c|es|]; try discriminate. simpl in H.
    destruct (Entries.find n es) as [c|] eqn:E; [|discriminate].
    change ((n :: p) ++ q)%list with (n :: (p ++ q))%list.
    rewrite mkdir_p_cons, E, (IH _ H). simpl. rewrite E.
    now destruct (mkdir_p q s).
Qed.

Lemma alter_graft f p q t s :
  lookup t p = Some s -> q <> [] ->
  alter f (p ++ q)%list t = option_map (fun s' => graft p s' t) (alter f q s).
Proof.
  revert t; induction p as [|n p IH]; intros t H Hq.
  - simpl in H. injection H as ->. simpl. now destruct (alter f q s).
  - destruct t as [c|es|]; try discriminate. simpl in H.
    destruct (Entries.find n es) as [c|] eqn:E; [|discriminate].
    change ((n :: p) ++ q)%list with (n :: (p ++ q))%list.
    destruct (p ++ q)%list as [|m r] eqn:D.
    + destruct p, q; try discriminate; congruence.
    + rewrite alter_cons, E, (IH _ H Hq). simpl. rewrite E.
      now destruct (alter f q s).
Qed.

(** ** Running the monad *)

#[local] Arguments join : simpl never.

Lemma bind_run {A B} (m : M A) (k : A -> M B) w w' a :
  m w = (w', Ret a) -> bind m k w = k a w'.
Proof. unfold bind. now intros ->. Qed.


Lemma bind_diverge {A B} (m : M A) (k : A -> M B) w w' :
  m w = (w', Diverge) -> bind m k w = (w', Diverge).
Proof. unfold bind. now intros ->. Qed.

Lemma existsSync_run p w : existsSync p w = (w, Ret (exists_at (fs w) p)).
Proof. reflexivity. Qed.



Ltac run_with H := rewrite (bind_run _ _ _ _ _ H).

(** ** Choosing the slug *)

Lemma generateUniqueProjectSlug_spec fuel name projectsDir w es :
  lookup (fs w) projectsDir = Some (Dir es) ->
  (List.length es < fuel)%nat ->
  exists s,
    generateUniqueProjectSlug fuel name projectsDir w = (w, Ret s)
    /\ slug_choice es name s.
Proof.
  intros D Hfuel.
  destruct (generateSlug_shape name) as (Hchars & _ & _ & Hne & _).
  pose proof (generateSlug_valid name) as Hvalid.
  unfold generateUniqueProjectSlug, bind, existsSync.
  rewrite join_valid, lookup_child, D by assumption.
  destruct (Entries.find (generateSlug name) es) as [hit|] eqn:E; simpl.
  - destruct (probe_counter_first_free _ _ _ _ Hchars D fuel 0%nat)
      as (i' & Hrun & Hfree & Hbelow); [intros j Hj; lia | lia |].
    change (2 + N.of_nat 0) with 2 in Hrun. rewrite Hrun.
    eexists. split; [reflexivity|]. repeat split.
    + exact Hfree.
    + now apply candidate_valid.
    + right. split; [congruence|]. exists i'. auto.
  - exists (generateSlug name). unfold slug_choice. auto 6.
Qed.

(** ** Creating a project *)

Lemma mkdir_p_present p t t' n :
  mkdir_p p t = Some t' -> lookup t p = Some n -> t' = t.
Proof.
  revert t t' n; induction p as [|k p IH]; intros t t' n H Hn.
  - destruct t; try discriminate. now injection H as <-.
  - destruct t as [c|es|]; try discriminate. rewrite mkdir_p_cons in H.
    simpl in Hn. destruct (Entries.find k es) as [c|] eqn:E; [|discriminate].
    destruct (mkdir_p p c) as [c'|] eqn:M; [|discriminate].
    injection H as <-. rewrite (IH _ _ _ M Hn). now rewrite set_same.
Qed.

Lemma createProject_spec fuel root input w t1 es :
  mkdir_p (getWorkspaceProjectsPath root) (fs w) = Some t1 ->
  lookup t1 (getWorkspaceProjectsPath root) = Some (Dir es) ->
  (List.length es < fuel)%nat ->
  exists s,
    slug_choice es (input_name input) s
    /\ createProject fuel root input w
       = (mkWorld (graft (getWorkspaceProjectsPath root)
                         (Dir (es ++ [(s, project_folder (created_config input s w))]))
                         t1)
                  (clock w) (S (ticks w)) (entropy w) (S (draws w)),
          Ret (created_config input s w)).
Proof.
  intros Hmk HP Hfuel. destruct w as [t0 clk tk ent dr]. simpl in Hmk.
  set (P := getWorkspaceProjectsPath root) in *.
  rename t1 into t.
  set (w0 := mkWorld t0 clk (S tk) ent dr).
  set (w1 := mkWorld t clk (S tk) ent dr).
  destruct (generateUniqueProjectSlug_spec fuel (input_name input) P w1 es HP Hfuel)
    as (s & Hgen & Hchoice).
  exists s. split; [exact Hchoice|].
  destruct Hchoice as (Hfree & Hvalid & _).
  unfold createProject. fold P.
  run_with (eq_refl : Date_now (mkWorld t0 clk tk ent dr) = (w0, Ret (clk tk))).
  rewrite (bind_run _ _ _ _ _ (existsSync_run P w0)).
  assert (S2 : (if negb (exists_at (fs w0) P) then mkdirSync_recursive P else ret tt) w0
               = (w1, Ret tt)).
  { unfold exists_at, w0, w1. cbn [fs].
    destruct (lookup t0 P) as [n|] eqn:L; cbn [negb].
    - unfold ret. now rewrite (mkdir_p_present _ _ _ _ Hmk L).
    - unfold mkdirSync_recursive, update_fs. cbn [fs]. now rewrite Hmk. }
  run_with S2.
  run_with Hgen.
  set (w2 := mkWorld t clk (S tk) ent (S dr)).
  run_with (eq_refl : randomUUID w1 = (w2, Ret (uuid_string (ent dr)))).
  rewrite (join_valid P s Hvalid).
  rewrite !(join_valid (P ++ [s])%list) by reflexivity.
  unfold created_config. cbn [entropy draws clock ticks fs].
  set (c := mkProjectConfig _ _ _ _ _ _ _ _).
  (* the project folder *)
  set (es1 := Entries.set s (Dir []) es).
  set (t2 := graft P (Dir es1) t).
  assert (S5 : mkdirSync_recursive (P ++ [s])%list w2 = (with_fs w2 t2, Ret tt)).
  { unfold mkdirSync_recursive, update_fs. simpl fs.
    rewrite (mkdir_p_graft P [s] t (Dir es) HP), mkdir_p_cons, Hfree.
    reflexivity. }
  run_with S5.
  assert (H2 : lookup t2 (P ++ [s])%list = Some (Dir [])).
  { unfold t2. rewrite lookup_graft_under by congruence.
    simpl. unfold es1. now rewrite find_set_same. }
  (* files/ *)
  set (t3 := graft (P ++ [s])%list (Dir [("files", Dir [])]) t2).
  assert (S6 : mkdirSync_recursive ((P ++ [s]) ++ ["files"])%list (with_fs w2 t2)
               = (with_fs w2 t3, Ret tt)).
  { unfold mkdirSync_recursive, update_fs. simpl fs.
    now rewrite (mkdir_p_graft _ ["files"] t2 _ H2). }
  run_with S6.
  assert (H3 : lookup t3 (P ++ [s])%list = Some (Dir [("files", Dir [])])).
  { unfold t3. apply lookup_graft_same. congruence. }
  (* config.json *)
  set (X4 := Dir [("files", Dir []); ("config.json", File (ConfigJson.stringify c))]).
  set (t4 := graft (P ++ [s])%list X4 t2).
  assert (S7 : writeFileSync ((P ++ [s]) ++ ["config.json"])%list
                             (ConfigJson.stringify c) (with_fs w2 t3)
               = (with_fs w2 t4, Ret tt)).
  { unfold writeFileSync, update_fs. simpl fs.
    rewrite (alter_graft (write_change (ConfigJson.stringify c)) (P ++ [s])%list
                         ["config.json"] t3 (Dir [("files", Dir [])]) H3)
      by discriminate.
    change (alter _ ["config.json"] _) with (Some X4).
    unfold option_map, t4, t3. now rewrite graft_graft. }
  run_with S7.
  assert (H4 : lookup t4 (P ++ [s])%list = Some X4).
  { unfold t4. apply lookup_graft_same. congruence. }
  (* what the tree looks like in the end *)
  assert (Fin : forall X,
             graft (P ++ [s])%list X t2 = graft P (Dir (es ++ [(s, X)])) t).
  { intros X. unfold t2.
    rewrite (graft_child P s X (graft P (Dir es1) t) es1 (Dir []));
      [ | apply lookup_graft_same; congruence
        | unfold es1; apply find_set_same ].
    rewrite graft_graft. unfold es1. now rewrite set_set, set_absent. }
  unfold project_folder. subst c. cbn [guidelines].
  set (c := mkProjectConfig _ _ _ _ _ _ _ _) in *.
  destruct (input_guidelines input) as [g|] eqn:G.
  - destruct (truthy (Some g)) eqn:T.
    + set (X5 := Dir [("files", Dir []);
                      ("config.json", File (ConfigJson.stringify c));
                      ("guidelines.md", File g)]).
      assert (S8 : writeFileSync ((P ++ [s]) ++ ["guidelines.md"])%list g
                                 (with_fs w2 t4)
                   = (with_fs w2 (graft (P ++ [s])%list X5 t2), Ret tt)).
      { unfold writeFileSync, update_fs. simpl fs.
        rewrite (alter_graft (write_change g) (P ++ [s])%list
                             ["guidelines.md"] t4 X4 H4) by discriminate.
        change (alter _ ["guidelines.md"] _) with (Some X5).
        unfold option_map, t4. now rewrite graft_graft. }
      run_with S8. rewrite Fin. reflexivity.
    + rewrite (bind_run _ _ _ _ _ (eq_refl : ret tt (with_fs w2 t4) = (_, Ret tt))).
      unfold t4. rewrite Fin. reflexivity.
  - rewrite (bind_run _ _ _ _ _ (eq_refl : ret tt (with_fs w2 t4) = (_, Ret tt))).
    unfold t4. rewrite Fin. reflexivity.
Qed.

(** ** Identifiers *)

Lemma hex_digit_is_hex n : n < 16 -> is_hex_digit (hex_digit n) = true.
Proof.
  intros H.
  assert (E : exists k, (k < 16)%nat /\ n = N.of_nat k)
    by (exists (N.to_nat n); lia).
  destruct E as (k & Hk & ->). clear H.
  do 16 (destruct k as [|k]; [reflexivity|]). lia.
Qed.

Lemma uuid_nibble_bound bits i : uuid_nibble bits i < 16.
Proof.
  unfold uuid_nibble.
  assert (A : forall x, N.land x 15 < 16).
  { intros x. change 15 with (N.ones 4). rewrite N.land_ones.
    apply N.mod_lt. discriminate. }
  assert (B : forall x, N.land x 3 < 4).
  { intros x. change 3 with (N.ones 2). rewrite N.land_ones.
    apply N.mod_lt. discriminate. }
  destruct (i =? 12); [reflexivity|].
  destruct (i =? 16); [|apply A].
  specialize (B (N.land (N.shiftr bits (4 * (31 - i))) 15)). lia.
Qed.

Lemma uuid_digits_hex bits i count :
  String.length (uuid_digits bits i count) = count
  /\ JsString.forallb is_hex_digit (uuid_digits bits i count) = true.
Proof.
  revert i; induction count as [|count IH]; intros i; [split; reflexivity|].
  destruct (IH (i + 1)) as [L F]. cbn [uuid_digits String.length JsString.forallb].
  rewrite L, F, hex_digit_is_hex by apply uuid_nibble_bound. auto.
Qed.

Lemma take_append n a b : String.length a = n -> take n (a ++ b) = a.
Proof.
  revert n; induction a as [|c a IH]; intros n <-; simpl; [now destruct b|].
  now rewrite IH.
Qed.

(** The first eight characters of a UUID are hexadecimal digits. *)
Lemma uuid_prefix_hex bits :
  String.length (take 8 (uuid_string bits)) = 8%nat
  /\ JsString.forallb is_hex_digit (take 8 (uuid_string bits)) = true.
Proof.
  destruct (uuid_digits_hex bits 0 8) as [L F].
  unfold uuid_string. rewrite (take_append 8 (uuid_digits bits 0 8) _ L).
  split; assumption.
Qed.

(** ** C2 *)

Lemma empty_projects_root_mkdir w root :
  empty_projects_root w root ->
  exists t1, mkdir_p (getWorkspaceProjectsPath root) (fs w) = Some t1
             /\ lookup t1 (getWorkspaceProjectsPath root) = Some (Dir []).
Proof.
  intros [H | [H1 H2]].
  - exists (fs w). split; [now apply mkdir_p_existing with (es := [])|exact H].
  - destruct (mkdir_p _ (fs w)) as [t1|] eqn:E; [|congruence].
    exists t1. split; [reflexivity|]. now apply mkdir_p_fresh with (t := fs w).
Qed.

Lemma slug_choice_my_plan_first input s :
  input_name input = "My Plan" -> slug_choice [] (input_name input) s ->
  s = "my-plan".
Proof.
  intros -> (_ & _ & [[_ ->] | [H _]]); [reflexivity|].
  exfalso. now apply H.
Qed.

Lemma slug_choice_my_plan_second input folder s :
  input_name input = "My Plan" ->
  slug_choice [("my-plan", folder)] (input_name input) s ->
  s = "my-plan-2".
Proof.
  intros -> (_ & _ & [[H _] | [_ (i & -> & Hbelow)]]).
  - discriminate H.
  - destruct i as [|i]; [reflexivity|].
    exfalso. apply (Hbelow 0%nat); [lia|]. reflexivity.
Qed.

(** C2: on an empty projects root, [createProject] with the name
    [My Plan] returns a config with the slug [my-plan], an id made of
    [proj_] and the first eight hexadecimal digits of the UUID it drew, and
    equal creation and update times; it leaves the project directory with an
    empty [files] directory inside; and a second call with that name returns
    the slug [my-plan-2]. *)
Theorem createProject_my_plan fuel root input w :
  input_name input = "My Plan" ->
  (1 <= fuel)%nat ->
  empty_projects_root w root ->
  exists w1 c,
    createProject fuel root input w = (w1, Ret c)
    /\ slug c = "my-plan"
    /\ (exists h, id c = "proj_" ++ h
                  /\ h = take 8 (uuid_string (entropy w (draws w)))
                  /\ String.length h = 8%nat
                  /\ JsString.forallb is_hex_digit h = true)
    /\ createdAt c = updatedAt c
    /\ dir_at (fs w1) (getProjectPath root "my-plan")
    /\ lookup (fs w1) (getProjectFilesPath root "my-plan") = Some (Dir [])
    /\ forall fuel' input',
         input_name input' = "My Plan" -> (2 <= fuel')%nat ->
         exists w2 c2,
           createProject fuel' root input' w1 = (w2, Ret c2)
           /\ slug c2 = "my-plan-2".
Proof.
  intros Hname Hfuel Hempty.
  destruct (empty_projects_root_mkdir w root Hempty) as (t1 & Hmk & HP).
  destruct (createProject_spec fuel root input w t1 [] Hmk HP)
    as (s & Hchoice & Hrun); [simpl; lia|].
  pose proof (slug_choice_my_plan_first input s Hname Hchoice) as ->.
  rewrite Hrun. do 2 eexists. split; [reflexivity|].
  set (P := getWorkspaceProjectsPath root) in *.
  set (folder := project_folder (created_config input "my-plan" w)).
  cbn [fs app].
  assert (HP1 : lookup (graft P (Dir [("my-plan", folder)]) t1) P
                = Some (Dir [("my-plan", folder)])).
  { apply lookup_graft_same. congruence. }
  assert (Hfolder : lookup (graft P (Dir [("my-plan", folder)]) t1)
                           (P ++ ["my-plan"])%list = Some folder).
  { rewrite lookup_graft_under by congruence. reflexivity. }
  split; [reflexivity|]. split.
  { eexists. split; [reflexivity|]. split; [reflexivity|]. apply uuid_prefix_hex. }
  split; [reflexivity|]. split.
  { unfold getProjectPath. fold P. rewrite join_valid by reflexivity.
    unfold dir_at. rewrite Hfolder. unfold folder, project_folder.
    eexists; reflexivity. }
  split.
  { unfold getProjectFilesPath, getProjectPath. fold P.
    rewrite !join_valid by reflexivity.
    rewrite lookup_app, Hfolder. reflexivity. }
  intros fuel' input' Hname' Hfuel'.
  set (w1 := mkWorld _ _ _ _ _).
  destruct (createProject_spec fuel' root input' w1
              (graft P (Dir [("my-plan", folder)]) t1) [("my-plan", folder)])
    as (s2 & Hchoice2 & Hrun2).
  - apply mkdir_p_existing with (es := [("my-plan", folder)]). exact HP1.
  - exact HP1.
  - simpl. lia.
  - pose proof (slug_choice_my_plan_second input' folder s2 Hname' Hchoice2) as ->.
    rewrite Hrun2. do 2 eexists. split; reflexivity.
Qed.

Lemma createProject_my_plan_witness :
  exists w1 c,
    createProject 1 "/ws" (mkCreateProjectInput "My Plan" None None None)
                  fresh_workspace = (w1, Ret c)
    /\ slug c = "my-plan".
Proof.
  destruct (createProject_my_plan 1 "/ws"
              (mkCreateProjectInput "My Plan" None None None) fresh_workspace)
    as (w1 & c & Hrun & Hslug & _).
  - reflexivity.
  - lia.
  - right. split; [reflexivity|]. vm_compute. discriminate.
  - exists w1, c. split; assumption.
Defined.

(** ** Renaming *)

Lemma is_prefix_length p q :
  is_prefix p q = true -> (List.length p <= List.length q)%nat.
Proof.
  revert q; induction p as [|a p IH]; intros [|b q] H; simpl in *;
    try lia; try discriminate.
  apply andb_true_iff in H as [_ H]. specialize (IH _ H). lia.
Qed.

Lemma is_prefix_child d n : is_prefix (d ++ [n])%list d = false.
Proof.
  destruct (is_prefix (d ++ [n])%list d) eqn:E; [|reflexivity].
  apply is_prefix_length in E. rewrite length_app in E. simpl in E. lia.
Qed.

Lemma join_parent p : join p ".." = removelast p.
Proof. reflexivity. Qed.

Lemma path_split (p : path) : p <> [] -> exists d n, p = (d ++ [n])%list /\ removelast p = d.
Proof.
  intros H. exists (removelast p), (last p "").
  split; [now apply app_removelast_last|reflexivity].
Qed.

Lemma removelast_child (d : path) n : removelast (d ++ [n])%list = d.
Proof. apply removelast_last. Qed.


Lemma alter_rm_succeeds t old src :
  lookup t old = Some src -> old <> [] ->
  exists t', alter rm_change old t = Some t' /\ lookup t' old = None.
Proof.
  intros H Hne. destruct (path_split old Hne) as (d & n & -> & _).
  destruct (lookup_prefix_dir t d [n] src H ltac:(discriminate)) as [es He].
  assert (F : Entries.find n es = Some src).
  { rewrite lookup_child, He in H. exact H. }
  destruct (alter_succeeds rm_change d n t es None He) as [t' Ht'].
  { now rewrite F. }
  exists t'. split; [exact Ht'|].
  pose proof (lookup_alter_same _ _ _ _ Ht') as S. rewrite H in S.
  simpl in S. congruence.
Qed.



(** *** Path names *)

Lemma node_at_plain t p : node_at t (mkPathname p false) = lookup t p.
Proof. unfold node_at. cbn [components slash andb]. now destruct (lookup t p). Qed.

Lemma node_at_missing t n : lookup t (components n) = None -> node_at t n = None.
Proof. unfold node_at. now intros ->. Qed.

Lemma node_at_some t n c :
  lookup t (components n) = Some c ->
  node_at t n = if slash n && negb (is_dir c) then None else Some c.
Proof. unfold node_at. now intros ->. Qed.


Lemma existsSync_name_plain p w : existsSync_name (mkPathname p false) w = existsSync p w.
Proof. unfold existsSync_name, existsSync. now rewrite node_at_plain. Qed.

Lemma join_name_parent p : join_name p ".." = mkPathname (removelast p) false.
Proof. reflexivity. Qed.

(** [if (!existsSync(dir)) mkdirSync(dir, { recursive: true })] for the
    directory above a path. *)
Lemma ensure_parent_name {A} p (k : M A) w :
  (d <- existsSync_name (join_name p "..") ;;
   (if negb d then mkdirSync_recursive_name (join_name p "..") else ret tt) ;; k) w
  = (d <- existsSync (removelast p) ;;
     (if negb d then mkdirSync_recursive (removelast p) else ret tt) ;; k) w.
Proof.
  rewrite join_name_parent. unfold bind at 1 3.
  now rewrite existsSync_name_plain.
Qed.


Lemma renameSync_name_missing old so new sn w :
  lookup (fs w) old = None ->
  renameSync_name (mkPathname old so) (mkPathname new sn) w = (w, Throw).
Proof. unfold renameSync_name. cbn [components slash]. now intros ->. Qed.




(** ** Read-only operations *)

Lemma readonly_ret {A} (a : A) : readonly (ret a).
Proof. now intros w. Qed.

Lemma readonly_throw {A} : readonly (@throw A).
Proof. now intros w. Qed.

Lemma readonly_diverge {A} : readonly (@diverge A).
Proof. now intros w. Qed.

Lemma readonly_bind {A B} (m : M A) (k : A -> M B) :
  readonly m -> (forall a, readonly (k a)) -> readonly (bind m k).
Proof.
  intros Hm Hk w. unfold bind. specialize (Hm w).
  destruct (m w) as [w' [a| |]]; simpl in Hm; subst; auto. apply Hk.
Qed.

Lemma readonly_try_catch {A} (m h : M A) :
  readonly m -> readonly h -> readonly (try_catch m h).
Proof.
  intros Hm Hh w. unfold try_catch. specialize (Hm w).
  destruct (m w) as [w' [a| |]]; simpl in Hm; subst; auto.
Qed.

Lemma readonly_for_each {A S} (l : list A) (body : A -> S -> M S) :
  (forall x s, readonly (body x s)) -> forall s, readonly (for_each l body s).
Proof.
  intros Hb. induction l as [|x r IH]; intros s; simpl.
  - apply readonly_ret.
  - apply readonly_bind; auto.
Qed.

Lemma readonly_existsSync p : readonly (existsSync p).
Proof. now intros w. Qed.

Lemma readonly_readFileSync p : readonly (readFileSync p).
Proof. intros w. unfold readFileSync. now destruct (lookup (fs w) p) as [[]|]. Qed.

Lemma readonly_readdirSync p : readonly (readdirSync p).
Proof. intros w. unfold readdirSync. now destruct (lookup (fs w) p) as [[]|]. Qed.

Lemma readonly_statSync p : readonly (statSync p).
Proof. intros w. unfold statSync. now destruct (lookup (fs w) p). Qed.

Lemma readonly_existsSync_name n : readonly (existsSync_name n).
Proof. now intros w. Qed.

Lemma readonly_readFileSync_name n : readonly (readFileSync_name n).
Proof. intros w. unfold readFileSync_name. now destruct (node_at (fs w) n) as [[]|]. Qed.

Lemma readonly_statSync_name n : readonly (statSync_name n).
Proof. intros w. unfold statSync_name. now destruct (node_at (fs w) n). Qed.

Lemma readonly_if {A} (b : bool) (m1 m2 : M A) :
  readonly m1 -> readonly m2 -> readonly (if b then m1 else m2).
Proof. now destruct b. Qed.

Create HintDb readonly.
#[local] Hint Resolve readonly_ret readonly_throw readonly_diverge
  readonly_existsSync readonly_readFileSync readonly_readdirSync
  readonly_statSync readonly_existsSync_name readonly_readFileSync_name
  readonly_statSync_name : readonly.

Ltac readonly_step :=
  first [ apply readonly_bind; [|intros ?]
        | apply readonly_try_catch
        | apply readonly_if
        | apply readonly_for_each; intros ? ?
        | solve [auto with readonly]
        | match goal with
          | |- readonly (match ?x with _ => _ end) => destruct x
          end ].

Lemma readonly_config_parse text : readonly (ConfigJson.parse text).
Proof.
  unfold ConfigJson.parse. destruct (Json.parse text) as [v|]; auto with readonly.
  destruct (ConfigJson.of_json v); auto with readonly.
Qed.
#[local] Hint Resolve readonly_config_parse : readonly.

Lemma readonly_loadProjectConfig root slug : readonly (loadProjectConfig root slug).
Proof. unfold loadProjectConfig. repeat readonly_step. Qed.
#[local] Hint Resolve readonly_loadProjectConfig : readonly.

Lemma readonly_probe_counter fuel slug dir c : readonly (probe_counter fuel slug dir c).
Proof.
  revert c; induction fuel as [|fuel IH]; intros c; simpl; repeat readonly_step.
Qed.

Lemma readonly_generateUniqueProjectSlug fuel name dir :
  readonly (generateUniqueProjectSlug fuel name dir).
Proof.
  pose proof (readonly_probe_counter fuel (generateSlug name) dir 2).
  unfold generateUniqueProjectSlug. repeat readonly_step.
Qed.

Lemma readonly_countFiles fuel dirPath : readonly (countFiles fuel dirPath).
Proof.
  revert dirPath; induction fuel as [|fuel IH]; intros dirPath; simpl;
    repeat readonly_step.
Qed.
#[local] Hint Resolve readonly_countFiles : readonly.

Lemma readonly_getProjectSummary fuel root slug n :
  readonly (getProjectSummary fuel root slug n).
Proof.
  unfold getProjectSummary. repeat readonly_step.
Qed.
#[local] Hint Resolve readonly_getProjectSummary : readonly.

Lemma readonly_listProjects fuel root : readonly (listProjects fuel root).
Proof.
  unfold listProjects. repeat readonly_step.
Qed.

Lemma readonly_listProjectFiles cmp fuel root slug sub :
  readonly (listProjectFiles cmp fuel root slug sub).
Proof.
  revert sub; induction fuel as [|fuel IH]; intros sub; simpl;
    repeat readonly_step.
Qed.

Lemma readonly_readProjectFile root slug filePath :
  readonly (readProjectFile root slug filePath).
Proof. unfold readProjectFile. repeat readonly_step. Qed.

(** ** Directories that stay *)

Lemma keeps_readonly {A} (m : M A) p : readonly m -> keeps_dir m p.
Proof. intros H w Hd. now rewrite H. Qed.

Lemma keeps_bind {A B} (m : M A) (k : A -> M B) p :
  keeps_dir m p -> (forall a, keeps_dir (k a) p) -> keeps_dir (bind m k) p.
Proof.
  intros Hm Hk w Hd. unfold bind. specialize (Hm w Hd).
  destruct (m w) as [w' [a| |]]; simpl in Hm; auto. now apply Hk.
Qed.

Lemma keeps_try_catch {A} (m h : M A) p :
  keeps_dir m p -> keeps_dir h p -> keeps_dir (try_catch m h) p.
Proof.
  intros Hm Hh w Hd. unfold try_catch. specialize (Hm w Hd).
  destruct (m w) as [w' [a| |]]; simpl in Hm; auto.
Qed.

Lemma keeps_if {A} (b : bool) (m1 m2 : M A) p :
  keeps_dir m1 p -> keeps_dir m2 p -> keeps_dir (if b then m1 else m2) p.
Proof. now destruct b. Qed.

Lemma keeps_update_fs f p :
  (forall t t', f t = Some t' -> dir_at t p -> dir_at t' p) ->
  keeps_dir (update_fs f) p.
Proof.
  intros H w Hd. unfold update_fs.
  destruct (f (fs w)) as [t'|] eqn:E; simpl; eauto.
Qed.

Lemma keeps_Date_now p : keeps_dir Date_now p.
Proof. now intros w Hd. Qed.

Lemma keeps_randomUUID p : keeps_dir randomUUID p.
Proof. now intros w Hd. Qed.

Lemma keeps_mkdirSync q p : keeps_dir (mkdirSync_recursive q) p.
Proof. apply keeps_update_fs. intros t t'. apply dir_at_mkdir_p. Qed.

(** A change that refuses directories cannot lose one. *)
Lemma dir_at_alter_refusing f q t t' p :
  (forall es, f (Some (Dir es)) = None) ->
  alter f q t = Some t' -> dir_at t p -> dir_at t' p.
Proof.
  intros Hf Ha Hd. destruct (is_prefix q p) eqn:E.
  - exfalso. apply is_prefix_spec in E as [r ->].
    pose proof (lookup_alter_same _ _ _ _ Ha) as S.
    assert (Hq : dir_at t q).
    { destruct r as [|k r].
      - now rewrite List.app_nil_r in Hd.
      - destruct Hd as [es He].
        eapply lookup_prefix_dir; [exact He|discriminate]. }
    destruct Hq as [es He]. rewrite He, Hf in S. discriminate.
  - eapply dir_at_alter; eauto.
Qed.

Lemma keeps_writeFileSync q c p : keeps_dir (writeFileSync q c) p.
Proof.
  apply keeps_update_fs. intros t t'. now apply dir_at_alter_refusing.
Qed.

Lemma keeps_unlinkSync q p : keeps_dir (unlinkSync q) p.
Proof.
  apply keeps_update_fs. intros t t'. now apply dir_at_alter_refusing.
Qed.

Lemma keeps_rmSync q p :
  is_prefix q p = false -> keeps_dir (rmSync_recursive q) p.
Proof.
  intros H. apply keeps_update_fs. intros t t' Ha. eapply dir_at_alter; eauto.
Qed.

Lemma dir_at_rename_node old new t t' p :
  rename_node old new t = Some t' -> is_prefix old p = false ->
  dir_at t p -> dir_at t' p.
Proof.
  unfold rename_node. intros H Hp Hd.
  destruct (lookup t old) as [src|] eqn:Ho; [|discriminate].
  destruct (path_eqb old new); [now injection H as <-|].
  destruct (is_prefix old new); [discriminate|].
  destruct (alter rm_change old t) as [t1|] eqn:Hrm; [|discriminate].
  assert (Hd1 : dir_at t1 p) by (eapply dir_at_alter; eauto).
  destruct (is_prefix new p) eqn:E; [|eapply dir_at_alter; eauto].
  apply is_prefix_spec in E as [r ->].
  pose proof (lookup_alter_same _ _ _ _ H) as S.
  destruct Hd1 as [es He]. rewrite lookup_app in He.
  destruct (lookup t1 new) as [x|] eqn:Hx; [|discriminate].
  destruct r as [|k r].
  - simpl in He. injection He as ->. rewrite List.app_nil_r.
    destruct es, src; simpl in S; try discriminate;
      injection S as S; eexists; symmetry; exact S.
  - destruct x as [c|es0|]; try discriminate.
    destruct es0 as [|e0 es0]; [discriminate|].
    destruct src; simpl in S; discriminate.
Qed.

Lemma keeps_renameSync old new p :
  is_prefix old p = false -> keeps_dir (renameSync old new) p.
Proof.
  intros H. apply keeps_update_fs. intros t t' Ha. eapply dir_at_rename_node; eauto.
Qed.

Lemma keeps_mkdirSync_name n p : keeps_dir (mkdirSync_recursive_name n) p.
Proof. apply keeps_mkdirSync. Qed.

Lemma keeps_writeFileSync_name n c p : keeps_dir (writeFileSync_name n c) p.
Proof.
  unfold writeFileSync_name. destruct (slash n).
  - apply keeps_readonly, readonly_throw.
  - apply keeps_writeFileSync.
Qed.

Lemma keeps_unlinkSync_name n p : keeps_dir (unlinkSync_name n) p.
Proof.
  unfold unlinkSync_name. destruct (slash n).
  - apply keeps_readonly, readonly_throw.
  - apply keeps_unlinkSync.
Qed.

Lemma keeps_rmSync_name n p :
  is_prefix (components n) p = false -> keeps_dir (rmSync_recursive_name n) p.
Proof.
  intros H w Hd. unfold rmSync_recursive_name.
  destruct (node_at (fs w) n); [now apply keeps_rmSync|exact Hd].
Qed.

Lemma keeps_renameSync_name old new p :
  is_prefix (components old) p = false -> keeps_dir (renameSync_name old new) p.
Proof.
  intros H w Hd. unfold renameSync_name.
  destruct (lookup (fs w) (components old)) as [src|]; [|exact Hd].
  destruct ((slash old || slash new) && negb (is_dir src)); [exact Hd|].
  now apply keeps_renameSync.
Qed.

#[local] Hint Resolve readonly_probe_counter readonly_generateUniqueProjectSlug
  readonly_listProjects readonly_listProjectFiles readonly_readProjectFile
  : readonly.

Ltac keeps_step :=
  first [ solve [apply keeps_readonly; auto with readonly]
        | apply keeps_bind; [|intros ?]
        | apply keeps_try_catch
        | apply keeps_if
        | apply keeps_mkdirSync
        | apply keeps_writeFileSync
        | apply keeps_unlinkSync
        | apply keeps_Date_now
        | apply keeps_randomUUID
        | solve [apply keeps_rmSync; assumption]
        | solve [apply keeps_renameSync; assumption]
        | apply keeps_mkdirSync_name
        | apply keeps_writeFileSync_name
        | apply keeps_unlinkSync_name
        | solve [apply keeps_rmSync_name; assumption]
        | solve [apply keeps_renameSync_name; assumption]
        | match goal with
          | |- keeps_dir (match ?x with _ => _ end) _ => destruct x
          end ].

Lemma keeps_saveProjectConfig root slug config p :
  keeps_dir (saveProjectConfig root slug config) p.
Proof. unfold saveProjectConfig. repeat keeps_step. Qed.

Lemma keeps_createProject fuel root input p :
  keeps_dir (createProject fuel root input) p.
Proof.
  unfold createProject. repeat keeps_step.
Qed.

Lemma keeps_updateProject root slug updates p :
  keeps_dir (updateProject root slug updates) p.
Proof.
  pose proof (keeps_saveProjectConfig root slug) as K.
  unfold updateProject. repeat (keeps_step || apply K).
Qed.

Lemma keeps_deleteProject root slug p :
  is_prefix (getProjectPath root slug) p = false ->
  keeps_dir (deleteProject root slug) p.
Proof. intros H. unfold deleteProject. repeat keeps_step. Qed.

Lemma keeps_writeProjectFile root slug filePath content p :
  keeps_dir (writeProjectFile root slug filePath content) p.
Proof. unfold writeProjectFile. repeat keeps_step. Qed.

Lemma keeps_createProjectFile root slug filePath content p :
  keeps_dir (createProjectFile root slug filePath content) p.
Proof. unfold createProjectFile. repeat keeps_step. Qed.

Lemma keeps_deleteProjectFile root slug filePath p :
  is_prefix (join (getProjectFilesPath root slug) filePath) p = false ->
  keeps_dir (deleteProjectFile root slug filePath) p.
Proof. intros H. unfold deleteProjectFile. repeat keeps_step. Qed.

Lemma keeps_renameProjectFile root slug oldPath newPath p :
  is_prefix (join (getProjectFilesPath root slug) oldPath) p = false ->
  keeps_dir (renameProjectFile root slug oldPath newPath) p.
Proof. intros H. unfold renameProjectFile. repeat keeps_step. Qed.

(** Every call that spares a directory keeps it. *)
Lemma run_op_keeps cmp op p w :
  spares op p -> dir_at (fs w) p -> dir_at (fs (run_op cmp op w)) p.
Proof.
  intros Hs Hd. destruct op; simpl in *; unfold spares in Hs; simpl in Hs.
  - now apply keeps_readonly; [apply readonly_loadProjectConfig|].
  - now apply keeps_saveProjectConfig.
  - now apply keeps_readonly; [apply readonly_loadProjectConfig|].
  - now apply keeps_readonly; [apply readonly_getProjectSummary|].
  - now apply keeps_readonly; [apply readonly_listProjects|].
  - now apply keeps_createProject.
  - now apply keeps_updateProject.
  - now apply keeps_deleteProject.
  - now apply keeps_readonly; [apply readonly_listProjectFiles|].
  - now apply keeps_readonly; [apply readonly_readProjectFile|].
  - now apply keeps_writeProjectFile.
  - now apply keeps_createProjectFile.
  - now apply keeps_deleteProjectFile.
  - now apply keeps_renameProjectFile.
Qed.

Lemma run_ops_keeps cmp ops p :
  Forall (fun op => spares op p) ops ->
  forall w, dir_at (fs w) p -> dir_at (fs (run_ops cmp ops w)) p.
Proof.
  induction 1 as [|op ops Hop _ IH]; intros w Hd; [exact Hd|].
  apply IH. now apply run_op_keeps.
Qed.

(** ** What a returned call went through *)

Lemma bind_ret_inv {A B} (m : M A) (k : A -> M B) w w' b :
  bind m k w = (w', Ret b) ->
  exists w1 a, m w = (w1, Ret a) /\ k a w1 = (w', Ret b).
Proof.
  unfold bind. destruct (m w) as [w1 [a| |]]; intros H; try discriminate.
  eauto.
Qed.

Lemma createProject_files_dir fuel root input w w1 c :
  createProject fuel root input w = (w1, Ret c) ->
  dir_at (fs w1) (getProjectFilesPath root (slug c)).
Proof.
  unfold createProject. intros H.
  apply bind_ret_inv in H as (wa & now & _ & H).
  apply bind_ret_inv in H as (wb & e & _ & H).
  apply bind_ret_inv in H as (wc & [] & _ & H).
  apply bind_ret_inv in H as (wd & s & _ & H).
  apply bind_ret_inv in H as (we & uuid & _ & H).
  apply bind_ret_inv in H as (wf & [] & _ & H).
  apply bind_ret_inv in H as (wg & [] & Hfiles & H).
  apply bind_ret_inv in H as (wh & [] & Hcfg & H).
  apply bind_ret_inv in H as (wi & [] & Hgl & H).
  injection H as <- <-. cbn [slug].
  unfold getProjectFilesPath, getProjectPath.
  set (F := join (join (getWorkspaceProjectsPath root) s) "files") in *.
  assert (Dg : dir_at (fs wg) F).
  { unfold mkdirSync_recursive, update_fs in Hfiles.
    destruct (mkdir_p F (fs wf)) as [t|] eqn:E; [|discriminate].
    injection Hfiles as <-. simpl. eapply mkdir_p_dir_at; eauto. }
  assert (Dh : dir_at (fs wh) F).
  { match type of Hcfg with
    | writeFileSync ?q ?txt wg = _ =>
        pose proof (keeps_writeFileSync q txt F wg Dg) as K
    end.
    now rewrite Hcfg in K. }
  assert (K : keeps_dir
                match input_guidelines input with
                | Some g =>
                    if truthy (Some g)
                    then writeFileSync
                           (join (join (getWorkspaceProjectsPath root) s)
                                 "guidelines.md") g
                    else ret tt
                | None => ret tt
                end F) by repeat keeps_step.
  specialize (K wh Dh). now rewrite Hgl in K.
Qed.

(** C6 (as amended): the folder [createProject] makes contains a [files]
    directory, and every later sequence of store calls keeps it, provided
    no call deletes or moves that directory or a directory above it. *)
Theorem files_directory_kept cmp fuel root input w w1 c ops :
  createProject fuel root input w = (w1, Ret c) ->
  Forall (fun op => spares op (getProjectFilesPath root (slug c))) ops ->
  dir_at (fs w1) (getProjectFilesPath root (slug c))
  /\ dir_at (fs (run_ops cmp ops w1)) (getProjectFilesPath root (slug c)).
Proof.
  intros Hrun Hops.
  pose proof (createProject_files_dir _ _ _ _ _ _ Hrun) as Hd.
  split; [exact Hd|]. now apply run_ops_keeps.
Qed.

(** ** JSON: parsing what was printed *)

Import Json.

Lemma json_nested_ind (P : json -> Prop) :
  P JNull -> (forall b, P (JBool b)) -> (forall n, P (JNum n)) ->
  (forall s, P (JStr s)) ->
  (forall l, Forall P l -> P (JArr l)) ->
  (forall m, Forall (fun kv => P (snd kv)) m -> P (JObj m)) ->
  forall v, P v.
Proof.
  intros Hnull Hbool Hnum Hstr Harr Hobj.
  refine (fix IH (v : json) : P v :=
            match v with
            | JNull => Hnull
            | JBool b => Hbool b
            | JNum n => Hnum n
            | JStr s => Hstr s
            | JArr l =>
                Harr l ((fix items (l : list json) : Forall P l :=
                           match l with
                           | [] => Forall_nil _
                           | x :: r => Forall_cons x (IH x) (items r)
                           end) l)
            | JObj m =>
                Hobj m ((fix members (m : list (string * json))
                           : Forall (fun kv => P (snd kv)) m :=
                           match m with
                           | [] => Forall_nil _
                           | kv :: r => Forall_cons kv (IH (snd kv)) (members r)
                           end) m)
            end).
Qed.

Lemma str_app_assoc (a b c : string) : (a ++ b) ++ c = a ++ (b ++ c).
Proof. induction a as [|x a IH]; simpl; [reflexivity|]. now rewrite IH. Qed.

Lemma str_length_app (a b : string) :
  String.length (a ++ b) = (String.length a + String.length b)%nat.
Proof. induction a as [|x a IH]; simpl; [reflexivity|]. now rewrite IH. Qed.

(** *** White space *)

Lemma skip_ws_pad n s : skip_ws (pad n ++ s) = skip_ws s.
Proof. induction n as [|n IH]; [reflexivity|]. exact IH. Qed.

Lemma skip_ws_line_break n s : skip_ws (line_break n ++ s) = skip_ws s.
Proof. unfold line_break. cbn [append]. change (skip_ws (pad n ++ s) = skip_ws s). apply skip_ws_pad. Qed.

Lemma skip_ws_idem s : skip_ws (skip_ws s) = skip_ws s.
Proof.
  induction s as [|c r IH]; [reflexivity|].
  cbn [skip_ws]. destruct (is_ws c) eqn:E; [exact IH|].
  cbn [skip_ws]. now rewrite E.
Qed.

Lemma skip_ws_head c r : is_ws c = false -> skip_ws (String c r) = String c r.
Proof. intros E. cbn [skip_ws]. now rewrite E. Qed.

Lemma parse_value_skip_ws fuel s : parse_value fuel (skip_ws s) = parse_value fuel s.
Proof. destruct fuel; [reflexivity|]. cbn [parse_value]. now rewrite skip_ws_idem. Qed.

Lemma parse_value_line_break fuel n s :
  parse_value fuel (line_break n ++ s) = parse_value fuel s.
Proof.
  rewrite <- parse_value_skip_ws, skip_ws_line_break. apply parse_value_skip_ws.
Qed.

(** *** Strings *)

Lemma parse_chars_escape_char c rest :
  parse_chars (escape_char c ++ rest) = cons_char c (parse_chars rest).
Proof. destruct c as [[] [] [] [] [] [] [] []]; reflexivity. Qed.

Lemma parse_chars_escape s rest :
  parse_chars (escape s ++ String quote_char rest) = Some (s, rest).
Proof.
  induction s as [|c r IH]; [reflexivity|].
  cbn [escape]. rewrite str_app_assoc, parse_chars_escape_char, IH. reflexivity.
Qed.

Lemma parse_chars_quote s rest :
  parse_chars (escape s ++ String quote_char EmptyString ++ rest) = Some (s, rest).
Proof. apply parse_chars_escape. Qed.

Lemma quote_app s rest :
  quote s ++ rest = String quote_char (escape s ++ String quote_char rest).
Proof. unfold quote. cbn [append]. now rewrite str_app_assoc. Qed.

Lemma parse_value_string fuel r :
  parse_value (S fuel) (String quote_char r)
  = match parse_chars r with
    | Some (str, rest) => Some (JStr str, rest)
    | None => None
    end.
Proof. reflexivity. Qed.

(** *** Numbers *)

Lemma uint_digits d : JsString.forallb is_digit (NilEmpty.string_of_uint d) = true.
Proof. induction d; simpl; auto. Qed.

Lemma span_digits_app d rest :
  JsString.forallb is_digit d = true ->
  match rest with String c _ => is_digit c = false | EmptyString => True end ->
  span_digits (d ++ rest) = (d, rest).
Proof.
  intros Hd Hr. induction d as [|c d IH].
  - destruct rest as [|c r]; [reflexivity|]. cbn [append span_digits].
    now rewrite Hr.
  - cbn [JsString.forallb] in Hd. apply andb_true_iff in Hd as [Hc Hd].
    cbn [append span_digits]. now rewrite Hc, (IH Hd).
Qed.

Lemma to_uint_no_leading_zero k u :
  N.to_uint k = Decimal.D0 u -> u = Decimal.Nil.
Proof.
  intros H. pose proof (DecimalN.Unsigned.to_of (N.to_uint k)) as E.
  rewrite DecimalN.Unsigned.of_to, H, DecimalFacts.unorm_D0 in E.
  unfold Decimal.unorm in E.
  destruct (Decimal.nzhead u) eqn:Z;
    try (exfalso; apply (DecimalFacts.nzhead_nonzero u u); congruence).
  injection E as E. auto.
Qed.

Lemma delimited_no_digit rest :
  delimited rest = true ->
  match rest with String c _ => is_digit c = false | EmptyString => True end.
Proof.
  destruct rest as [|c r]; [auto|]. unfold delimited. intros H.
  apply andb_true_iff in H as [H _]. now destruct (is_digit c).
Qed.

Lemma delimited_no_fraction rest :
  delimited rest = true -> starts_fraction rest = false.
Proof.
  destruct rest as [|c r]; [auto|]. unfold delimited. intros H.
  apply andb_true_iff in H as [_ H]. now destruct (starts_fraction (String c r)).
Qed.

Lemma parse_nat_of_N k rest :
  delimited rest = true -> parse_nat (of_N k ++ rest) = Some (k, rest).
Proof.
  intros Hr. unfold parse_nat, of_N.
  rewrite span_digits_app by (apply uint_digits || now apply delimited_no_digit).
  rewrite (delimited_no_fraction _ Hr).
  rewrite NilEmpty.usu, DecimalN.Unsigned.of_to.
  destruct (N.to_uint k) as [|u|u|u|u|u|u|u|u|u|u] eqn:E;
    try reflexivity.
  - destruct k; discriminate E || (exfalso; eapply DecimalPos.Unsigned.to_uint_nonnil; eauto).
  - rewrite (to_uint_no_leading_zero k u E). reflexivity.
Qed.

Lemma of_N_head k : exists c r, of_N k = String c r /\ is_digit c = true.
Proof.
  unfold of_N. pose proof (uint_digits (N.to_uint k)) as D.
  destruct (NilEmpty.string_of_uint (N.to_uint k)) as [|c r] eqn:E.
  - exfalso. destruct (N.to_uint k) eqn:U; try discriminate E.
    destruct k; [discriminate U|].
    eapply DecimalPos.Unsigned.to_uint_nonnil; eauto.
  - exists c, r. split; [reflexivity|].
    cbn [JsString.forallb] in D. now apply andb_true_iff in D as [D _].
Qed.

Lemma digit_not_minus c : is_digit c = true -> (code c =? 45) = false.
Proof. destruct c as [[] [] [] [] [] [] [] []]; vm_compute; congruence. Qed.

Lemma parse_number_of_Z n rest :
  delimited rest = true -> parse_number (of_Z n ++ rest) = Some (n, rest).
Proof.
  intros Hr. unfold of_Z. destruct (n <? 0)%Z eqn:E.
  - cbn [append parse_number]. change (code "-" =? 45) with true. cbn iota.
    rewrite (parse_nat_of_N _ _ Hr). f_equal. f_equal. lia.
  - destruct (of_N_head (Z.to_N n)) as (c & r & Hc & Hd).
    unfold parse_number.
    pose proof (parse_nat_of_N (Z.to_N n) rest Hr) as P.
    rewrite Hc in *. cbn [append] in *.
    rewrite (digit_not_minus c Hd), P. f_equal. f_equal. lia.
Qed.

Lemma parse_value_number fuel c r :
  number_start c = true ->
  parse_value (S fuel) (String c r)
  = match parse_number (String c r) with
    | Some (z, rest) => Some (JNum z, rest)
    | None => None
    end.
Proof.
  destruct c as [[] [] [] [] [] [] [] []]; intros H; try discriminate H;
    reflexivity.
Qed.

Lemma of_Z_head n : exists c r, of_Z n = String c r /\ number_start c = true.
Proof.
  unfold of_Z. destruct (n <? 0)%Z.
  - eexists _, _. split; reflexivity.
  - destruct (of_N_head (Z.to_N n)) as (c & r & Hc & Hd).
    exists c, r. split; [exact Hc|]. unfold number_start. now rewrite Hd, orb_true_r.
Qed.

(** *** Values *)

Lemma number_start_plain c :
  number_start c = true ->
  is_ws c = false /\ (code c =? 93) = false /\ (code c =? 125) = false.
Proof. destruct c as [[] [] [] [] [] [] [] []]; vm_compute; auto; discriminate. Qed.

(** A printed value starts with a character that is neither white space
    nor a closing bracket. *)
Lemma value_head indent v :
  exists c r, stringify_at indent v = String c r
              /\ is_ws c = false /\ (code c =? 93) = false
              /\ (code c =? 125) = false.
Proof.
  destruct v as [|[]|n|s|[|x xs]|[|[k x] ms]];
    try (eexists _, _; split; [reflexivity|]; repeat split; reflexivity).
  destruct (of_Z_head n) as (c & r & Hc & Hs).
  exists c, r. split; [exact Hc|]. now apply number_start_plain.
Qed.

Lemma skip_ws_value indent v rest :
  skip_ws (stringify_at indent v ++ rest) = stringify_at indent v ++ rest.
Proof.
  destruct (value_head indent v) as (c & r & -> & Hws & _).
  cbn [append]. now apply skip_ws_head.
Qed.

Lemma parse_value_array fuel r :
  parse_value (S fuel) (String "[" r)
  = match skip_ws r with
    | String c' r' =>
        if code c' =? 93 then Some (JArr [], r')
        else match parse_elements fuel r with
             | Some (l, rest) => Some (JArr l, rest)
             | None => None
             end
    | EmptyString => None
    end.
Proof. reflexivity. Qed.

Lemma parse_value_object fuel r :
  parse_value (S fuel) (String "{" r)
  = match skip_ws r with
    | String c' r' =>
        if code c' =? 125 then Some (JObj [], r')
        else match parse_members fuel r with
             | Some (l, rest) => Some (JObj (dedupe l), rest)
             | None => None
             end
    | EmptyString => None
    end.
Proof. reflexivity. Qed.

Lemma parse_elements_S fuel s :
  parse_elements (S fuel) s
  = match parse_value fuel s with
    | Some (v, r) =>
        match skip_ws r with
        | String c r' =>
            if code c =? 44 then
              match parse_elements fuel r' with
              | Some (l, rest) => Some (v :: l, rest)
              | None => None
              end
            else if code c =? 93 then Some ([v], r')
            else None
        | EmptyString => None
        end
    | None => None
    end.
Proof. reflexivity. Qed.

Lemma parse_members_S fuel s :
  parse_members (S fuel) s
  = match skip_ws s with
    | String q r0 =>
        if code q =? 34 then
          match parse_chars r0 with
          | Some (k, r1) =>
              match skip_ws r1 with
              | String colon r2 =>
                  if code colon =? 58 then
                    match parse_value fuel r2 with
                    | Some (v, r) =>
                        match skip_ws r with
                        | String c r' =>
                            if code c =? 44 then
                              match parse_members fuel r' with
                              | Some (l, rest) => Some ((k, v) :: l, rest)
                              | None => None
                              end
                            else if code c =? 125 then Some ([(k, v)], r')
                            else None
                        | EmptyString => None
                        end
                    | None => None
                    end
                  else None
              | EmptyString => None
              end
          | None => None
          end
        else None
    | EmptyString => None
    end.
Proof. reflexivity. Qed.

Lemma items_text_delimited print indent xs rest :
  delimited (items_text print indent xs ++ rest) = true.
Proof. destruct xs; reflexivity. Qed.

Lemma members_text_delimited print indent ms rest :
  delimited (members_text print indent ms ++ rest) = true.
Proof. destruct ms as [|[k y] r]; reflexivity. Qed.

Lemma length_line_break n : String.length (line_break n) = S n.
Proof.
  unfold line_break, pad. cbn [String.length]. f_equal.
  induction n; simpl; auto.
Qed.

Lemma items_text_nonempty print indent xs :
  (1 <= String.length (items_text print indent xs))%nat.
Proof.
  destruct xs; cbn [items_text append String.length];
    [rewrite str_length_app, length_line_break|]; lia.
Qed.

Lemma members_text_nonempty print indent ms :
  (1 <= String.length (members_text print indent ms))%nat.
Proof.
  destruct ms as [|[k y] r]; cbn [members_text append String.length];
    [rewrite str_length_app, length_line_break|]; lia.
Qed.

Lemma parse_items xs :
  Forall parses xs ->
  forall x indent rest fuel,
    parses x -> wf_json x = true -> List.forallb wf_json xs = true ->
    (String.length (stringify_at (2 + indent) x
                    ++ items_text (stringify_at (2 + indent)) indent xs) < fuel)%nat ->
    parse_elements fuel
      (line_break (2 + indent)
       ++ stringify_at (2 + indent) x
       ++ items_text (stringify_at (2 + indent)) indent xs ++ rest)
    = Some (x :: xs, rest).
Proof.
  induction 1 as [|y r Hy Hr IH]; intros x indent rest fuel Hx Wx Wxs Hlen;
    (destruct fuel as [|fuel]; [lia|]);
    rewrite str_length_app in Hlen;
    rewrite parse_elements_S, parse_value_line_break.
  - pose proof (items_text_nonempty (stringify_at (2 + indent)) indent []).
    rewrite (Hx Wx) by (reflexivity || lia).
    cbn [items_text]. rewrite str_app_assoc, skip_ws_line_break. reflexivity.
  - cbn [List.forallb] in Wxs. apply andb_true_iff in Wxs as [Wy Wr].
    pose proof (items_text_nonempty (stringify_at (2 + indent)) indent (y :: r)).
    rewrite (Hx Wx) by (apply items_text_delimited || lia).
    cbn [items_text] in *. cbn [append skip_ws].
    change (is_ws ",") with false. cbn iota.
    change (code "," =? 44) with true. cbn iota.
    rewrite !str_app_assoc.
    rewrite IH; [reflexivity|assumption..|].
    cbn [append String.length] in Hlen.
    rewrite !str_length_app in *. lia.
Qed.

Lemma parse_value_space fuel s : parse_value fuel (String " " s) = parse_value fuel s.
Proof. rewrite <- parse_value_skip_ws. cbn [skip_ws]. apply parse_value_skip_ws. Qed.

Lemma parse_member_list ms :
  Forall (fun kv => parses (snd kv)) ms ->
  forall k x indent rest fuel,
    parses x -> wf_json x = true ->
    List.forallb (fun kv => wf_json (snd kv)) ms = true ->
    (String.length (quote k ++ ": " ++ stringify_at (2 + indent) x
                    ++ members_text (stringify_at (2 + indent)) indent ms) < fuel)%nat ->
    parse_members fuel
      (line_break (2 + indent)
       ++ quote k ++ ": " ++ stringify_at (2 + indent) x
       ++ members_text (stringify_at (2 + indent)) indent ms ++ rest)
    = Some ((k, x) :: ms, rest).
Proof.
  induction 1 as [|[k' y] r Hy Hr IH]; intros k x indent rest fuel Hx Wx Wms Hlen;
    (destruct fuel as [|fuel]; [lia|]);
    rewrite parse_members_S, skip_ws_line_break, quote_app;
    rewrite (skip_ws_head quote_char) by reflexivity;
    change (code quote_char =? 34) with true; cbn iota;
    rewrite parse_chars_escape;
    cbn [append skip_ws]; change (is_ws ":") with false; cbn iota;
    change (code ":" =? 58) with true; cbn iota;
    rewrite parse_value_space;
    rewrite quote_app in Hlen; cbn [append String.length] in Hlen;
    rewrite !str_length_app in Hlen; cbn [String.length] in Hlen;
    rewrite !str_length_app in Hlen.
  - pose proof (members_text_nonempty (stringify_at (2 + indent)) indent []).
    rewrite (Hx Wx) by (reflexivity || lia).
    cbn [members_text]. rewrite str_app_assoc, skip_ws_line_break. reflexivity.
  - cbn [List.forallb snd] in Wms. apply andb_true_iff in Wms as [Wy Wr].
    pose proof (members_text_nonempty (stringify_at (2 + indent)) indent ((k', y) :: r)).
    rewrite (Hx Wx) by (apply members_text_delimited || lia).
    cbn [members_text] in *. cbn [append skip_ws].
    change (is_ws ",") with false. cbn iota.
    change (code "," =? 44) with true. cbn iota.
    pose proof (IH k' y indent rest fuel Hy Wy Wr) as P.
    cbn [append] in P.
    rewrite !str_app_assoc. cbn [append]. rewrite !str_app_assoc.
    rewrite P; [reflexivity|].
    cbn [append String.length] in Hlen.
    rewrite !str_length_app in *. cbn [String.length] in *.
    rewrite !str_length_app in *. lia.
Qed.

(** *** Objects without repeated keys *)

Lemma unique_keys_NoDup l : unique_keys l = true -> NoDup l.
Proof.
  induction l as [|k r IH]; [constructor|].
  cbn [unique_keys]. intros H. apply andb_true_iff in H as [H1 H2].
  constructor; [|auto].
  intros Hin. apply negb_true_iff in H1.
  assert (E : List.existsb (String.eqb k) r = true).
  { apply existsb_exists. exists k. split; [exact Hin|apply String.eqb_refl]. }
  congruence.
Qed.

Lemma obj_set_absent k v acc :
  ~ In k (map fst acc) -> obj_set k v acc = (acc ++ [(k, v)])%list.
Proof.
  induction acc as [|[k0 v0] r IH]; intros H; [reflexivity|].
  cbn [obj_set]. destruct (String.eqb k0 k) eqn:E.
  - apply String.eqb_eq in E. subst. exfalso. apply H. now left.
  - cbn [app]. rewrite IH; [reflexivity|]. intros Hin. apply H. now right.
Qed.

Lemma dedupe_unique m : unique_keys (map fst m) = true -> dedupe m = m.
Proof.
  intros H. apply unique_keys_NoDup in H. unfold dedupe.
  enough (G : forall acc,
             NoDup (map fst (acc ++ m)) ->
             fold_left (fun acc kv => obj_set (fst kv) (snd kv) acc) m acc
             = (acc ++ m)%list) by exact (G [] H).
  clear H. induction m as [|[k v] r IH]; intros acc H.
  - now rewrite List.app_nil_r.
  - cbn [fold_left fst snd]. rewrite obj_set_absent.
    + rewrite IH; rewrite <- List.app_assoc; [reflexivity|exact H].
    + rewrite map_app in H. cbn [map fst] in H.
      apply NoDup_remove_2 in H. intros Hin. apply H.
      apply in_or_app. now left.
Qed.

(** *** The round trip *)

Lemma parse_value_stringify v : parses v.
Proof.
  induction v using json_nested_ind; intros W indent rest fuel Hd Hl.
  - destruct fuel; [cbn in Hl; lia|]. reflexivity.
  - destruct fuel; [cbn in Hl; lia|]. destruct b; reflexivity.
  - destruct fuel; [lia|]. cbn [stringify_at] in *.
    destruct (of_Z_head n) as (c & r & Hc & Hs).
    pose proof (parse_number_of_Z n rest Hd) as P.
    rewrite Hc in *. cbn [append] in *.
    now rewrite parse_value_number, P.
  - destruct fuel; [lia|]. cbn [stringify_at].
    now rewrite quote_app, parse_value_string, parse_chars_escape.
  - destruct l as [|x xs]; (destruct fuel as [|fuel]; [cbn in Hl; lia|]);
      [reflexivity|].
    inversion H as [|? ? Hx Hxs]; subst.
    cbn [wf_json List.forallb] in W. apply andb_true_iff in W as [Wx Wxs].
    cbn [stringify_at] in *. cbn [append String.length] in *.
    rewrite parse_value_array, !str_app_assoc, skip_ws_line_break.
    rewrite skip_ws_value.
    destruct (value_head (2 + indent) x) as (c & r & Hc & _ & Hb & _).
    rewrite Hc at 1. cbn [append]. rewrite Hb.
    rewrite parse_items; [reflexivity|assumption..|].
    rewrite !str_length_app in *. lia.
  - destruct m as [|[k x] ms]; (destruct fuel as [|fuel]; [cbn in Hl; lia|]);
      [reflexivity|].
    inversion H as [|? ? Hx Hxs]; subst. cbn [snd] in Hx.
    cbn [wf_json] in W. apply andb_true_iff in W as [Wk W].
    cbn [List.forallb snd] in W. apply andb_true_iff in W as [Wx Wxs].
    cbn [stringify_at] in *. cbn [append String.length] in *.
    rewrite parse_value_object, !str_app_assoc, skip_ws_line_break.
    rewrite quote_app at 1.
    rewrite (skip_ws_head quote_char) by reflexivity.
    change (code quote_char =? 125) with false. cbn iota.
    pose proof (parse_member_list ms Hxs k x indent rest fuel Hx Wx Wxs) as P.
    cbn [append] in P. cbn [append]. rewrite !str_app_assoc.
    rewrite P.
    + now rewrite dedupe_unique.
    + rewrite !str_length_app in *. cbn [String.length] in *.
      rewrite !str_length_app in *. lia.
Qed.

(** [JSON.parse(JSON.stringify(v, null, 2))] is [v]. *)
Lemma parse_stringify v : wf_json v = true -> Json.parse (Json.stringify v) = Some v.
Proof.
  intros W. unfold Json.parse, Json.stringify.
  pose proof (parse_value_stringify v W 0%nat "" (S (String.length (stringify_at 0 v)))
                eq_refl ltac:(lia)) as P.
  assert (E : forall s : string, s ++ "" = s).
  { induction s as [|c s IH]; [reflexivity|]. cbn [append]. now rewrite IH. }
  rewrite E in P. now rewrite P.
Qed.

(** ** Configs as JSON *)

Lemma strings_of_map l : ConfigJson.strings_of (map JStr l) = Some l.
Proof. induction l as [|s l IH]; [reflexivity|]. cbn. now rewrite IH. Qed.

Lemma wf_json_strings l : List.forallb wf_json (map JStr l) = true.
Proof. induction l as [|s l IH]; [reflexivity|]. exact IH. Qed.

Lemma wf_json_config c : wf_json (ConfigJson.to_json c) = true.
Proof.
  destruct c as [i n s [d|] [g|] ca ua [e|]];
    unfold ConfigJson.to_json, ConfigJson.optional;
    cbn [id name slug description guidelines createdAt updatedAt
         enabledSourceSlugs app wf_json];
    (apply andb_true_iff; split; [reflexivity|]);
    cbn [List.forallb snd wf_json]; rewrite ?wf_json_strings; reflexivity.
Qed.

Lemma of_json_to_json c : ConfigJson.of_json (ConfigJson.to_json c) = Some c.
Proof.
  destruct c as [i n s [d|] [g|] ca ua [e|]];
    cbv -[ConfigJson.strings_of map]; rewrite ?strings_of_map; reflexivity.
Qed.

(** Reading back a config that was written gives the config. *)
Lemma config_parse_stringify c :
  ConfigJson.parse (ConfigJson.stringify c) = ret c.
Proof.
  unfold ConfigJson.parse, ConfigJson.stringify.
  now rewrite parse_stringify, of_json_to_json by apply wf_json_config.
Qed.

(** ** Loading and saving *)

Lemma config_path_child root slug :
  config_path root slug = (getProjectPath root slug ++ ["config.json"])%list.
Proof. reflexivity. Qed.

Lemma guidelines_path_child root slug :
  guidelines_path root slug = (getProjectPath root slug ++ ["guidelines.md"])%list.
Proof. reflexivity. Qed.

Lemma loadProjectConfig_file root slug w txt c :
  lookup (fs w) (config_path root slug) = Some (File txt) ->
  ConfigJson.parse txt = ret c ->
  loadProjectConfig root slug w = (w, Ret (Some c)).
Proof.
  intros Hf Hp. unfold loadProjectConfig. fold (config_path root slug).
  unfold bind at 1. unfold existsSync. rewrite Hf. cbn [negb].
  unfold try_catch, bind, readFileSync. rewrite Hf, Hp. reflexivity.
Qed.

Lemma loadProjectConfig_inv root slug w w' c :
  loadProjectConfig root slug w = (w', Ret (Some c)) ->
  w' = w /\ exists txt, lookup (fs w) (config_path root slug) = Some (File txt)
                        /\ ConfigJson.parse txt = ret c.
Proof.
  unfold loadProjectConfig. fold (config_path root slug).
  unfold bind at 1. unfold existsSync.
  destruct (lookup (fs w) (config_path root slug)) as [n|] eqn:Hf; cbn [negb];
    [|discriminate].
  unfold try_catch, bind, readFileSync. rewrite Hf.
  destruct n as [txt|es|]; try discriminate.
  unfold ConfigJson.parse.
  destruct (Json.parse txt) as [v|] eqn:Pv; [|discriminate].
  destruct (ConfigJson.of_json v) as [c'|] eqn:Pc; [|discriminate].
  unfold ret. intros [= <- <-]. split; [reflexivity|].
  exists txt. split; [reflexivity|]. now rewrite Pv, Pc.
Qed.

Lemma write_change_file txt o r :
  write_change txt o = Some r -> r = Some (File txt).
Proof. destruct o as [[]|]; simpl; congruence. Qed.

Lemma write_succeeds t d n txt es :
  lookup t d = Some (Dir es) -> file_or_free t (d ++ [n])%list ->
  exists t', alter (write_change txt) (d ++ [n])%list t = Some t'.
Proof.
  intros Hd Hf. unfold file_or_free in Hf. rewrite lookup_child, Hd in Hf.
  apply (alter_succeeds _ d n t es (Some (File txt)) Hd).
  destruct (Entries.find n es) as [[]|]; simpl in *; tauto.
Qed.

(** What [saveProjectConfig] does when it can do its work. *)
Lemma saveProjectConfig_spec root slug c w t1 :
  mkdir_p (getProjectPath root slug) (fs w) = Some t1 ->
  file_or_free t1 (config_path root slug) ->
  exists t2,
    alter (write_change (ConfigJson.stringify (with_updatedAt c (clock w (ticks w)))))
          (config_path root slug) t1 = Some t2
    /\ saveProjectConfig root slug c w
       = (mkWorld t2 (clock w) (S (ticks w)) (entropy w) (draws w), Ret tt)
    /\ lookup t2 (config_path root slug)
       = Some (File (ConfigJson.stringify (with_updatedAt c (clock w (ticks w))))).
Proof.
  intros Hmk Hf. destruct w as [t clk tk ent dr]. cbn [fs clock ticks entropy draws] in *.
  destruct (mkdir_p_dir_at _ _ _ Hmk) as [es He].
  destruct (write_succeeds t1 (getProjectPath root slug) "config.json"
              (ConfigJson.stringify (with_updatedAt c (clk tk))) es He Hf)
    as [t2 Hw].
  rewrite <- config_path_child in Hw.
  exists t2. split; [exact Hw|]. split.
  - unfold saveProjectConfig. fold (config_path root slug).
    set (w := mkWorld t clk tk ent dr).
    rewrite (bind_run _ _ _ _ _ (existsSync_run _ w)).
    assert (S2 : (if negb (exists_at (fs w) (getProjectPath root slug))
                  then mkdirSync_recursive (getProjectPath root slug)
                  else ret tt) w = (with_fs w t1, Ret tt)).
    { unfold exists_at, w. cbn [fs].
      destruct (lookup t (getProjectPath root slug)) as [n|] eqn:L; cbn [negb].
      - unfold ret, with_fs. cbn [fs clock ticks entropy draws].
        now rewrite (mkdir_p_present _ _ _ _ Hmk L).
      - unfold mkdirSync_recursive, update_fs. cbn [fs]. now rewrite Hmk. }
    run_with S2.
    run_with (eq_refl : Date_now (with_fs w t1)
                        = (mkWorld t1 clk (S tk) ent dr, Ret (clk tk))).
    unfold writeFileSync, update_fs. cbn [fs]. now rewrite Hw.
  - pose proof (lookup_alter_same _ _ _ _ Hw) as S.
    destruct (write_change _ _) as [r|] eqn:E; [|discriminate].
    apply write_change_file in E. congruence.
Qed.

(** C1: when [saveProjectConfig] can do its work it returns, and
    [loadProjectConfig] then returns a config that agrees with the saved
    one in [id], [name], [slug], [description], [guidelines], [createdAt]
    and [enabledSourceSlugs], and whose [updatedAt] is the time read at the
    save, whatever [updatedAt] the saved config had. *)
Theorem saveProjectConfig_round_trip root projectSlug c w :
  config_writable (fs w) root projectSlug ->
  exists w1 c',
    saveProjectConfig root projectSlug c w = (w1, Ret tt)
    /\ loadProjectConfig root projectSlug w1 = (w1, Ret (Some c'))
    /\ id c' = id c
    /\ name c' = name c
    /\ slug c' = slug c
    /\ description c' = description c
    /\ guidelines c' = guidelines c
    /\ createdAt c' = createdAt c
    /\ enabledSourceSlugs c' = enabledSourceSlugs c
    /\ updatedAt c' = clock w (ticks w).
Proof.
  intros (t1 & Hmk & Hf).
  destruct (saveProjectConfig_spec root projectSlug c w t1 Hmk Hf)
    as (t2 & _ & Hrun & Hcfg).
  do 2 eexists. split; [exact Hrun|]. split.
  - apply loadProjectConfig_file with (txt := ConfigJson.stringify
                                                (with_updatedAt c (clock w (ticks w)))).
    + exact Hcfg.
    + apply config_parse_stringify.
  - repeat split.
Qed.

(** [saveProjectConfig] returns exactly when it can do its work. *)
Lemma saveProjectConfig_returns root slug c w :
  (exists w1, saveProjectConfig root slug c w = (w1, Ret tt))
  <-> config_writable (fs w) root slug.
Proof.
  split.
  - intros [w1 H]. unfold saveProjectConfig in H. fold (config_path root slug) in H.
    apply bind_ret_inv in H as (wa & e & He & H).
    apply bind_ret_inv in H as (wb & [] & Hm & H).
    apply bind_ret_inv in H as (wc & now & Hn & H).
    rewrite existsSync_run in He. injection He as <- <-.
    injection Hn as <- <-. cbn [fs] in H.
    unfold writeFileSync, update_fs in H. cbn [fs] in H.
    destruct (alter _ (config_path root slug) (fs wb)) as [t2|] eqn:Hw;
      [|discriminate].
    assert (Hmk : mkdir_p (getProjectPath root slug) (fs w) = Some (fs wb)).
    { unfold exists_at in Hm.
      destruct (lookup (fs w) (getProjectPath root slug)) as [n|] eqn:L;
        cbn [negb] in Hm.
      - injection Hm as <-.
        destruct (alter_parent_dir _ _ _ _ Hw) as [_ [es He]].
        rewrite config_path_child, removelast_last, L in He.
        injection He as ->. now apply mkdir_p_existing with (es := es).
      - unfold mkdirSync_recursive, update_fs in Hm.
        destruct (mkdir_p _ (fs w)) as [t1|]; [|discriminate].
        now injection Hm as <-. }
    exists (fs wb). split; [exact Hmk|].
    pose proof (lookup_alter_same _ _ _ _ Hw) as S. unfold file_or_free.
    destruct (lookup (fs wb) (config_path root slug)) as [[]|]; simpl in S;
      try discriminate; exact I.
  - intros (t1 & Hmk & Hf).
    destruct (saveProjectConfig_spec root slug c w t1 Hmk Hf) as (t2 & _ & Hrun & _).
    eauto.
Qed.

Lemma saveProjectConfig_round_trip_witness :
  exists w1,
    saveProjectConfig "/ws" "my-plan" stale_config fresh_workspace = (w1, Ret tt)
    /\ loadProjectConfig "/ws" "my-plan" w1
       = (w1, Ret (Some (mkProjectConfig "proj_0a1b2c3d" "My Plan" "my-plan"
                                         (Some "notes") None 1600000000000%Z
                                         1700000000000%Z (Some ["docs"; "web"])))).
Proof.
  destruct (saveProjectConfig_round_trip "/ws" "my-plan" stale_config fresh_workspace)
    as (w1 & c' & Hrun & Hload & Hid & Hname & Hslug & Hdesc & Hguide & Hcreated
        & Hsources & Hupdated).
  - eexists. split; [vm_compute; reflexivity|exact I].
  - exists w1. split; [exact Hrun|]. rewrite Hload.
    destruct c' as [i n s d g ca ua e].
    cbn [id name slug description guidelines createdAt updatedAt enabledSourceSlugs]
      in *.
    subst. reflexivity.
Defined.

(** ** Updating a project *)

Lemma config_beside_guidelines root slug :
  is_prefix (config_path root slug) (guidelines_path root slug) = false
  /\ is_prefix (guidelines_path root slug) (config_path root slug) = false.
Proof.
  rewrite config_path_child, guidelines_path_child.
  induction (getProjectPath root slug) as [|a p [IH1 IH2]]; [split; reflexivity|].
  cbn [app is_prefix]. now rewrite String.eqb_refl, IH1, IH2.
Qed.

(** The first part of [updateProject] on an existing project: the merged
    config is written, and nothing beside [config.json] changes. *)
Lemma updateProject_spec root slug u w w0 c :
  loadProjectConfig root slug w = (w0, Ret (Some c)) ->
  exists t2,
    lookup t2 (config_path root slug)
    = Some (File (ConfigJson.stringify
                    (with_updatedAt (spread_updates c u (clock w (ticks w)))
                                    (clock w (S (ticks w))))))
    /\ (forall q, is_prefix (config_path root slug) q = false ->
                  is_prefix q (config_path root slug) = false ->
                  lookup t2 q = lookup (fs w) q)
    /\ updateProject root slug u w
       = bind (guidelines_step root slug u)
              (fun _ => ret (Some (spread_updates c u (clock w (ticks w)))))
              (mkWorld t2 (clock w) (S (S (ticks w))) (entropy w) (draws w)).
Proof.
  intros Hload.
  destruct (loadProjectConfig_inv _ _ _ _ _ Hload) as (-> & txt & Hf & Hp).
  destruct w as [t clk tk ent dr]. cbn [fs clock ticks entropy draws] in *.
  set (w := mkWorld t clk tk ent dr) in *.
  set (w1 := mkWorld t clk (S tk) ent dr).
  assert (Hdir : dir_at t (getProjectPath root slug)).
  { rewrite config_path_child in Hf.
    eapply lookup_prefix_dir; [exact Hf|discriminate]. }
  destruct Hdir as [es He].
  destruct (saveProjectConfig_spec root slug (spread_updates c u (clk tk)) w1 t)
    as (t2 & Hw & Hrun & Hcfg).
  { now apply mkdir_p_existing with (es := es). }
  { unfold file_or_free. now rewrite Hf. }
  exists t2. split; [exact Hcfg|]. split.
  { intros q H1 H2. eapply lookup_alter_frame; eauto. }
  unfold updateProject. run_with Hload.
  run_with (eq_refl : Date_now w = (w1, Ret (clk tk))).
  run_with Hrun. reflexivity.
Qed.


(** What the last step does to [guidelines.md] when a regular file or
    nothing is there. *)
Lemma guidelines_step_run root slug u w :
  file_or_free (fs w) (guidelines_path root slug) ->
  dir_at (fs w) (getProjectPath root slug) ->
  exists w',
    guidelines_step root slug u w = (w', Ret tt)
    /\ lookup (fs w') (guidelines_path root slug)
       = match upd_guidelines u with
         | Value g => if String.eqb g EmptyString then None else Some (File g)
         | Absent | Undefined => lookup (fs w) (guidelines_path root slug)
         end.
Proof.
  intros Hf [es He]. unfold guidelines_step.
  fold (guidelines_path root slug).
  destruct (upd_guidelines u) as [| |g]; [now exists w|now exists w|].
  unfold truthy. destruct (String.eqb g EmptyString); cbn [negb].
  - unfold bind, existsSync. unfold file_or_free in Hf.
    destruct (lookup (fs w) (guidelines_path root slug)) as [n|] eqn:L.
    + destruct n as [txt|es'|]; try contradiction.
      rewrite guidelines_path_child in *.
      destruct (alter_succeeds unlink_change _ "guidelines.md" (fs w) es None He)
        as [t' Hw].
      { rewrite lookup_child, He in L. now rewrite L. }
      unfold unlinkSync, update_fs. rewrite Hw.
      eexists. split; [reflexivity|]. cbn [fs with_fs].
      pose proof (lookup_alter_same _ _ _ _ Hw) as S. rewrite L in S.
      simpl in S. congruence.
    + eexists. split; [reflexivity|]. exact L.
  - rewrite guidelines_path_child in *.
    destruct (write_succeeds (fs w) _ "guidelines.md" g es He Hf) as [t' Hw].
    unfold writeFileSync, update_fs. rewrite Hw.
    eexists. split; [reflexivity|]. cbn [fs with_fs].
    pose proof (lookup_alter_same _ _ _ _ Hw) as S.
    destruct (write_change _ _) as [r|] eqn:E; [|discriminate].
    apply write_change_file in E. congruence.
Qed.

(** C8: on an existing project whose [guidelines.md] is a regular file or
    missing, [updateProject] returns.  When the update gives [guidelines]
    as a string, [guidelines.md] afterwards holds that text when it is not
    empty, and is gone when it is the empty string.  When the update has no
    [guidelines] property, or has it with the value [undefined],
    [guidelines.md] is left as it was. *)
Theorem updateProject_guidelines root slug u w w0 c :
  loadProjectConfig root slug w = (w0, Ret (Some c)) ->
  file_or_free (fs w) (guidelines_path root slug) ->
  exists w' c',
    updateProject root slug u w = (w', Ret (Some c'))
    /\ lookup (fs w') (guidelines_path root slug)
       = match upd_guidelines u with
         | Value g => if String.eqb g EmptyString then None else Some (File g)
         | Absent | Undefined => lookup (fs w) (guidelines_path root slug)
         end.
Proof.
  intros Hload Hf.
  destruct (updateProject_spec root slug u w w0 c Hload) as (t2 & Hcfg & Hframe & Hrun).
  destruct (config_beside_guidelines root slug) as [H1 H2].
  set (w2 := mkWorld t2 _ _ _ _) in Hrun.
  destruct (guidelines_step_run root slug u w2) as (w' & Hstep & Hg).
  { unfold file_or_free. cbn [fs w2]. now rewrite (Hframe _ H1 H2). }
  { cbn [fs w2]. rewrite config_path_child in Hcfg.
    eapply lookup_prefix_dir; [exact Hcfg|discriminate]. }
  rewrite Hrun. run_with Hstep. do 2 eexists. split; [reflexivity|].
  rewrite Hg. cbn [fs w2]. now rewrite (Hframe _ H1 H2).
Qed.


(** ** Trees *)

Lemma node_nested_ind (P : node -> Prop) :
  (forall c, P (File c)) -> P Special ->
  (forall es, Forall (fun e => P (snd e)) es -> P (Dir es)) ->
  forall t, P t.
Proof.
  intros Hfile Hspecial Hdir.
  refine (fix IH (t : node) : P t :=
            match t with
            | File c => Hfile c
            | Special => Hspecial
            | Dir es =>
                Hdir es ((fix entries (l : list (string * node))
                            : Forall (fun e => P (snd e)) l :=
                            match l with
                            | [] => Forall_nil _
                            | e :: r => Forall_cons e (IH (snd e)) (entries r)
                            end) es)
            end).
Qed.

Lemma find_in k es c : Entries.find k es = Some c -> In (k, c) es.
Proof.
  induction es as [|[k0 c0] r IH]; simpl; [discriminate|].
  destruct (String.eqb k0 k) eqn:E.
  - apply String.eqb_eq in E. intros [= ->]. subst. now left.
  - intros H. right. auto.
Qed.

Lemma in_find_unique k c es :
  unique_keys (map fst es) = true -> In (k, c) es -> Entries.find k es = Some c.
Proof.
  induction es as [|[k0 c0] r IH]; [contradiction|].
  cbn [map fst unique_keys]. intros U [E|Hin].
  - injection E as -> ->. simpl. now rewrite String.eqb_refl.
  - apply andb_true_iff in U as [U1 U2]. simpl.
    destruct (String.eqb k0 k) eqn:E; [|auto].
    apply String.eqb_eq in E. subst k0. exfalso.
    apply negb_true_iff in U1.
    assert (X : List.existsb (String.eqb k) (map fst r) = true).
    { apply existsb_exists. exists k. split; [|apply String.eqb_refl].
      apply in_map_iff. now exists (k, c). }
    congruence.
Qed.

Lemma height_child k c es : In (k, c) es -> (height c < height (Dir es))%nat.
Proof.
  intros Hin. cbn [height].
  assert (H : (height c <= list_max (map (fun e => height (snd e)) es))%nat).
  { pose proof (proj1 (list_max_le (map (fun e => height (snd e)) es) _)
                  (Nat.le_refl _)) as F.
    rewrite Forall_forall in F. apply F.
    apply in_map_iff. now exists (k, c). }
  lia.
Qed.

Lemma well_formed_child k c es :
  well_formed (Dir es) = true -> In (k, c) es ->
  valid_segment k = true /\ well_formed c = true.
Proof.
  unfold well_formed. cbn [names_valid names_unique]. intros H Hin.
  apply andb_true_iff in H as [V U]. apply andb_true_iff in U as [_ U].
  rewrite forallb_forall in V, U.
  specialize (V _ Hin). specialize (U _ Hin). cbn [fst snd] in *.
  apply andb_true_iff in V as [V1 V2]. now rewrite V1, V2, U.
Qed.

Lemma well_formed_unique es :
  well_formed (Dir es) = true -> unique_keys (map fst es) = true.
Proof.
  unfold well_formed. cbn [names_unique]. intros H.
  apply andb_true_iff in H as [_ U]. now apply andb_true_iff in U as [U _].
Qed.

Lemma well_formed_lookup t p n :
  well_formed t = true -> lookup t p = Some n ->
  well_formed n = true /\ (height n <= height t)%nat.
Proof.
  revert t; induction p as [|k p IH]; intros t W H.
  - injection H as <-. auto.
  - destruct t as [c|es|]; try discriminate. simpl in H.
    destruct (Entries.find k es) as [c|] eqn:E; [|discriminate].
    apply find_in in E.
    destruct (well_formed_child _ _ _ W E) as [_ Wc].
    destruct (IH _ Wc H) as [Wn Hn]. split; [exact Wn|].
    pose proof (height_child _ _ _ E). lia.
Qed.

(** ** Normal paths *)

Lemma segments_slash_free s : Forall (fun x => slash_free x = true) (segments s).
Proof.
  induction s as [|c r IH]; [repeat constructor|].
  cbn [segments]. destruct (Ascii.eqb c "/") eqn:E.
  - constructor; [reflexivity|exact IH].
  - destruct (segments r) as [|seg rest]; [repeat constructor; cbn; now rewrite E|].
    inversion IH; subst. constructor; [|assumption].
    unfold slash_free in *. cbn. now rewrite E.
Qed.

Lemma normal_removelast p : normal p = true -> normal (removelast p) = true.
Proof.
  unfold normal. induction p as [|a p IH]; [reflexivity|].
  cbn [List.forallb]. intros H. apply andb_true_iff in H as [Ha Hp].
  destruct p as [|b p]; [reflexivity|].
  change (removelast (a :: b :: p)) with (a :: removelast (b :: p)).
  cbn [List.forallb]. now rewrite Ha, IH.
Qed.

Lemma normal_app p q : normal (p ++ q)%list = normal p && normal q.
Proof. apply forallb_app. Qed.

Lemma step_segment_normal acc seg :
  slash_free seg = true -> normal acc = true -> normal (step_segment acc seg) = true.
Proof.
  intros Hs Ha. unfold step_segment.
  destruct (String.eqb seg "") eqn:E1; [exact Ha|].
  destruct (String.eqb seg ".") eqn:E2; [exact Ha|].
  destruct (String.eqb seg "..") eqn:E3; [now apply normal_removelast|].
  rewrite normal_app, Ha. unfold normal, valid_segment. cbn [List.forallb].
  unfold slash_free in Hs. now rewrite E1, E2, E3, Hs.
Qed.

Lemma join_normal base s : normal base = true -> normal (join base s) = true.
Proof.
  unfold join. pose proof (segments_slash_free s) as F. revert base.
  induction F as [|seg r Hseg _ IH]; intros base Hb; [exact Hb|].
  apply IH. now apply step_segment_normal.
Qed.

Lemma files_root_normal root slug : normal (getProjectFilesPath root slug) = true.
Proof.
  unfold getProjectFilesPath, getProjectPath, getWorkspaceProjectsPath, resolve.
  repeat apply join_normal. reflexivity.
Qed.

Lemma valid_segment_slash_free s : valid_segment s = true -> slash_free s = true.
Proof. unfold valid_segment. intros H. now apply andb_true_iff in H as [_ H]. Qed.

Lemma segments_app_slash x s :
  slash_free x = true -> segments (x ++ String "/" s) = x :: segments s.
Proof.
  unfold slash_free. induction x as [|c x IH]; intros H.
  - reflexivity.
  - cbn in H. apply andb_true_iff in H as [Hc Hx]. cbn [append segments].
    apply negb_true_iff in Hc. now rewrite Hc, (IH Hx).
Qed.

Lemma segments_concat l :
  l <> [] -> Forall (fun x => slash_free x = true) l ->
  segments (String.concat "/" l) = l.
Proof.
  induction l as [|x r IH]; [congruence|]. intros _ F.
  inversion F as [|? ? Hx Hr]; subst.
  destruct r as [|y r].
  - cbn [String.concat]. now apply segments_no_slash.
  - cbn [String.concat]. cbn [String.concat] in IH.
    change ("/" ++ ?s) with (String "/" s).
    rewrite segments_app_slash by assumption.
    f_equal. apply IH; [discriminate|assumption].
Qed.

Lemma relative_segments_shape from to :
  exists c f t,
    from = (c ++ f)%list /\ to = (c ++ t)%list
    /\ relative_segments from to = (List.repeat ".." (List.length f) ++ t)%list.
Proof.
  revert to; induction from as [|a from IH]; intros to.
  - exists [], [], to. auto.
  - destruct to as [|b to].
    + exists [], (a :: from), []. auto.
    + cbn [relative_segments]. destruct (String.eqb a b) eqn:E.
      * apply String.eqb_eq in E. subst b.
        destruct (IH to) as (c & f & t & -> & -> & R).
        exists (a :: c), f, t. auto.
      * exists [], (a :: from), (b :: to). auto.
Qed.

Lemma fold_step_up c f :
  normal f = true ->
  fold_left step_segment (List.repeat ".." (List.length f)) (c ++ f)%list = c.
Proof.
  revert c. induction f as [|a f IH] using rev_ind; intros c Hf.
  - now rewrite List.app_nil_r.
  - rewrite length_app, Nat.add_comm. cbn [List.length Nat.add List.repeat fold_left].
    change (step_segment (c ++ f ++ [a])%list "..") with (removelast (c ++ f ++ [a])%list).
    rewrite List.app_assoc, removelast_last. apply IH.
    rewrite normal_app in Hf. now apply andb_true_iff in Hf as [Hf _].
Qed.

Lemma fold_step_down c t :
  normal t = true -> fold_left step_segment t c = (c ++ t)%list.
Proof.
  revert c; induction t as [|a t IH]; intros c Ht.
  - now rewrite List.app_nil_r.
  - unfold normal in Ht. cbn [List.forallb] in Ht.
    apply andb_true_iff in Ht as [Ha Ht]. cbn [fold_left].
    assert (E : step_segment c a = (c ++ [a])%list).
    { pose proof (join_valid c a Ha) as J. unfold join in J.
      rewrite (segments_no_slash a (valid_segment_slash_free a Ha)) in J.
      exact J. }
    rewrite E, (IH _ Ht), <- List.app_assoc. reflexivity.
Qed.

Lemma repeat_up_slash_free n :
  Forall (fun x => slash_free x = true) (List.repeat ".." n).
Proof. induction n; constructor; auto. Qed.

(** [join(from, relative(from, to))] is [to]. *)
Lemma join_relative from to :
  normal from = true -> normal to = true -> join from (relative from to) = to.
Proof.
  intros Hf Ht.
  destruct (relative_segments_shape from to) as (c & f & t & -> & -> & R).
  unfold join, relative. rewrite R.
  rewrite !normal_app in *.
  apply andb_true_iff in Hf as [Hc Hf]. apply andb_true_iff in Ht as [_ Ht].
  destruct (List.repeat ".." (List.length f) ++ t)%list as [|x l] eqn:E.
  - apply app_eq_nil in E as [E1 ->].
    destruct f; [|discriminate]. cbn. now rewrite !List.app_nil_r.
  - rewrite <- E, segments_concat.
    + now rewrite fold_left_app, fold_step_up, fold_step_down.
    + rewrite E. discriminate.
    + apply Forall_app. split; [apply repeat_up_slash_free|].
      apply Forall_forall. intros s Hs. apply valid_segment_slash_free.
      unfold normal in Ht. rewrite forallb_forall in Ht. auto.
Qed.

(** ** The walks compute the functions of the tree *)

Lemma count_at_dir t p es : lookup t p = Some (Dir es) ->
  count_at t p = count_entries count_node es.
Proof. unfold count_at. now intros ->. Qed.

Lemma countFiles_count fuel :
  forall p w,
    (0 < fuel)%nat ->
    (forall n, lookup (fs w) p = Some n ->
               well_formed n = true /\ (height n < fuel)%nat) ->
    countFiles fuel p w = (w, Ret (count_at (fs w) p)).
Proof.
  induction fuel as [|fuel IH]; intros p w Hpos Hn; [lia|].
  cbn [countFiles]. rewrite (bind_run _ _ _ _ _ (existsSync_run p w)).
  unfold exists_at, count_at.
  destruct (lookup (fs w) p) as [n|] eqn:L; cbn [negb]; [|reflexivity].
  destruct (Hn n eq_refl) as [W Hh].
  unfold try_catch.
  destruct n as [c|es|].
  - unfold bind, readdirSync. now rewrite L.
  - assert (R : readdirSync p w = (w, Ret (map dirent_of es))).
    { unfold readdirSync. now rewrite L. }
    run_with R.
    match goal with
    | |- (let (_, _) := for_each _ ?b _ _ in _) = _ => set (body := b)
    | |- match for_each _ ?b _ _ with _ => _ end = _ => set (body := b)
    end.
    assert (Loop : forall l acc,
               (forall k c, In (k, c) l -> In (k, c) es) ->
               for_each (map dirent_of l) body acc w
               = (w, Ret (acc + count_entries count_node l))).
    { induction l as [|[k c] r IHl]; intros acc Hsub.
      - cbn. now rewrite N.add_0_r.
      - assert (Hin : In (k, c) es) by (apply Hsub; now left).
        assert (Hr : forall k' c', In (k', c') r -> In (k', c') es)
          by (intros; apply Hsub; now right).
        destruct (well_formed_child _ _ _ W Hin) as [Vk Wc].
        cbn [map for_each]. unfold body at 1. cbn [dirent_of fst snd isFile
          isDirectory dirent_name].
        destruct c as [txt|es'|]; cbn [is_file is_dir count_entries].
        + rewrite (bind_run _ _ _ _ _ (eq_refl : ret (acc + 1) w = (w, Ret (acc + 1)))).
          rewrite (IHl _ Hr). do 2 f_equal. lia.
        + assert (Hc : lookup (fs w) (p ++ [k])%list = Some (Dir es')).
          { rewrite lookup_child, L.
            apply in_find_unique; [now apply well_formed_unique|exact Hin]. }
          assert (Hrec : countFiles fuel (join p k) w
                         = (w, Ret (count_node (Dir es')))).
          { rewrite (join_valid p k Vk).
            rewrite (IH (p ++ [k])%list w).
            - unfold count_at. now rewrite Hc.
            - pose proof (height_child _ _ _ Hin). lia.
            - intros n Hlk. rewrite Hc in Hlk. injection Hlk as <-.
              split; [exact Wc|]. pose proof (height_child _ _ _ Hin). lia. }
          assert (Hbody : (n <- countFiles fuel (join p k) ;; ret (acc + n)) w
                          = (w, Ret (acc + count_node (Dir es'))))
            by now run_with Hrec.
          run_with Hbody.
          rewrite (IHl _ Hr). do 2 f_equal. lia.
        + rewrite (bind_run _ _ _ _ _ (eq_refl : ret acc w = (w, Ret acc))).
          now rewrite (IHl _ Hr). }
    rewrite (Loop es 0 (fun _ _ H => H)). reflexivity.
  - unfold bind, readdirSync. now rewrite L.
Qed.

Lemma listed_path_normal root slug sub : normal (listed_path root slug sub) = true.
Proof.
  unfold listed_path. destruct sub as [s|]; [|apply files_root_normal].
  destruct (truthy (Some s)); [apply join_normal|]; apply files_root_normal.
Qed.

Lemma join_empty p : join p "" = p.
Proof. reflexivity. Qed.

(** The directory a recursive call reads is the subdirectory itself. *)
Lemma listed_path_relative root slug d k :
  normal d = true -> valid_segment k = true ->
  listed_path root slug
              (Some (relative (getProjectFilesPath root slug) (d ++ [k])%list))
  = (d ++ [k])%list.
Proof.
  intros Hd Hk.
  assert (Hn : normal (d ++ [k])%list = true).
  { rewrite normal_app, Hd. unfold normal. cbn. now rewrite Hk. }
  pose proof (join_relative _ _ (files_root_normal root slug) Hn) as J.
  unfold listed_path, truthy.
  destruct (String.eqb (relative _ _) "") eqn:E; cbn [negb]; [|exact J].
  apply String.eqb_eq in E. rewrite E, join_empty in J. exact J.
Qed.

Lemma listProjectFiles_list cmp fuel root slug :
  forall sub w,
    (0 < fuel)%nat ->
    (forall n, lookup (fs w) (listed_path root slug sub) = Some n ->
               well_formed n = true /\ (height n < fuel)%nat) ->
    listProjectFiles cmp fuel root slug sub w
    = (w, Ret (list_at cmp (getProjectFilesPath root slug) (fs w)
                       (listed_path root slug sub))).
Proof.
  induction fuel as [|fuel IH]; intros sub w Hpos Hn; [lia|].
  cbn [listProjectFiles]. fold (listed_path root slug sub).
  set (R := getProjectFilesPath root slug) in *.
  set (D := listed_path root slug sub) in *.
  assert (ND : normal D = true) by apply listed_path_normal.
  rewrite (bind_run _ _ _ _ _ (existsSync_run D w)).
  unfold exists_at, list_at.
  destruct (lookup (fs w) D) as [n|] eqn:L; cbn [negb]; [|reflexivity].
  destruct (Hn n eq_refl) as [W Hh].
  unfold try_catch.
  destruct n as [c|es|].
  - unfold bind, readdirSync. now rewrite L.
  - assert (Rd : readdirSync D w = (w, Ret (map dirent_of es))).
    { unfold readdirSync. now rewrite L. }
    run_with Rd.
    match goal with
    | |- context [for_each _ ?b _] => set (body := b)
    end.
    assert (Loop : forall l acc,
               (forall k c, In (k, c) l -> In (k, c) es) ->
               for_each (map dirent_of l) body acc w
               = (w, Ret (acc ++ list_entries R (fun p c => list_node cmp R p c)
                                              D l)%list)).
    { induction l as [|[k c] r IHl]; intros acc Hsub.
      - cbn. now rewrite List.app_nil_r.
      - assert (Hin : In (k, c) es) by (apply Hsub; now left).
        assert (Hr : forall k' c', In (k', c') r -> In (k', c') es)
          by (intros; apply Hsub; now right).
        destruct (well_formed_child _ _ _ W Hin) as [Vk Wc].
        assert (Hc : lookup (fs w) (D ++ [k])%list = Some c).
        { rewrite lookup_child, L.
          apply in_find_unique; [now apply well_formed_unique|exact Hin]. }
        cbn [map for_each list_entries]. unfold body at 1.
        cbn [dirent_of fst snd isFile isDirectory dirent_name].
        rewrite (join_valid D k Vk).
        destruct (startsWith "." k).
        { rewrite (bind_run _ _ _ _ _ (eq_refl : ret acc w = (w, Ret acc))).
          now rewrite (IHl _ Hr). }
        destruct c as [txt|es'|]; cbn [is_file is_dir].
        + assert (Hbody :
                   (stat <- statSync (D ++ [k])%list ;;
                    ret (acc ++ [mkProjectFile k (relative R (D ++ [k])%list) TFile
                                               (Some (stats_size stat)) None])%list) w
                   = (w, Ret (acc ++ [mkProjectFile k (relative R (D ++ [k])%list)
                                                    TFile (Some (utf8_length txt))
                                                    None])%list)).
          { unfold bind, statSync. now rewrite Hc. }
          run_with Hbody. rewrite (IHl _ Hr), <- List.app_assoc. reflexivity.
        + assert (Hrec : listProjectFiles cmp fuel root slug
                           (Some (relative R (D ++ [k])%list)) w
                         = (w, Ret (list_node cmp R (D ++ [k])%list (Dir es')))).
          { rewrite (IH (Some (relative R (D ++ [k])%list)) w);
              unfold R; rewrite ?(listed_path_relative root slug D k ND Vk); fold R.
            - unfold list_at. now rewrite Hc.
            - pose proof (height_child _ _ _ Hin). lia.
            - intros n Hlk. rewrite Hc in Hlk. injection Hlk as <-.
              split; [exact Wc|]. pose proof (height_child _ _ _ Hin). lia. }
          assert (Hbody :
                   (children <- listProjectFiles cmp fuel root slug
                                  (Some (relative R (D ++ [k])%list)) ;;
                    ret (acc ++ [mkProjectFile k (relative R (D ++ [k])%list)
                                               TDirectory None (Some children)])%list) w
                   = (w, Ret (acc ++ [mkProjectFile k (relative R (D ++ [k])%list)
                                        TDirectory None
                                        (Some (list_node cmp R (D ++ [k])%list
                                                         (Dir es')))])%list))
            by now run_with Hrec.
          run_with Hbody. rewrite (IHl _ Hr), <- List.app_assoc. reflexivity.
        + rewrite (bind_run _ _ _ _ _ (eq_refl : ret acc w = (w, Ret acc))).
          now rewrite (IHl _ Hr). }
    rewrite (bind_run _ _ _ _ _ (Loop es [] (fun _ _ H => H))). reflexivity.
  - unfold bind, readdirSync. now rewrite L.
Qed.

(** ** Entries that are neither files nor directories *)

Lemma count_node_erase t : count_node (erase_special t) = count_node t.
Proof.
  induction t as [c| |es IH] using node_nested_ind; try reflexivity.
  cbn [erase_special count_node].
  induction IH as [|[k c] r Hc _ IHr]; [reflexivity|].
  cbn [snd] in Hc.
  destruct c as [txt|es'|]; cbn [erase_entries count_entries].
  - now rewrite IHr.
  - cbn [erase_special] in *. cbn [count_entries]. now rewrite Hc, IHr.
  - exact IHr.
Qed.

Lemma list_node_erase cmp R t :
  forall D, list_node cmp R D (erase_special t) = list_node cmp R D t.
Proof.
  induction t as [c| |es IH] using node_nested_ind; try reflexivity.
  intros D. cbn [erase_special list_node]. f_equal.
  induction IH as [|[k c] r Hc _ IHr]; [reflexivity|].
  cbn [snd] in Hc.
  destruct c as [txt|es'|]; cbn [erase_entries list_entries];
    destruct (startsWith "." k); try exact IHr.
  - now rewrite IHr.
  - cbn [erase_special] in *. cbn [list_entries]. now rewrite Hc, IHr.
Qed.

Lemma find_absent k es :
  List.existsb (String.eqb k) (map fst es) = false -> Entries.find k es = None.
Proof.
  induction es as [|[k0 c0] r IH]; [reflexivity|].
  cbn [map fst List.existsb Entries.find]. intros H.
  apply orb_false_iff in H as [H1 H2]. rewrite String.eqb_sym in H1.
  now rewrite H1, IH.
Qed.

Lemma find_erase_none k es :
  Entries.find k es = None -> Entries.find k (erase_entries erase_special es) = None.
Proof.
  induction es as [|[k0 c0] r IH]; [reflexivity|].
  cbn [Entries.find]. destruct (String.eqb k0 k) eqn:E; [discriminate|].
  intros H. destruct c0; cbn [erase_entries Entries.find]; rewrite ?E; auto.
Qed.

Lemma find_erase k es c :
  unique_keys (map fst es) = true -> Entries.find k es = Some c ->
  Entries.find k (erase_entries erase_special es)
  = match c with Special => None | _ => Some (erase_special c) end.
Proof.
  induction es as [|[k0 c0] r IH]; [discriminate|].
  cbn [map fst unique_keys Entries.find]. intros U H.
  apply andb_true_iff in U as [U1 U2]. apply negb_true_iff in U1.
  destruct (String.eqb k0 k) eqn:E.
  - injection H as ->. apply String.eqb_eq in E. subst k0.
    destruct c; cbn [erase_entries Entries.find]; rewrite ?String.eqb_refl;
      try reflexivity.
    apply find_erase_none. now apply find_absent.
  - destruct c0; cbn [erase_entries Entries.find]; rewrite ?E; auto.
Qed.

(** Looking up a path in the erased tree. *)
Lemma lookup_erase t :
  forall p,
    names_unique t = true ->
    match lookup t p with
    | None => lookup (erase_special t) p = None
    | Some Special =>
        lookup (erase_special t) p = None
        \/ lookup (erase_special t) p = Some Special
    | Some n => lookup (erase_special t) p = Some (erase_special n)
    end.
Proof.
  induction t as [c| |es IH] using node_nested_ind; intros p U.
  - destruct p; reflexivity.
  - destruct p; [now right|reflexivity].
  - destruct p as [|k p]; [reflexivity|].
    cbn [names_unique] in U. apply andb_true_iff in U as [U1 U2].
    cbn [erase_special lookup].
    destruct (Entries.find k es) as [c|] eqn:E.
    + rewrite (find_erase k es c U1 E).
      pose proof (find_in _ _ _ E) as Hin.
      rewrite Forall_forall in IH. specialize (IH _ Hin p). cbn [snd] in IH.
      rewrite forallb_forall in U2. specialize (U2 _ Hin). cbn [snd] in U2.
      specialize (IH U2).
      destruct c as [txt|es'|].
      * exact IH.
      * exact IH.
      * destruct p; [now left|reflexivity].
    + now rewrite (find_erase_none k es E).
Qed.

Lemma count_at_erase t p :
  names_unique t = true -> count_at (erase_special t) p = count_at t p.
Proof.
  intros U. pose proof (lookup_erase t p U) as H. unfold count_at.
  destruct (lookup t p) as [[c|es|]|].
  - now rewrite H.
  - rewrite H. apply count_node_erase.
  - destruct H as [-> | ->]; reflexivity.
  - now rewrite H.
Qed.

Lemma list_at_erase cmp R t p :
  names_unique t = true -> list_at cmp R (erase_special t) p = list_at cmp R t p.
Proof.
  intros U. pose proof (lookup_erase t p U) as H. unfold list_at.
  destruct (lookup t p) as [[c|es|]|].
  - now rewrite H.
  - rewrite H. apply list_node_erase.
  - destruct H as [-> | ->]; reflexivity.
  - now rewrite H.
Qed.

Lemma existsb_erase k es :
  List.existsb (String.eqb k) (map fst es) = false ->
  List.existsb (String.eqb k) (map fst (erase_entries erase_special es)) = false.
Proof.
  induction es as [|[k0 c0] r IH]; [reflexivity|].
  cbn [map fst List.existsb]. intros H. apply orb_false_iff in H as [H1 H2].
  destruct c0; cbn [erase_entries map fst List.existsb]; rewrite ?H1; auto.
Qed.

Lemma erase_well_formed t :
  well_formed t = true ->
  well_formed (erase_special t) = true
  /\ (height (erase_special t) <= height t)%nat.
Proof.
  induction t as [c| |es IH] using node_nested_ind; intros W; auto.
  assert (G : forall k c, In (k, c) (erase_entries erase_special es) ->
                exists c0, In (k, c0) es /\ c = erase_special c0
                           /\ well_formed c = true
                           /\ (height c <= height c0)%nat).
  { intros k c Hin.
    assert (Hes : forall k0 c0, In (k0, c0) es -> In (k0, c0) es) by auto.
    revert Hes Hin. generalize es at 1 3 as l.
    induction l as [|[k0 c0] r IHr]; intros Hes Hin; [contradiction|].
    assert (H0 : In (k0, c0) es) by (apply Hes; now left).
    assert (Hr : forall k1 c1, In (k1, c1) r -> In (k1, c1) es)
      by (intros; apply Hes; now right).
    destruct (well_formed_child _ _ _ W H0) as [_ W0].
    rewrite Forall_forall in IH. pose proof (IH _ H0 W0) as [We He].
    cbn [snd] in *.
    destruct c0 as [txt|es'|]; cbn [erase_entries] in Hin;
      try (destruct Hin as [Hin|Hin];
           [injection Hin as <- <-; eexists; repeat split; eauto|]);
      now apply IHr. }
  unfold well_formed in *. cbn [erase_special names_valid names_unique height] in *.
  apply andb_true_iff in W as [V U]. apply andb_true_iff in U as [U1 U2].
  split.
  - apply andb_true_iff. split; [|apply andb_true_iff; split].
    + apply forallb_forall. intros [k c] Hin.
      destruct (G k c Hin) as (c0 & H0 & _ & Wc & _). cbn [fst snd].
      rewrite forallb_forall in V. specialize (V _ H0). cbn [fst snd] in V.
      apply andb_true_iff in V as [V1 _]. rewrite V1.
      now apply andb_true_iff in Wc as [Wc _].
    + clear - U1. induction es as [|[k0 c0] r IHr]; [reflexivity|].
      cbn [map fst unique_keys] in U1. apply andb_true_iff in U1 as [A B].
      apply negb_true_iff in A.
      destruct c0; cbn [erase_entries map fst unique_keys];
        rewrite ?(existsb_erase _ _ A); cbn [negb andb]; auto.
    + apply forallb_forall. intros [k c] Hin.
      destruct (G k c Hin) as (c0 & H0 & _ & Wc & _). cbn [snd].
      now apply andb_true_iff in Wc as [_ Wc].
  - apply le_n_S. apply list_max_le. apply Forall_forall.
    intros h Hh. apply in_map_iff in Hh as ([k c] & <- & Hin). cbn [snd].
    destruct (G k c Hin) as (c0 & H0 & _ & _ & Hle).
    pose proof (height_child _ _ _ H0) as Hc. cbn [height] in Hc. lia.
Qed.

(** C10: in a well-formed tree, and with fuel for its depth, the listing
    and the count return, and they return the same with every entry that is
    neither a file nor a directory erased from the tree: such entries are
    left out of the listing and add nothing to the count. *)
Theorem special_entries_ignored cmp fuel root slug sub dirPath w :
  well_formed (fs w) = true ->
  (height (fs w) < fuel)%nat ->
  exists files count,
    listProjectFiles cmp fuel root slug sub w = (w, Ret files)
    /\ listProjectFiles cmp fuel root slug sub (with_fs w (erase_special (fs w)))
       = (with_fs w (erase_special (fs w)), Ret files)
    /\ countFiles fuel dirPath w = (w, Ret count)
    /\ countFiles fuel dirPath (with_fs w (erase_special (fs w)))
       = (with_fs w (erase_special (fs w)), Ret count).
Proof.
  intros W Hh.
  destruct (erase_well_formed _ W) as [We He].
  assert (U : names_unique (fs w) = true).
  { unfold well_formed in W. now apply andb_true_iff in W as [_ W]. }
  assert (Sub : forall t p n, well_formed t = true -> (height t < fuel)%nat ->
                  lookup t p = Some n ->
                  well_formed n = true /\ (height n < fuel)%nat).
  { intros t p n Wt Ht L. destruct (well_formed_lookup t p n Wt L). split; [auto|lia]. }
  exists (list_at cmp (getProjectFilesPath root slug) (fs w)
                  (listed_path root slug sub)),
         (count_at (fs w) dirPath).
  repeat split.
  - apply listProjectFiles_list; [lia|]. intros n. now apply Sub.
  - rewrite listProjectFiles_list; cbn [fs with_fs].
    + now rewrite list_at_erase.
    + lia.
    + intros n. apply Sub; [exact We|lia].
  - apply countFiles_count; [lia|]. intros n. now apply Sub.
  - rewrite countFiles_count; cbn [fs with_fs].
    + now rewrite count_at_erase.
    + lia.
    + intros n. apply Sub; [exact We|lia].
Qed.

Lemma special_entries_ignored_witness :
  exists files count,
    listProjectFiles code_unit_compare 7 "/ws" "my-plan" None listing_world
    = (listing_world, Ret files)
    /\ countFiles 7 (getProjectFilesPath "/ws" "my-plan") listing_world
       = (listing_world, Ret count).
Proof.
  destruct (special_entries_ignored code_unit_compare 7 "/ws" "my-plan" None
              (getProjectFilesPath "/ws" "my-plan") listing_world)
    as (files & count & H1 & _ & H3 & _).
  - reflexivity.
  - vm_compute. lia.
  - exists files, count. split; assumption.
Defined.

(** ** Hidden entries *)

Lemma forallb_insert_sorted {A} (cmp : A -> A -> Z) (p : A -> bool) x l :
  List.forallb p (insert_sorted cmp x l) = p x && List.forallb p l.
Proof.
  induction l as [|y r IH]; [reflexivity|].
  cbn [insert_sorted]. destruct (cmp x y <? 0)%Z; [reflexivity|].
  cbn [List.forallb]. rewrite IH. now rewrite !andb_assoc, (andb_comm (p y)).
Qed.

Lemma forallb_sort {A} (cmp : A -> A -> Z) (p : A -> bool) l :
  List.forallb p (sort cmp l) = List.forallb p l.
Proof.
  unfold sort.
  enough (G : forall acc,
             List.forallb p (fold_left (fun acc x => insert_sorted cmp x acc) l acc)
             = List.forallb p acc && List.forallb p l) by apply G.
  induction l as [|x r IH]; intros acc; cbn [fold_left List.forallb].
  - now rewrite andb_true_r.
  - rewrite IH, forallb_insert_sorted. now rewrite andb_assoc, (andb_comm (p x)).
Qed.

(** The listing of a tree shows no hidden entry, at any depth. *)
Lemma list_node_visible cmp R t :
  forall D, List.forallb visible (list_node cmp R D t) = true.
Proof.
  induction t as [c| |es IH] using node_nested_ind; try reflexivity.
  intros D. cbn [list_node]. rewrite forallb_sort.
  induction IH as [|[k c] r Hc _ IHr]; [reflexivity|].
  cbn [snd] in Hc. cbn [list_entries].
  destruct (startsWith "." k) eqn:E; [exact IHr|].
  destruct c as [txt|es'|]; cbn [List.forallb visible]; rewrite ?E, ?IHr, ?Hc;
    try reflexivity; exact IHr.
Qed.

(** The part of C5 that holds: [listProjectFiles] returns no entry whose
    name starts with a dot, at any depth. *)
Lemma listProjectFiles_visible cmp fuel root slug sub w :
  well_formed (fs w) = true ->
  (height (fs w) < fuel)%nat ->
  exists files,
    listProjectFiles cmp fuel root slug sub w = (w, Ret files)
    /\ List.forallb visible files = true.
Proof.
  intros W Hh. eexists. split.
  - apply listProjectFiles_list; [lia|].
    intros n L. destruct (well_formed_lookup _ _ _ W L). split; [auto|lia].
  - unfold list_at. destruct (lookup _ _); [apply list_node_visible|reflexivity].
Qed.

(** The count, however, is the number of all regular files, hidden or
    not. *)
Lemma countFiles_all_files fuel dirPath w :
  well_formed (fs w) = true ->
  (height (fs w) < fuel)%nat ->
  countFiles fuel dirPath w = (w, Ret (count_at (fs w) dirPath)).
Proof.
  intros W Hh. apply countFiles_count; [lia|].
  intros n L. destruct (well_formed_lookup _ _ _ W L). split; [auto|lia].
Qed.

(** C5 (the defect): with a hidden file, a visible file and a file in a
    subdirectory under [files], the listing leaves the hidden file out but
    the [fileCount] of the summary is 3: the hidden file is counted. *)
Theorem fileCount_counts_hidden :
  result_of (listProjectFiles code_unit_compare 7 "/ws" "my-plan" None) listing_world
  = Ret [mkProjectFile "a" "a" TDirectory None
           (Some [mkProjectFile "c.md" "a/c.md" TFile (Some 3) None]);
         mkProjectFile "b.txt" "b.txt" TFile (Some 5) None]
  /\ result_of (getProjectSummary 7 "/ws" "my-plan" 0) listing_world
     = Ret (Some (mkProjectSummary "proj_0a1b2c3d" "my-plan" "My Plan" (Some "notes")
                                   0 3 1700000000000%Z 1700000000000%Z)).
Proof. split; vm_compute; reflexivity. Qed.


(** ** The theorems at concrete worlds *)


Lemma files_directory_kept_witness :
  dir_at (fs project_world) (getProjectFilesPath "/ws" (slug project_config))
  /\ dir_at (fs (run_ops code_unit_compare
                         [WriteProjectFile "/ws" "my-plan" "notes/a.txt" "hi";
                          RenameProjectFile "/ws" "my-plan" "notes/a.txt" "b.txt";
                          DeleteProjectFile "/ws" "my-plan" "notes";
                          UpdateProject "/ws" "my-plan" guidelines_update;
                          DeleteProject "/ws" "other"]
                         project_world))
            (getProjectFilesPath "/ws" (slug project_config)).
Proof.
  apply (files_directory_kept code_unit_compare 1 "/ws" project_input
                              fresh_workspace project_world project_config).
  - vm_compute. reflexivity.
  - repeat (apply Forall_cons; [vm_compute; first [exact I | reflexivity]|]).
    apply Forall_nil.
Defined.
(** C6 (as stated) fails twice: [saveProjectConfig] on a slug without a
    folder creates the folder without [files], and [deleteProjectFile]
    with the empty path removes the [files] directory of a project that
    [createProject] made, leaving the project folder. *)
Lemma files_directory_counterexample :
  (dir_at (fs (world_after (saveProjectConfig "/ws" "other" saved_config)
                           fresh_workspace))
          (getProjectPath "/ws" "other")
   /\ lookup (fs (world_after (saveProjectConfig "/ws" "other" saved_config)
                              fresh_workspace))
             (getProjectFilesPath "/ws" "other") = None)
  /\ (dir_at (fs project_world) (getProjectFilesPath "/ws" "my-plan")
      /\ dir_at (fs (world_after (deleteProjectFile "/ws" "my-plan" "")
                                 project_world))
                (getProjectPath "/ws" "my-plan")
      /\ lookup (fs (world_after (deleteProjectFile "/ws" "my-plan" "")
                                 project_world))
                (getProjectFilesPath "/ws" "my-plan") = None).
Proof.
  repeat split; try (vm_compute; reflexivity);
    unfold dir_at; eexists; vm_compute; reflexivity.
Qed.

Lemma updateProject_guidelines_witness :
  lookup (fs project_world) (guidelines_path "/ws" "my-plan") = Some (File "be nice")
  /\ (exists w' c',
        updateProject "/ws" "my-plan" guidelines_update project_world
        = (w', Ret (Some c'))
        /\ lookup (fs w') (guidelines_path "/ws" "my-plan") = None)
  /\ (exists w' c',
        updateProject "/ws" "my-plan" text_update project_world
        = (w', Ret (Some c'))
        /\ lookup (fs w') (guidelines_path "/ws" "my-plan") = Some (File "be brief"))
  /\ (exists w' c',
        updateProject "/ws" "my-plan" (mkProjectUpdates (Some "Renamed") Absent Absent Absent)
                      project_world
        = (w', Ret (Some c'))
        /\ lookup (fs w') (guidelines_path "/ws" "my-plan") = Some (File "be nice")).
Proof.
  split; [vm_compute; reflexivity|]. split; [|split].
  - destruct (updateProject_guidelines "/ws" "my-plan" guidelines_update
                project_world project_world project_config)
      as (w' & c' & Hrun & Hfile).
    + vm_compute. reflexivity.
    + vm_compute. exact I.
    + exists w', c'. split; [exact Hrun|exact Hfile].
  - destruct (updateProject_guidelines "/ws" "my-plan" text_update
                project_world project_world project_config)
      as (w' & c' & Hrun & Hfile).
    + vm_compute. reflexivity.
    + vm_compute. exact I.
    + exists w', c'. split; [exact Hrun|exact Hfile].
  - destruct (updateProject_guidelines "/ws" "my-plan"
                (mkProjectUpdates (Some "Renamed") Absent Absent Absent)
                project_world project_world project_config)
      as (w' & c' & Hrun & Hfile).
    + vm_compute. reflexivity.
    + vm_compute. exact I.
    + exists w', c'. split; [exact Hrun|]. rewrite Hfile. vm_compute. reflexivity.
Defined.

(** C8 (as stated) fails for the falsy value [undefined]: an update that
    passes [guidelines: undefined] on a project with guidelines returns a
    config without guidelines, and [guidelines.md] still holds the old
    text. *)
Lemma guidelines_undefined_counterexample :
  lookup (fs project_world) (guidelines_path "/ws" "my-plan") = Some (File "be nice")
  /\ upd_guidelines undefined_guidelines_update = Undefined
  /\ exists w' c',
       updateProject "/ws" "my-plan" undefined_guidelines_update project_world
       = (w', Ret (Some c'))
       /\ guidelines c' = None
       /\ lookup (fs w') (guidelines_path "/ws" "my-plan") = Some (File "be nice").
Proof.
  split; [vm_compute; reflexivity|]. split; [reflexivity|].
  do 2 eexists. split; [vm_compute; reflexivity|].
  split; vm_compute; reflexivity.
Qed.



(** ** Slugs, continued *)

Lemma single_dashes_tail c r : single_dashes (String c r) = true -> single_dashes r = true.
Proof.
  destruct r as [|d r']; [reflexivity|].
  intros H. change (negb (Ascii.eqb c "-" && Ascii.eqb d "-")
                    && single_dashes (String d r') = true) in H.
  now apply andb_true_iff in H as [_ H].
Qed.

Lemma single_dashes_cons c d r :
  single_dashes (String c (String d r))
  = negb (Ascii.eqb c "-" && Ascii.eqb d "-") && single_dashes (String d r).
Proof. reflexivity. Qed.

Lemma single_dashes_take n s :
  single_dashes s = true -> single_dashes (take n s) = true.
Proof.
  revert s; induction n as [|n IH]; intros [|c r] H; try reflexivity.
  pose proof (IH r (single_dashes_tail _ _ H)) as Hr.
  destruct n as [|n']; [destruct r; reflexivity|].
  destruct r as [|d r']; [reflexivity|].
  change (take (S (S n')) (String c (String d r')))
    with (String c (String d (take n' r'))).
  change (take (S n') (String d r')) with (String d (take n' r')) in Hr.
  rewrite single_dashes_cons in *.
  apply andb_true_iff in H as [H _]. now rewrite H, Hr.
Qed.

Lemma drop_last_dash_cons c d r :
  drop_last_dash (String c (String d r)) = String c (drop_last_dash (String d r)).
Proof. reflexivity. Qed.

Lemma single_dashes_drop_last s :
  single_dashes s = true -> single_dashes (drop_last_dash s) = true.
Proof.
  induction s as [|c r IH]; intros H; [reflexivity|].
  destruct r as [|d r'].
  - simpl. destruct (Ascii.eqb c "-"); reflexivity.
  - rewrite drop_last_dash_cons.
    pose proof (IH (single_dashes_tail _ _ H)) as Hr.
    rewrite single_dashes_cons in H. apply andb_true_iff in H as [H _].
    destruct r' as [|e r''].
    + change (drop_last_dash (String d ""))
        with (if Ascii.eqb d "-" then "" else String d "").
      destruct (Ascii.eqb d "-") eqn:E; [reflexivity|].
      rewrite single_dashes_cons, E. now rewrite andb_false_r.
    + rewrite drop_last_dash_cons in *. rewrite single_dashes_cons.
      now rewrite H, Hr.
Qed.

Lemma endsWith_cons c d r a :
  endsWith_char a (String c (String d r)) = endsWith_char a (String d r).
Proof. reflexivity. Qed.

(** After the dash at the end was dropped, a string without doubled dashes
    does not end in one. *)
Lemma endsWith_drop_last s :
  single_dashes s = true -> endsWith_char "-" (drop_last_dash s) = false.
Proof.
  induction s as [|c r IH]; intros H; [reflexivity|].
  destruct r as [|d r'].
  - simpl. destruct (Ascii.eqb c "-") eqn:E; [reflexivity|]. simpl. exact E.
  - rewrite drop_last_dash_cons.
    pose proof (IH (single_dashes_tail _ _ H)) as Hr.
    rewrite single_dashes_cons in H. apply andb_true_iff in H as [H _].
    destruct r' as [|e r''].
    + change (drop_last_dash (String d ""))
        with (if Ascii.eqb d "-" then "" else String d "").
      destruct (Ascii.eqb d "-") eqn:E.
      * rewrite andb_true_r in H. simpl. now destruct (Ascii.eqb c "-").
      * rewrite endsWith_cons. simpl. exact E.
    + rewrite drop_last_dash_cons in *. rewrite endsWith_cons. exact Hr.
Qed.

Lemma take_all n s : (String.length s <= n)%nat -> take n s = s.
Proof.
  revert s; induction n as [|n IH]; intros [|c r] H; simpl in *; try reflexivity;
    [lia|]. rewrite IH; [reflexivity|lia].
Qed.

Lemma length_take_full n s :
  (n <= String.length s)%nat -> String.length (take n s) = n.
Proof.
  revert s; induction n as [|n IH]; intros [|c r] H; simpl in *; try reflexivity;
    [lia|]. rewrite IH; [reflexivity|lia].
Qed.

Lemma strip_edge_cases s :
  strip_edge_dashes s = drop_last_dash s
  \/ exists r, s = String "-" r /\ strip_edge_dashes s = drop_last_dash r.
Proof.
  destruct s as [|c r]; [now left|].
  destruct (Ascii.eqb c "-") eqn:E.
  - apply Ascii.eqb_eq in E; subst c. right. exists r. split; reflexivity.
  - left. unfold strip_edge_dashes.
    destruct c as [[] [] [] [] [] [] [] []]; try reflexivity. discriminate E.
Qed.

(** X1: the slug never has two dashes in a row, and it ends in a dash only
    when the cut to 50 characters made that dash the last character: a slug
    that ends in a dash is exactly 50 characters long. *)
Theorem generateSlug_dashes (N : string) :
  single_dashes (generateSlug N) = true
  /\ (endsWith_char "-" (generateSlug N) = true ->
      String.length (generateSlug N) = 50%nat).
Proof.
  unfold generateSlug.
  set (r := replace_non_alnum_runs false (toLowerCase N)).
  assert (Hr : single_dashes r = true) by apply replace_runs_single_dashes.
  assert (Hs : single_dashes (strip_edge_dashes r) = true
               /\ endsWith_char "-" (strip_edge_dashes r) = false).
  { destruct (strip_edge_cases r) as [-> | (r' & -> & ->)].
    - split; [now apply single_dashes_drop_last | now apply endsWith_drop_last].
    - apply single_dashes_tail in Hr.
      split; [now apply single_dashes_drop_last | now apply endsWith_drop_last]. }
  destruct Hs as [Hs He].
  destruct (String.eqb (take 50 (strip_edge_dashes r)) "") eqn:E.
  - split; [reflexivity|]. vm_compute. discriminate.
  - split; [now apply single_dashes_take|].
    intros Hd.
    destruct (Nat.le_gt_cases 50 (String.length (strip_edge_dashes r))) as [L|L].
    + now apply length_take_full.
    + rewrite take_all in Hd by lia. congruence.
Qed.

Lemma lower_char_slug c : is_slug_char c = true -> lower_char c = c.
Proof. destruct c as [[] [] [] [] [] [] [] []]; vm_compute; congruence. Qed.

Lemma toLowerCase_slug s :
  JsString.forallb is_slug_char s = true -> toLowerCase s = s.
Proof.
  induction s as [|c r IH]; [reflexivity|]. simpl.
  intros H. apply andb_true_iff in H as [Hc Hr].
  now rewrite (lower_char_slug _ Hc), IH.
Qed.

Lemma slug_char_cases c :
  is_slug_char c = true ->
  (is_lower_alnum c = true /\ Ascii.eqb c "-" = false)
  \/ (is_lower_alnum c = false /\ c = "-"%char).
Proof.
  unfold is_slug_char. destruct (is_lower_alnum c) eqn:E.
  - intros _. left. split; [reflexivity|]. now apply is_lower_alnum_dash.
  - simpl. intros H. apply Ascii.eqb_eq in H. now right.
Qed.

Lemma replace_runs_slug b s :
  JsString.forallb is_slug_char s = true -> single_dashes s = true ->
  (b = true -> startsWith "-" s = false) ->
  replace_non_alnum_runs b s = s.
Proof.
  revert b; induction s as [|c r IH]; intros b Hc Hd Hb; [reflexivity|].
  simpl in Hc. apply andb_true_iff in Hc as [Hc Hr].
  pose proof (single_dashes_tail _ _ Hd) as Hd'.
  simpl replace_non_alnum_runs.
  destruct (slug_char_cases _ Hc) as [[E _] | [E ->]]; rewrite E.
  - f_equal. apply IH; auto. discriminate.
  - destruct b; [specialize (Hb eq_refl); discriminate Hb|].
    f_equal. apply IH; auto. intros _.
    destruct r as [|d r']; [reflexivity|].
    rewrite single_dashes_cons in Hd. apply andb_true_iff in Hd as [Hd _].
    simpl. rewrite Ascii.eqb_sym.
    change (Ascii.eqb "-" "-") with true in Hd. simpl in Hd.
    now destruct (Ascii.eqb d "-").
Qed.

Lemma drop_last_dash_keeps s :
  endsWith_char "-" s = false -> drop_last_dash s = s.
Proof.
  induction s as [|c r IH]; intros H; [reflexivity|].
  destruct r as [|d r'].
  - simpl in *. now rewrite H.
  - rewrite drop_last_dash_cons. rewrite endsWith_cons in H. now rewrite IH.
Qed.

(** X2: a string that already is a slug -- lowercase letters, digits and
    single dashes, no dash at either end, 1 to 50 characters -- is its own
    slug. *)
Theorem generateSlug_of_slug (s : string) :
  is_slug s = true -> generateSlug s = s.
Proof.
  unfold is_slug. intros H.
  repeat (apply andb_true_iff in H as [H ?]).
  rename H into Hc.
  match goal with H : negb (startsWith _ _) = true |- _ =>
    apply negb_true_iff in H; rename H into Hstart end.
  match goal with H : negb (endsWith_char _ _) = true |- _ =>
    apply negb_true_iff in H; rename H into Hend end.
  match goal with H : negb (String.eqb _ _) = true |- _ =>
    apply negb_true_iff in H; rename H into Hne end.
  match goal with H : (_ <=? _)%nat = true |- _ =>
    apply Nat.leb_le in H; rename H into Hlen end.
  unfold generateSlug.
  rewrite (toLowerCase_slug _ Hc).
  rewrite replace_runs_slug by (auto; discriminate).
  assert (S : strip_edge_dashes s = s).
  { destruct (strip_edge_cases s) as [-> | (r & -> & _)].
    - now apply drop_last_dash_keeps.
    - simpl in Hstart. discriminate Hstart. }
  rewrite S, take_all by exact Hlen. now rewrite Hne.
Qed.

Lemma generateSlug_of_slug_witness : generateSlug "my-plan-2" = "my-plan-2".
Proof. apply (generateSlug_of_slug "my-plan-2"). reflexivity. Defined.

(** ** Creating a project, for every name *)

Lemma find_app_other k s x es :
  k <> s -> Entries.find k (es ++ [(s, x)])%list = Entries.find k es.
Proof.
  intros Hk. induction es as [|[k0 c0] r IH]; simpl.
  - destruct (String.eqb s k) eqn:E; [|reflexivity].
    apply String.eqb_eq in E. congruence.
  - now rewrite IH.
Qed.

Lemma find_app_same s x es :
  Entries.find s es = None -> Entries.find s (es ++ [(s, x)])%list = Some x.
Proof.
  induction es as [|[k0 c0] r IH]; simpl.
  - now rewrite String.eqb_refl.
  - destruct (String.eqb k0 s); [discriminate|]. exact IH.
Qed.

Lemma is_prefix_false_app p q r :
  is_prefix q (p ++ r)%list = false -> is_prefix q p = false.
Proof.
  intros H. destruct (is_prefix q p) eqn:E; [|reflexivity].
  apply is_prefix_spec in E as [x ->].
  rewrite <- List.app_assoc, is_prefix_app in H. discriminate.
Qed.

(** What [createProject] returns and leaves on disk. *)
Lemma createProject_layout fuel root input w :
  projects_root_ready fuel w root ->
  exists t1 es s,
    mkdir_p (getWorkspaceProjectsPath root) (fs w) = Some t1
    /\ lookup t1 (getWorkspaceProjectsPath root) = Some (Dir es)
    /\ slug_choice es (input_name input) s
    /\ getProjectPath root s = (getWorkspaceProjectsPath root ++ [s])%list
    /\ createProject fuel root input w
       = (mkWorld (graft (getWorkspaceProjectsPath root)
                         (Dir (es ++ [(s, project_folder (created_config input s w))]))
                         t1)
                  (clock w) (S (ticks w)) (entropy w) (S (draws w)),
          Ret (created_config input s w)).
Proof.
  intros (t1 & Hmk & Hfuel).
  destruct (mkdir_p_dir_at _ _ _ Hmk) as [es Hes].
  unfold dir_size in Hfuel. rewrite Hes in Hfuel.
  destruct (createProject_spec fuel root input w t1 es Hmk Hes Hfuel) as (s & Hs & Hrun).
  exists t1, es, s.
  split; [exact Hmk|]. split; [exact Hes|]. split; [exact Hs|].
  split; [|exact Hrun].
  unfold getProjectPath. apply join_valid. apply Hs.
Qed.

(** The tree after [createProject], seen from a path inside the new
    folder. *)
Lemma lookup_created t1 PD es s folder q :
  lookup t1 PD = Some (Dir es) -> Entries.find s es = None ->
  lookup (graft PD (Dir (es ++ [(s, folder)])) t1) ((PD ++ [s]) ++ q)%list
  = lookup folder q.
Proof.
  intros Hes Hs. rewrite <- List.app_assoc.
  rewrite lookup_graft_under by congruence.
  simpl. now rewrite (find_app_same _ _ _ Hs).
Qed.

(** The tree after [createProject], seen from a path outside the new
    folder. *)
Lemma lookup_created_frame t1 PD es s folder q :
  lookup t1 PD = Some (Dir es) ->
  apart (PD ++ [s])%list q ->
  lookup (graft PD (Dir (es ++ [(s, folder)])) t1) q = lookup t1 q.
Proof.
  intros Hes [H1 H2].
  destruct (is_prefix PD q) eqn:E.
  - apply is_prefix_spec in E as [r ->].
    rewrite lookup_graft_under by congruence.
    rewrite lookup_app, Hes.
    destruct r as [|k r].
    + rewrite List.app_nil_r in H2. rewrite is_prefix_app in H2. discriminate.
    + assert (Hk : k <> s).
      { intros ->. change (s :: r) with ([s] ++ r)%list in H1.
        rewrite List.app_assoc, is_prefix_app in H1. discriminate. }
      simpl. now rewrite find_app_other.
  - apply lookup_graft_frame; [exact E|].
    now apply is_prefix_false_app in H2.
Qed.

(** X3: whenever the projects root is a directory or can be created,
    [createProject] returns a config that carries the name, description,
    guidelines and enabled sources of its input, one reading of the clock as
    both times, the id [proj_] followed by eight hexadecimal digits, and a
    slug -- the slug of the name, or that slug with a counter from 2 on --
    whose folder did not exist before the call and is a directory after
    it. *)
Theorem createProject_fresh_folder fuel root input w :
  projects_root_ready fuel w root ->
  exists w1 c,
    createProject fuel root input w = (w1, Ret c)
    /\ name c = input_name input
    /\ description c = input_description input
    /\ guidelines c = input_guidelines input
    /\ enabledSourceSlugs c = input_enabledSourceSlugs input
    /\ createdAt c = clock w (ticks w) /\ updatedAt c = clock w (ticks w)
    /\ (exists h, id c = "proj_" ++ h /\ String.length h = 8%nat
                  /\ JsString.forallb is_hex_digit h = true)
    /\ (slug c = generateSlug (input_name input)
        \/ exists k, 2 <= k
                     /\ slug c = generateSlug (input_name input) ++ "-" ++ of_N k)
    /\ lookup (fs w) (getProjectPath root (slug c)) = None
    /\ dir_at (fs w1) (getProjectPath root (slug c)).
Proof.
  intros Hready.
  destruct (createProject_layout fuel root input w Hready)
    as (t1 & es & s & Hmk & Hes & Hs & HP & Hrun).
  do 2 eexists. split; [exact Hrun|]. cbn [name description guidelines
    enabledSourceSlugs createdAt updatedAt id slug created_config].
  repeat (split; [reflexivity|]).
  destruct Hs as (Hfree & Hvalid & Hchoice).
  split; [|split; [|split]].
  - eexists. split; [reflexivity|]. apply uuid_prefix_hex.
  - destruct Hchoice as [[_ ->] | [_ (i & -> & _)]]; [now left|].
    right. exists (2 + N.of_nat i). split; [lia|reflexivity].
  - rewrite HP.
    destruct (lookup (fs w) (getWorkspaceProjectsPath root ++ [s])%list) eqn:L;
      [|reflexivity].
    assert (F : is_prefix (getWorkspaceProjectsPath root ++ [s])%list
                          (getWorkspaceProjectsPath root) = false)
      by apply is_prefix_child.
    pose proof (mkdir_p_frame _ _ _ _ Hmk F) as Fr.
    rewrite lookup_child, Hes, Hfree in Fr. congruence.
  - rewrite HP. cbn [fs]. unfold dir_at.
    rewrite <- (List.app_nil_r (getWorkspaceProjectsPath root ++ [s])%list).
    rewrite (lookup_created _ _ _ _ _ [] Hes Hfree). eexists. reflexivity.
Qed.

Lemma createProject_fresh_folder_witness :
  exists w1 c,
    createProject 1 "/ws" project_input fresh_workspace = (w1, Ret c)
    /\ name c = "My Plan"
    /\ lookup (fs fresh_workspace) (getProjectPath "/ws" (slug c)) = None.
Proof.
  destruct (createProject_fresh_folder 1 "/ws" project_input fresh_workspace)
    as (w1 & c & Hrun & Hname & _ & _ & _ & _ & _ & _ & _ & Hfree & _).
  - eexists. split; [vm_compute; reflexivity|]. vm_compute. lia.
  - exists w1, c. repeat split; assumption.
Defined.

(** X4: the project [createProject] made loads back as the config it
    returned; its [files] directory is empty; and [guidelines.md] holds the
    guidelines of the input when they are a non-empty string, and is absent
    otherwise. *)
Theorem createProject_round_trip fuel root input w :
  projects_root_ready fuel w root ->
  exists w1 c,
    createProject fuel root input w = (w1, Ret c)
    /\ loadProjectConfig root (slug c) w1 = (w1, Ret (Some c))
    /\ lookup (fs w1) (getProjectFilesPath root (slug c)) = Some (Dir [])
    /\ lookup (fs w1) (guidelines_path root (slug c))
       = match input_guidelines input with
         | Some g => if String.eqb g "" then None else Some (File g)
         | None => None
         end.
Proof.
  intros Hready.
  destruct (createProject_layout fuel root input w Hready)
    as (t1 & es & s & Hmk & Hes & Hs & HP & Hrun).
  destruct Hs as (Hfree & Hvalid & _).
  do 2 eexists. split; [exact Hrun|].
  cbn [slug created_config].
  split; [|split].
  - eapply loadProjectConfig_file; [|apply config_parse_stringify].
    rewrite config_path_child, HP. cbn [fs].
    rewrite (lookup_created _ _ _ _ _ ["config.json"] Hes Hfree). reflexivity.
  - unfold getProjectFilesPath. rewrite (join_valid _ "files") by reflexivity.
    rewrite HP. cbn [fs].
    rewrite (lookup_created _ _ _ _ _ ["files"] Hes Hfree). reflexivity.
  - rewrite guidelines_path_child, HP. cbn [fs].
    rewrite (lookup_created _ _ _ _ _ ["guidelines.md"] Hes Hfree).
    unfold project_folder. cbn [guidelines created_config].
    destruct (input_guidelines input) as [g|]; [|reflexivity].
    unfold truthy. destruct (String.eqb g ""); reflexivity.
Qed.

Lemma createProject_round_trip_witness :
  exists w1 c,
    createProject 1 "/ws" project_input fresh_workspace = (w1, Ret c)
    /\ loadProjectConfig "/ws" (slug c) w1 = (w1, Ret (Some c))
    /\ lookup (fs w1) (guidelines_path "/ws" (slug c)) = Some (File "be nice").
Proof.
  destruct (createProject_round_trip 1 "/ws" project_input fresh_workspace)
    as (w1 & c & Hrun & Hload & _ & Hg).
  - eexists. split; [vm_compute; reflexivity|]. vm_compute. lia.
  - exists w1, c. repeat split; assumption.
Defined.

(** X5: [createProject] leaves every other entry as it was: a path that
    is neither inside the new project folder nor above it leads to the same
    node before and after the call. *)
Theorem createProject_frame fuel root input w :
  projects_root_ready fuel w root ->
  exists w1 c,
    createProject fuel root input w = (w1, Ret c)
    /\ forall q, apart (getProjectPath root (slug c)) q ->
                 lookup (fs w1) q = lookup (fs w) q.
Proof.
  intros Hready.
  destruct (createProject_layout fuel root input w Hready)
    as (t1 & es & s & Hmk & Hes & Hs & HP & Hrun).
  do 2 eexists. split; [exact Hrun|].
  cbn [slug created_config fs]. rewrite HP. intros q Hq.
  rewrite (lookup_created_frame _ _ _ _ _ _ Hes Hq).
  apply (mkdir_p_frame _ _ _ _ Hmk).
  destruct Hq as [_ Hq]. now apply is_prefix_false_app in Hq.
Qed.

Lemma createProject_frame_witness :
  exists w1 c,
    createProject 2 "/ws" (mkCreateProjectInput "My Plan" None None None)
                  project_world = (w1, Ret c)
    /\ lookup (fs w1) (config_path "/ws" "my-plan")
       = lookup (fs project_world) (config_path "/ws" "my-plan").
Proof.
  destruct (createProject_frame 2 "/ws" (mkCreateProjectInput "My Plan" None None None)
                                project_world)
    as (w1 & c & Hrun & Hframe).
  - eexists. split; [vm_compute; reflexivity|]. vm_compute. lia.
  - exists w1, c. split; [exact Hrun|]. apply Hframe.
    vm_compute in Hrun. injection Hrun as _ <-.
    split; vm_compute; reflexivity.
Defined.

(** ** Reading, writing and deleting project files *)

Lemma with_fs_same w : with_fs w (fs w) = w.
Proof. now destruct w. Qed.

Lemma is_prefix_removelast (p : path) : is_prefix (removelast p) p = true.
Proof.
  destruct p as [|a p]; [reflexivity|].
  destruct (path_split (a :: p)) as (d & n & E & R); [discriminate|].
  rewrite R, E. apply is_prefix_app.
Qed.

Lemma apart_parent p q : is_prefix q p = false -> is_prefix q (removelast p) = false.
Proof.
  intros H. destruct (is_prefix q (removelast p)) eqn:E; [|reflexivity].
  rewrite (is_prefix_trans _ _ _ E (is_prefix_removelast p)) in H. discriminate.
Qed.

(** [if (!existsSync(dir)) mkdirSync(dir, { recursive: true })], when the
    directory is there or can be made. *)
Lemma ensure_dir_ready {A} d (k : M A) w t1 :
  mkdir_p d (fs w) = Some t1 ->
  (e <- existsSync d ;; (if negb e then mkdirSync_recursive d else ret tt) ;; k) w
  = k (with_fs w t1).
Proof.
  intros Hmk. unfold bind at 1. unfold existsSync at 1.
  destruct (lookup (fs w) d) as [n|] eqn:L; cbn [negb].
  - rewrite (mkdir_p_present _ _ _ _ Hmk L), with_fs_same. reflexivity.
  - unfold bind, mkdirSync_recursive, update_fs. now rewrite Hmk.
Qed.

(** The same, when the directory can neither be found nor made, or is
    not a directory. *)
Lemma ensure_dir_stuck {A} d (k : M A) w :
  mkdir_p d (fs w) = None ->
  (e <- existsSync d ;; (if negb e then mkdirSync_recursive d else ret tt) ;; k) w
  = match lookup (fs w) d with
    | Some _ => k w
    | None => (w, Throw)
    end.
Proof.
  intros Hmk. unfold bind at 1. unfold existsSync at 1.
  destruct (lookup (fs w) d) as [n|] eqn:L; cbn [negb].
  - reflexivity.
  - unfold bind, mkdirSync_recursive, update_fs. now rewrite Hmk.
Qed.

Lemma file_writable_alter t p content :
  file_writable t p ->
  exists t1 t2,
    mkdir_p (removelast p) t = Some t1
    /\ alter (write_change content) p t1 = Some t2
    /\ lookup t2 p = Some (File content).
Proof.
  intros (t1 & Hmk & Hf).
  destruct (mkdir_p_dir_at _ _ _ Hmk) as [es Hes].
  assert (Hp : p <> []).
  { intros ->. unfold file_or_free in Hf. simpl in Hes, Hf.
    injection Hes as ->. exact Hf. }
  destruct (path_split p Hp) as (d & n & E & R). rewrite R in *. subst p.
  destruct (write_succeeds t1 d n content es Hes Hf) as [t2 Hw].
  exists t1, t2. split; [exact Hmk|]. split; [exact Hw|].
  pose proof (lookup_alter_same _ _ _ _ Hw) as S.
  destruct (write_change _ _) as [r|] eqn:W; [|discriminate].
  apply write_change_file in W. congruence.
Qed.

Lemma node_at_join t base rel :
  ends_in_slash rel = false ->
  node_at t (join_name base rel) = lookup t (join base rel).
Proof. unfold join_name. intros ->. apply node_at_plain. Qed.

Lemma node_at_join_missing t base rel :
  lookup t (join base rel) = None -> node_at t (join_name base rel) = None.
Proof. intros H. now apply node_at_missing. Qed.

Lemma readProjectFile_run root slug filePath w :
  readProjectFile root slug filePath w
  = (w, Ret (file_text (node_at (fs w)
                                (join_name (getProjectFilesPath root slug) filePath)))).
Proof.
  unfold readProjectFile. unfold bind at 1. unfold existsSync_name at 1.
  destruct (node_at (fs w) _) as [n|] eqn:L; cbn [negb]; [|reflexivity].
  unfold try_catch, bind, readFileSync_name. rewrite L.
  destruct n; reflexivity.
Qed.

(** [if (!existsSync(dir)) mkdirSync(dir, { recursive: true })] for the
    directory above [p], when it is there or can be made, and when not. *)
Lemma ensure_parent_ready {A} p (k : M A) w t1 :
  mkdir_p (removelast p) (fs w) = Some t1 ->
  (e <- existsSync_name (join_name p "..") ;;
   (if negb e then mkdirSync_recursive_name (join_name p "..") else ret tt) ;; k) w
  = k (with_fs w t1).
Proof. intros Hmk. rewrite ensure_parent_name. now apply ensure_dir_ready. Qed.

Lemma ensure_parent_stuck {A} p (k : M A) w :
  mkdir_p (removelast p) (fs w) = None ->
  (e <- existsSync_name (join_name p "..") ;;
   (if negb e then mkdirSync_recursive_name (join_name p "..") else ret tt) ;; k) w
  = match lookup (fs w) (removelast p) with
    | Some _ => k w
    | None => (w, Throw)
    end.
Proof. intros Hmk. rewrite ensure_parent_name. now apply ensure_dir_stuck. Qed.

(** With or without the directory above, a name that ends in a slash is
    not written to. *)
Lemma ensure_parent_throws {A} p (k : M A) w :
  (forall w0, k w0 = (w0, Throw)) ->
  exists w1,
    (e <- existsSync_name (join_name p "..") ;;
     (if negb e then mkdirSync_recursive_name (join_name p "..") else ret tt) ;; k) w
    = (w1, Throw).
Proof.
  intros Hk. destruct (mkdir_p (removelast p) (fs w)) as [t1|] eqn:Hmk.
  - rewrite (ensure_parent_ready _ _ _ _ Hmk). eauto.
  - rewrite (ensure_parent_stuck _ _ _ Hmk).
    destruct (lookup (fs w) (removelast p)); eauto.
Qed.

(** X6: when the path does not end in a slash, the directories above the
    target exist or can be created and no directory or special entry stands
    at the target, [writeProjectFile] returns, [readProjectFile] of the same
    path then returns the content written, and every path that is neither
    under the target nor above it leads where it led before.  A path that
    ends in a slash names no file to write: the call throws. *)
Theorem writeProjectFile_read root slug filePath content w :
  (ends_in_slash filePath = false ->
   file_writable (fs w) (join (getProjectFilesPath root slug) filePath) ->
   exists w1,
     writeProjectFile root slug filePath content w = (w1, Ret tt)
     /\ readProjectFile root slug filePath w1 = (w1, Ret (Some content))
     /\ forall q, apart (join (getProjectFilesPath root slug) filePath) q ->
                  lookup (fs w1) q = lookup (fs w) q)
  /\ (ends_in_slash filePath = true ->
      exists w1, writeProjectFile root slug filePath content w = (w1, Throw)).
Proof.
  split.
  - intros Hs Hw.
    destruct (file_writable_alter _ _ content Hw) as (t1 & t2 & Hmk & Halt & Hl).
    exists (with_fs (with_fs w t1) t2).
    split; [|split].
    + unfold writeProjectFile. unfold join_name at 2 3. cbn [components].
      rewrite (ensure_parent_ready _ _ _ _ Hmk).
      unfold writeFileSync_name, join_name. cbn [slash components]. rewrite Hs.
      unfold writeFileSync, update_fs. cbn [fs with_fs]. now rewrite Halt.
    + rewrite readProjectFile_run, (node_at_join _ _ _ Hs). cbn [fs with_fs].
      now rewrite Hl.
    + intros q [H1 H2]. cbn [fs with_fs].
      rewrite (lookup_alter_frame _ _ _ _ _ Halt H1 H2).
      apply (mkdir_p_frame _ _ _ _ Hmk). now apply apart_parent.
  - intros Hs. unfold writeProjectFile. unfold join_name at 2 3. cbn [components].
    apply ensure_parent_throws. intros w0.
    unfold writeFileSync_name, join_name. cbn [slash]. now rewrite Hs.
Qed.

Lemma writeProjectFile_read_witness :
  (exists w1,
     writeProjectFile "/ws" "my-plan" "notes/today.md" "# Today" project_world
     = (w1, Ret tt)
     /\ readProjectFile "/ws" "my-plan" "notes/today.md" w1
        = (w1, Ret (Some "# Today")))
  /\ (exists w1,
        writeProjectFile "/ws" "my-plan" "new.txt/" "# Today" project_world
        = (w1, Throw)).
Proof.
  destruct (writeProjectFile_read "/ws" "my-plan" "notes/today.md" "# Today"
                                  project_world) as (Hplain & _).
  destruct (writeProjectFile_read "/ws" "my-plan" "new.txt/" "# Today"
                                  project_world) as (_ & Hslash).
  split.
  - destruct Hplain as (w1 & Hrun & Hread & _).
    + reflexivity.
    + eexists. split; [vm_compute; reflexivity|]. vm_compute. exact I.
    + exists w1. split; assumption.
  - apply Hslash. reflexivity.
Defined.

(** X7: [createProjectFile] never overwrites: when the path leads to a
    file or a directory -- to a directory, if the path ends in a slash --
    it returns [false] and changes nothing.  When nothing is at the path,
    the path does not end in a slash and a file can be written there, it
    returns [true], the path then holds a file with the content, and no
    unrelated path changes.  When nothing is at the path and the directories
    above it cannot be created -- one of them is a regular file -- it
    throws, and changes nothing.  A path that ends in a slash and leads to
    nothing or to a regular file makes it throw: such a path names no file
    to write. *)
Theorem createProjectFile_spec root slug filePath content w :
  (forall n,
     lookup (fs w) (join (getProjectFilesPath root slug) filePath) = Some n ->
     file_or_dir n = true ->
     (ends_in_slash filePath = true -> is_dir n = true) ->
     createProjectFile root slug filePath content w = (w, Ret false))
  /\ (lookup (fs w) (join (getProjectFilesPath root slug) filePath) = None ->
      ends_in_slash filePath = false ->
      file_writable (fs w) (join (getProjectFilesPath root slug) filePath) ->
      exists w1,
        createProjectFile root slug filePath content w = (w1, Ret true)
        /\ lookup (fs w1) (join (getProjectFilesPath root slug) filePath)
           = Some (File content)
        /\ forall q, apart (join (getProjectFilesPath root slug) filePath) q ->
                     lookup (fs w1) q = lookup (fs w) q)
  /\ (lookup (fs w) (join (getProjectFilesPath root slug) filePath) = None ->
      mkdir_p (removelast (join (getProjectFilesPath root slug) filePath)) (fs w)
      = None ->
      createProjectFile root slug filePath content w = (w, Throw))
  /\ (ends_in_slash filePath = true ->
      (lookup (fs w) (join (getProjectFilesPath root slug) filePath) = None
       \/ exists c, lookup (fs w) (join (getProjectFilesPath root slug) filePath)
                    = Some (File c)) ->
      exists w1, createProjectFile root slug filePath content w = (w1, Throw)).
Proof.
  set (full := join (getProjectFilesPath root slug) filePath).
  unfold createProjectFile. unfold join_name at 2 3. cbn [components]. fold full.
  split; [|split; [|split]].
  - intros n Hex Hplain Hdir. unfold bind at 1. unfold existsSync_name at 1.
    rewrite (node_at_some _ (join_name (getProjectFilesPath root slug) filePath) n Hex).
    cbn [join_name slash].
    destruct (ends_in_slash filePath); [|reflexivity].
    now rewrite (Hdir eq_refl).
  - intros Hfree Hs Hw.
    destruct (file_writable_alter _ _ content Hw) as (t1 & t2 & Hmk & Halt & Hl).
    exists (with_fs (with_fs w t1) t2).
    split; [|split].
    + unfold bind at 1. unfold existsSync_name at 1.
      rewrite (node_at_join_missing _ _ _ Hfree).
      rewrite (ensure_parent_ready _ _ _ _ Hmk).
      unfold bind, writeFileSync_name, join_name. cbn [slash components]. rewrite Hs.
      unfold writeFileSync, update_fs. cbn [fs with_fs]. fold full. now rewrite Halt.
    + exact Hl.
    + intros q [H1 H2]. cbn [fs with_fs].
      rewrite (lookup_alter_frame _ _ _ _ _ Halt H1 H2).
      apply (mkdir_p_frame _ _ _ _ Hmk). now apply apart_parent.
  - intros Hfree Hmk.
    unfold bind at 1. unfold existsSync_name at 1.
    rewrite (node_at_join_missing _ _ _ Hfree).
    rewrite (ensure_parent_stuck _ _ _ Hmk).
    destruct (lookup (fs w) (removelast full)) as [n|] eqn:L; [|reflexivity].
    unfold bind, writeFileSync_name, join_name. cbn [slash components]. fold full.
    destruct (ends_in_slash filePath); [reflexivity|].
    unfold writeFileSync, update_fs.
    destruct (alter (write_change content) full (fs w)) as [t'|] eqn:Halt;
      [|reflexivity].
    exfalso. destruct (alter_parent_dir _ _ _ _ Halt) as [_ [es Hes]].
    rewrite (mkdir_p_existing _ _ _ Hes) in Hmk. discriminate.
  - intros Hs Hat. unfold bind at 1. unfold existsSync_name at 1.
    assert (Hno : node_at (fs w) (join_name (getProjectFilesPath root slug) filePath)
                  = None).
    { destruct Hat as [Hfree|[c Hc]].
      - now apply node_at_join_missing.
      - rewrite (node_at_some _ (join_name (getProjectFilesPath root slug) filePath)
                              _ Hc).
        cbn [join_name slash is_dir negb].
        now rewrite Hs. }
    rewrite Hno.
    destruct (ensure_parent_throws full
                (writeFileSync_name (join_name (getProjectFilesPath root slug) filePath)
                                    content ;; ret true) w) as [w1 Hrun].
    { intros w0. unfold bind, writeFileSync_name, join_name. cbn [slash].
      now rewrite Hs. }
    exists w1. exact Hrun.
Qed.

Lemma createProjectFile_spec_witness :
  createProjectFile "/ws" "my-plan" "b.txt" "new" listing_world
  = (listing_world, Ret false)
  /\ createProjectFile "/ws" "my-plan" "a/" "new" listing_world
     = (listing_world, Ret false)
  /\ createProjectFile "/ws" "my-plan" "b.txt/inner.md" "new" listing_world
     = (listing_world, Throw)
  /\ (exists w1,
        createProjectFile "/ws" "my-plan" "new.txt/" "new" listing_world
        = (w1, Throw))
  /\ (exists w1,
        createProjectFile "/ws" "my-plan" "b.txt/" "new" listing_world
        = (w1, Throw)).
Proof.
  destruct (createProjectFile_spec "/ws" "my-plan" "b.txt" "new" listing_world)
    as (Hfile & _ & _ & _).
  destruct (createProjectFile_spec "/ws" "my-plan" "a/" "new" listing_world)
    as (Hdir & _ & _ & _).
  destruct (createProjectFile_spec "/ws" "my-plan" "b.txt/inner.md" "new" listing_world)
    as (_ & _ & Hthrow & _).
  destruct (createProjectFile_spec "/ws" "my-plan" "new.txt/" "new" listing_world)
    as (_ & _ & _ & Hnew).
  destruct (createProjectFile_spec "/ws" "my-plan" "b.txt/" "new" listing_world)
    as (_ & _ & _ & Hold).
  split; [|split; [|split; [|split]]].
  - apply (Hfile (File "hello")); [reflexivity|reflexivity|discriminate].
  - apply (Hdir (Dir [("c.md", File "# c"); ("pipe", Special)]));
      reflexivity.
  - apply Hthrow; vm_compute; reflexivity.
  - apply Hnew; [reflexivity|now left].
  - apply Hold; [reflexivity|right; now exists "hello"].
Defined.

Lemma lookup_below_missing t p q :
  lookup t p = None -> is_prefix p q = true -> lookup t q = None.
Proof.
  intros Hp Hq. apply is_prefix_spec in Hq as [r ->].
  now rewrite lookup_app, Hp.
Qed.

Lemma deleteProject_run root slug w :
  (lookup (fs w) (getProjectPath root slug) = None ->
   deleteProject root slug w = (w, Ret false))
  /\ (lookup (fs w) (getProjectPath root slug) <> None ->
      getProjectPath root slug <> [] ->
      exists w1,
        deleteProject root slug w = (w1, Ret true)
        /\ (forall q, is_prefix (getProjectPath root slug) q = true ->
                      lookup (fs w1) q = None)
        /\ loadProjectConfig root slug w1 = (w1, Ret None)
        /\ (forall q, apart (getProjectPath root slug) q ->
                      lookup (fs w1) q = lookup (fs w) q)
        /\ deleteProject root slug w1 = (w1, Ret false)).
Proof.
  set (P := getProjectPath root slug).
  assert (Hmissing : forall w0, lookup (fs w0) P = None ->
                                deleteProject root slug w0 = (w0, Ret false)).
  { intros w0 H. unfold deleteProject. fold P.
    unfold bind, existsSync. now rewrite H. }
  split; [apply Hmissing|].
  intros Hex Hne.
  destruct (lookup (fs w) P) as [src|] eqn:L; [clear Hex|congruence].
  destruct (alter_rm_succeeds _ _ _ L Hne) as (t' & Halt & Hgone).
  exists (with_fs w t').
  split; [|split; [|split; [|split]]].
  - unfold deleteProject. fold P. unfold bind at 1. unfold existsSync at 1.
    rewrite L. cbn [negb].
    unfold try_catch, bind, rmSync_recursive, update_fs. now rewrite Halt.
  - intros q Hq. cbn [fs with_fs]. now apply (lookup_below_missing _ P).
  - unfold loadProjectConfig, bind, existsSync. cbn [fs with_fs].
    rewrite (lookup_below_missing t' P); [reflexivity|exact Hgone|].
    change (join (getProjectPath root slug) "config.json") with (config_path root slug).
    rewrite config_path_child. apply is_prefix_app.
  - intros q [H1 H2]. cbn [fs with_fs].
    apply (lookup_alter_frame _ _ _ _ _ Halt H1 H2).
  - apply Hmissing. exact Hgone.
Qed.



(** X9: [deleteProjectFile] returns [false] and changes nothing when
    nothing exists at the path, and when the path ends in a slash and
    leads to a regular file.  When the path leads to a file or a directory
    -- to a directory, if the path ends in a slash -- the call returns
    [true]; afterwards nothing is left at the path or below it,
    [readProjectFile] of the path returns [null], and paths neither below
    nor above it lead where they led before. *)
Theorem deleteProjectFile_spec root slug filePath w :
  (lookup (fs w) (join (getProjectFilesPath root slug) filePath) = None ->
   deleteProjectFile root slug filePath w = (w, Ret false))
  /\ (forall c,
        ends_in_slash filePath = true ->
        lookup (fs w) (join (getProjectFilesPath root slug) filePath) = Some (File c) ->
        deleteProjectFile root slug filePath w = (w, Ret false))
  /\ (forall src,
        lookup (fs w) (join (getProjectFilesPath root slug) filePath) = Some src ->
        file_or_dir src = true ->
        (ends_in_slash filePath = true -> is_dir src = true) ->
        join (getProjectFilesPath root slug) filePath <> [] ->
        exists w1,
          deleteProjectFile root slug filePath w = (w1, Ret true)
          /\ (forall q, is_prefix (join (getProjectFilesPath root slug) filePath) q
                        = true ->
                        lookup (fs w1) q = None)
          /\ readProjectFile root slug filePath w1 = (w1, Ret None)
          /\ (forall q, apart (join (getProjectFilesPath root slug) filePath) q ->
                        lookup (fs w1) q = lookup (fs w) q)).
Proof.
  set (full := join (getProjectFilesPath root slug) filePath).
  set (name := join_name (getProjectFilesPath root slug) filePath).
  split; [|split].
  - intros H. unfold deleteProjectFile. fold name.
    unfold bind, existsSync_name. unfold name.
    now rewrite (node_at_join_missing _ _ _ H).
  - intros c Hs H. unfold deleteProjectFile. fold name.
    unfold bind, existsSync_name.
    rewrite (node_at_some _ name _ H). unfold name. cbn [join_name slash is_dir negb].
    now rewrite Hs.
  - intros src L Hplain Hslash Hne.
    assert (Hat : node_at (fs w) name = Some src).
    { rewrite (node_at_some _ name _ L). unfold name. cbn [join_name slash].
      destruct (ends_in_slash filePath); [|reflexivity].
      now rewrite (Hslash eq_refl). }
    destruct (path_split full Hne) as (d & n & E & R).
    assert (Hd : exists es, lookup (fs w) d = Some (Dir es)
                            /\ Entries.find n es = Some src).
    { rewrite E, lookup_child in L.
      destruct (lookup (fs w) d) as [[c|es|]|]; try discriminate.
      eauto. }
    destruct Hd as (es & Hd & Hn).
    assert (Hrun : exists t',
               (if stats_isDirectory (stats_of src) then rmSync_recursive_name name
                else unlinkSync_name name) w = (with_fs w t', Ret tt)
               /\ lookup t' full = None
               /\ forall q, apart full q -> lookup t' q = lookup (fs w) q).
    { destruct src as [c|es'|]; cbn [stats_of stats_isDirectory is_dir];
        [| |discriminate].
      - destruct (alter_succeeds unlink_change d n (fs w) es None Hd)
          as [t' Halt]; [now rewrite Hn|].
        rewrite <- E in Halt. exists t'. split; [|split].
        + unfold unlinkSync_name, name. cbn [join_name slash components].
          destruct (ends_in_slash filePath);
            [specialize (Hslash eq_refl); discriminate|].
          fold full. unfold unlinkSync, update_fs. now rewrite Halt.
        + pose proof (lookup_alter_same _ _ _ _ Halt) as S.
          rewrite L in S. simpl in S. congruence.
        + intros q [H1 H2]. apply (lookup_alter_frame _ _ _ _ _ Halt H1 H2).
      - destruct (alter_rm_succeeds _ _ _ L Hne) as (t' & Halt & Hgone).
        exists t'. split; [|split; [exact Hgone|]].
        + unfold rmSync_recursive_name. rewrite Hat.
          unfold name. cbn [join_name components]. fold full.
          unfold rmSync_recursive, update_fs. now rewrite Halt.
        + intros q [H1 H2]. apply (lookup_alter_frame _ _ _ _ _ Halt H1 H2). }
    destruct Hrun as (t' & Hrun & Hgone & Hframe).
    exists (with_fs w t'). split; [|split; [|split]].
    + unfold deleteProjectFile. fold name.
      unfold bind at 1. unfold existsSync_name at 1. rewrite Hat. cbn [negb].
      unfold try_catch. unfold bind at 1. unfold statSync_name at 1. rewrite Hat.
      unfold bind at 1. now rewrite Hrun.
    + intros q Hq. cbn [fs with_fs]. now apply (lookup_below_missing _ full).
    + rewrite readProjectFile_run. cbn [fs with_fs].
      now rewrite (node_at_join_missing _ _ _ Hgone).
    + intros q Hq. cbn [fs with_fs]. now apply Hframe.
Qed.

Lemma deleteProjectFile_spec_witness :
  (exists w1,
     deleteProjectFile "/ws" "my-plan" "a/" listing_world = (w1, Ret true)
     /\ readProjectFile "/ws" "my-plan" "a/c.md" listing_world
        = (listing_world, Ret (Some "# c"))
     /\ lookup (fs w1) (join (getProjectFilesPath "/ws" "my-plan") "a/c.md") = None)
  /\ deleteProjectFile "/ws" "my-plan" "b.txt/" listing_world
     = (listing_world, Ret false)
  /\ (exists w1,
        deleteProjectFile "/ws" "my-plan" "b.txt" listing_world = (w1, Ret true)
        /\ readProjectFile "/ws" "my-plan" "b.txt" w1 = (w1, Ret None)).
Proof.
  split; [|split].
  - destruct (deleteProjectFile_spec "/ws" "my-plan" "a/" listing_world)
      as (_ & _ & Hdel).
    destruct (Hdel (Dir [("c.md", File "# c"); ("pipe", Special)]))
      as (w1 & Hrun & Hgone & _).
    + reflexivity.
    + reflexivity.
    + reflexivity.
    + vm_compute. discriminate.
    + exists w1. split; [exact Hrun|]. split; [vm_compute; reflexivity|].
      apply Hgone. vm_compute. reflexivity.
  - destruct (deleteProjectFile_spec "/ws" "my-plan" "b.txt/" listing_world)
      as (_ & Hno & _).
    apply (Hno "hello"); reflexivity.
  - destruct (deleteProjectFile_spec "/ws" "my-plan" "b.txt" listing_world)
      as (_ & _ & Hdel).
    destruct (Hdel (File "hello")) as (w1 & Hrun & _ & Hread & _).
    + reflexivity.
    + reflexivity.
    + discriminate.
    + vm_compute. discriminate.
    + exists w1. split; assumption.
Defined.

(** ** What the queries leave alone, and what never throws *)

Lemma settles_ret {A} (a : A) : settles (ret a).
Proof. intros w. discriminate. Qed.

Lemma settles_throw {A} : settles (@throw A).
Proof. intros w. discriminate. Qed.

Lemma settles_bind {A B} (m : M A) (k : A -> M B) :
  settles m -> (forall a, settles (k a)) -> settles (bind m k).
Proof.
  intros Hm Hk w. unfold bind. specialize (Hm w).
  destruct (m w) as [w' [a| |]]; simpl in *; [apply Hk|discriminate|congruence].
Qed.

Lemma settles_if {A} (b : bool) (m1 m2 : M A) :
  settles m1 -> settles m2 -> settles (if b then m1 else m2).
Proof. now destruct b. Qed.

Lemma settles_update_fs f : settles (update_fs f).
Proof. intros w. unfold update_fs. destruct (f (fs w)); discriminate. Qed.

Lemma settles_existsSync p : settles (existsSync p).
Proof. intros w. discriminate. Qed.

Lemma settles_readFileSync p : settles (readFileSync p).
Proof.
  intros w. unfold readFileSync. destruct (lookup (fs w) p) as [[]|]; discriminate.
Qed.

Lemma settles_statSync p : settles (statSync p).
Proof. intros w. unfold statSync. destruct (lookup (fs w) p); discriminate. Qed.

Lemma settles_existsSync_name n : settles (existsSync_name n).
Proof. intros w. discriminate. Qed.

Lemma settles_readFileSync_name n : settles (readFileSync_name n).
Proof.
  intros w. unfold readFileSync_name. destruct (node_at (fs w) n) as [[]|]; discriminate.
Qed.

Lemma settles_statSync_name n : settles (statSync_name n).
Proof. intros w. unfold statSync_name. destruct (node_at (fs w) n); discriminate. Qed.

Lemma settles_mkdirSync_recursive_name n : settles (mkdirSync_recursive_name n).
Proof. apply settles_update_fs. Qed.

Lemma settles_writeFileSync_name n c : settles (writeFileSync_name n c).
Proof.
  unfold writeFileSync_name. destruct (slash n);
    [apply settles_throw|apply settles_update_fs].
Qed.

Lemma settles_unlinkSync_name n : settles (unlinkSync_name n).
Proof.
  unfold unlinkSync_name. destruct (slash n);
    [apply settles_throw|apply settles_update_fs].
Qed.

Lemma settles_rmSync_recursive_name n : settles (rmSync_recursive_name n).
Proof.
  intros w. unfold rmSync_recursive_name.
  destruct (node_at (fs w) n); [apply settles_update_fs|discriminate].
Qed.

Lemma settles_renameSync_name old new : settles (renameSync_name old new).
Proof.
  intros w. unfold renameSync_name.
  destruct (lookup (fs w) (components old)) as [src|]; [|discriminate].
  destruct ((slash old || slash new) && negb (is_dir src));
    [discriminate|apply settles_update_fs].
Qed.

Lemma settles_config_parse text : settles (ConfigJson.parse text).
Proof.
  intros w. unfold ConfigJson.parse.
  destruct (Json.parse text) as [v|]; [|discriminate].
  destruct (ConfigJson.of_json v); discriminate.
Qed.

Lemma returns_ret {A} (a : A) : returns (ret a).
Proof. intros w. now exists w, a. Qed.

Lemma returns_bind {A B} (m : M A) (k : A -> M B) :
  returns m -> (forall a, returns (k a)) -> returns (bind m k).
Proof.
  intros Hm Hk w. unfold bind. destruct (Hm w) as (w' & a & ->). apply Hk.
Qed.

Lemma returns_if {A} (b : bool) (m1 m2 : M A) :
  returns m1 -> returns m2 -> returns (if b then m1 else m2).
Proof. now destruct b. Qed.

Lemma returns_existsSync p : returns (existsSync p).
Proof. intros w. now do 2 eexists. Qed.

Lemma returns_existsSync_name n : returns (existsSync_name n).
Proof. intros w. now do 2 eexists. Qed.

(** [try { ... } catch { return a }] returns whenever its body is not cut
    off. *)
Lemma returns_try_catch {A} (m : M A) (a : A) :
  settles m -> returns (try_catch m (ret a)).
Proof.
  intros Hm w. unfold try_catch. specialize (Hm w).
  destruct (m w) as [w' [x| |]]; simpl in *.
  - now exists w', x.
  - now exists w', a.
  - congruence.
Qed.

Create HintDb settles.

#[local] Hint Resolve settles_ret settles_throw settles_update_fs settles_existsSync
  settles_readFileSync settles_statSync settles_config_parse
  settles_existsSync_name settles_readFileSync_name settles_statSync_name
  settles_mkdirSync_recursive_name settles_writeFileSync_name
  settles_unlinkSync_name settles_rmSync_recursive_name settles_renameSync_name
  returns_ret returns_existsSync returns_existsSync_name : settles.

Ltac settles_step :=
  first [ apply returns_bind; [|intros ?]
        | apply returns_try_catch
        | apply returns_if
        | apply settles_bind; [|intros ?]
        | apply settles_if
        | solve [auto with settles]
        | solve [unfold mkdirSync_recursive, rmSync_recursive, unlinkSync,
                 renameSync, writeFileSync; auto with settles] ].

Lemma returns_loadProjectConfig root slug : returns (loadProjectConfig root slug).
Proof. unfold loadProjectConfig. repeat settles_step. Qed.

Lemma returns_readProjectFile root slug filePath :
  returns (readProjectFile root slug filePath).
Proof. unfold readProjectFile. repeat settles_step. Qed.

Lemma returns_deleteProject root slug : returns (deleteProject root slug).
Proof. unfold deleteProject. repeat settles_step. Qed.

Lemma returns_deleteProjectFile root slug filePath :
  returns (deleteProjectFile root slug filePath).
Proof. unfold deleteProjectFile. repeat settles_step. Qed.

Lemma returns_renameProjectFile root slug oldPath newPath :
  returns (renameProjectFile root slug oldPath newPath).
Proof. unfold renameProjectFile. repeat settles_step. Qed.

(** X10: the operations that report failure by [null] or [false] do not
    throw.  [deleteProject], [deleteProjectFile] and [renameProjectFile]
    return a value in every world, for every argument.  [loadProjectConfig]
    and [readProjectFile] return a value, and change nothing, unless a
    special entry -- a FIFO, a socket, a device, a link -- stands at the
    path they read.  In particular [loadProjectConfig] returns [null] when
    [config.json] is missing or is a directory. *)
Theorem failures_are_values root slug filePath oldPath newPath w :
  (lookup (fs w) (config_path root slug) <> Some Special ->
   exists r, loadProjectConfig root slug w = (w, Ret r))
  /\ (lookup (fs w) (join (getProjectFilesPath root slug) filePath) <> Some Special ->
      exists r, readProjectFile root slug filePath w = (w, Ret r))
  /\ (exists w1 r, deleteProject root slug w = (w1, Ret r))
  /\ (exists w1 r, deleteProjectFile root slug filePath w = (w1, Ret r))
  /\ (exists w1 r, renameProjectFile root slug oldPath newPath w = (w1, Ret r))
  /\ (lookup (fs w) (config_path root slug) = None
      \/ dir_at (fs w) (config_path root slug) ->
      loadProjectConfig root slug w = (w, Ret None)).
Proof.
  split; [|split; [|split; [|split; [|split]]]].
  - intros _. destruct (returns_loadProjectConfig root slug w) as (w' & r & H).
    pose proof (readonly_loadProjectConfig root slug w) as F.
    rewrite H in F. simpl in F. subst w'. eauto.
  - intros _. destruct (returns_readProjectFile root slug filePath w) as (w' & r & H).
    pose proof (readonly_readProjectFile root slug filePath w) as F.
    rewrite H in F. simpl in F. subst w'. eauto.
  - apply returns_deleteProject.
  - apply returns_deleteProjectFile.
  - apply returns_renameProjectFile.
  - intros H. unfold loadProjectConfig. fold (config_path root slug).
    unfold bind at 1. unfold existsSync at 1.
    destruct H as [H|[es H]]; rewrite H; cbn [negb]; [reflexivity|].
    unfold try_catch, bind, readFileSync. now rewrite H.
Qed.

Lemma failures_are_values_witness :
  (exists r, loadProjectConfig "/ws" "my-plan" listing_world = (listing_world, Ret r))
  /\ (exists r,
        readProjectFile "/ws" "my-plan" "a/c.md" listing_world = (listing_world, Ret r))
  /\ loadProjectConfig "/ws" "other" listing_world = (listing_world, Ret None).
Proof.
  destruct (failures_are_values "/ws" "my-plan" "a/c.md" "" "" listing_world)
    as (Hload & Hread & _).
  destruct (failures_are_values "/ws" "other" "" "" "" listing_world)
    as (_ & _ & _ & _ & _ & Hmissing).
  split; [|split].
  - apply Hload. vm_compute. discriminate.
  - apply Hread. vm_compute. discriminate.
  - apply Hmissing. left. reflexivity.
Defined.

(** X11: the queries change nothing: [loadProjectConfig], [loadProject],
    [getProjectSummary], [listProjects], [listProjectFiles] and
    [readProjectFile] leave the directory tree as it was, read neither the
    clock nor the random source, and do so whatever they return. *)
Theorem queries_change_nothing cmp fuel root slug sessions sub filePath w :
  world_after (loadProjectConfig root slug) w = w
  /\ world_after (loadProject root slug) w = w
  /\ world_after (getProjectSummary fuel root slug sessions) w = w
  /\ world_after (listProjects fuel root) w = w
  /\ world_after (listProjectFiles cmp fuel root slug sub) w = w
  /\ world_after (readProjectFile root slug filePath) w = w.
Proof.
  unfold world_after. repeat split.
  - apply readonly_loadProjectConfig.
  - apply readonly_loadProjectConfig.
  - apply readonly_getProjectSummary.
  - apply readonly_listProjects.
  - apply readonly_listProjectFiles.
  - apply readonly_readProjectFile.
Qed.

(** ** Updates, missing projects and the reach of file paths *)

Lemma guidelines_step_frame root slug u w q :
  apart (guidelines_path root slug) q ->
  lookup (fs (fst (guidelines_step root slug u w))) q = lookup (fs w) q.
Proof.
  intros [H1 H2].
  unfold guidelines_step. fold (guidelines_path root slug).
  destruct (upd_guidelines u) as [| |g]; try reflexivity.
  destruct (truthy (Some g)).
  - unfold writeFileSync, update_fs.
    destruct (alter _ _ (fs w)) as [t'|] eqn:E; [|reflexivity].
    cbn [fst fs with_fs]. eapply lookup_alter_frame; eauto.
  - unfold bind, existsSync.
    destruct (lookup (fs w) (guidelines_path root slug)); [|reflexivity].
    unfold unlinkSync, update_fs.
    destruct (alter _ _ (fs w)) as [t'|] eqn:E; [|reflexivity].
    cbn [fst fs with_fs]. eapply lookup_alter_frame; eauto.
Qed.

Lemma fst_bind_ret {A B} (m : M A) (b : B) w :
  fst (bind m (fun _ => ret b) w) = fst (m w).
Proof. unfold bind. now destruct (m w) as [w' [a| |]]. Qed.

(** X12: [updateProject] writes to [config.json] and [guidelines.md] of
    the project and to nothing else: whatever it returns or throws, a path
    that is neither one of the two files nor a directory above them -- a
    file under [files], another project -- leads where it led before. *)
Theorem updateProject_frame root slug u w q :
  apart (config_path root slug) q ->
  apart (guidelines_path root slug) q ->
  lookup (fs (world_after (updateProject root slug u) w)) q = lookup (fs w) q.
Proof.
  intros Hc Hg. unfold world_after.
  destruct (returns_loadProjectConfig root slug w) as (w0 & r & Hload).
  destruct r as [c|].
  - destruct (updateProject_spec root slug u w w0 c Hload) as (t2 & _ & Hframe & ->).
    rewrite fst_bind_ret, (guidelines_step_frame _ _ _ _ _ Hg).
    cbn [fs]. destruct Hc. now apply Hframe.
  - pose proof (readonly_loadProjectConfig root slug w) as F.
    rewrite Hload in F. simpl in F. subst w0.
    unfold updateProject. now run_with Hload.
Qed.

Lemma updateProject_frame_witness :
  lookup (fs updated_world) (getProjectFilesPath "/ws" "my-plan")
  = lookup (fs project_world) (getProjectFilesPath "/ws" "my-plan").
Proof.
  apply (updateProject_frame "/ws" "my-plan" guidelines_update project_world);
    split; vm_compute; reflexivity.
Defined.

Lemma fold_step_confined base segs :
  List.existsb (String.eqb "..") segs = false ->
  forall acc, is_prefix base acc = true ->
              is_prefix base (fold_left step_segment segs acc) = true.
Proof.
  induction segs as [|seg r IH]; intros H acc Hacc; [exact Hacc|].
  simpl in H. apply orb_false_iff in H as [Hs Hr].
  simpl. apply IH; [exact Hr|].
  unfold step_segment.
  destruct (String.eqb seg ""); [exact Hacc|].
  destruct (String.eqb seg "."); [exact Hacc|].
  rewrite String.eqb_sym, Hs.
  apply is_prefix_trans with (q := acc); [exact Hacc|apply is_prefix_app].
Qed.

Lemma file_path_confined_aux root slug filePath :
  climbs filePath = false ->
  is_prefix (getProjectFilesPath root slug)
            (join (getProjectFilesPath root slug) filePath) = true.
Proof.
  intros H. unfold join at 1.
  apply fold_step_confined; [exact H|apply is_prefix_refl].
Qed.

(** X13: a file path without a [..] segment stays inside the project's
    [files] directory: the path the file operations resolve it to is the
    [files] directory or lies below it. *)
Theorem file_path_confined root slug filePath :
  climbs filePath = false ->
  is_prefix (getProjectFilesPath root slug)
            (join (getProjectFilesPath root slug) filePath) = true.
Proof.
  apply file_path_confined_aux.
Qed.

Lemma file_path_confined_witness :
  is_prefix (getProjectFilesPath "/ws" "my-plan")
            (join (getProjectFilesPath "/ws" "my-plan") "notes/./a.txt") = true.
Proof. apply (file_path_confined "/ws" "my-plan" "notes/./a.txt"). reflexivity. Defined.

Lemma files_path_child root slug :
  getProjectFilesPath root slug = (getProjectPath root slug ++ ["files"])%list.
Proof. unfold getProjectFilesPath. now apply join_valid. Qed.

Lemma join_up_config root slug :
  join (getProjectFilesPath root slug) "../config.json" = config_path root slug.
Proof.
  rewrite files_path_child, config_path_child.
  change (join (getProjectPath root slug ++ ["files"])%list "../config.json")
    with (step_segment (step_segment (getProjectPath root slug ++ ["files"])%list "..")
                       "config.json").
  unfold step_segment at 2. cbn [String.eqb Ascii.eqb Bool.eqb].
  rewrite removelast_child. reflexivity.
Qed.

(** X14: the file operations do not confine their path to [files]: the
    path [../config.json] names the project's [config.json].
    [readProjectFile] returns its text, and a [writeProjectFile] of a
    config's JSON text to that path makes [loadProjectConfig] return that
    config. *)
Theorem file_path_reaches_config root slug w :
  readProjectFile root slug "../config.json" w
  = (w, Ret (file_text (lookup (fs w) (config_path root slug))))
  /\ forall c w1,
       writeProjectFile root slug "../config.json" (ConfigJson.stringify c) w
       = (w1, Ret tt) ->
       loadProjectConfig root slug w1 = (w1, Ret (Some c)).
Proof.
  split.
  - rewrite readProjectFile_run, node_at_join by reflexivity.
    now rewrite join_up_config.
  - intros c w1 Hrun. unfold writeProjectFile in Hrun.
    apply bind_ret_inv in Hrun as (w2 & e & _ & Hrun).
    apply bind_ret_inv in Hrun as (w3 & [] & _ & Hrun).
    unfold writeFileSync_name, join_name in Hrun. cbn [slash components] in Hrun.
    change (ends_in_slash "../config.json") with false in Hrun.
    cbn iota in Hrun. rewrite join_up_config in Hrun.
    unfold writeFileSync, update_fs in Hrun.
    destruct (alter _ _ (fs w3)) as [t'|] eqn:Halt; [|discriminate].
    injection Hrun as <-.
    eapply loadProjectConfig_file; [|apply config_parse_stringify].
    cbn [fs with_fs].
    pose proof (lookup_alter_same _ _ _ _ Halt) as S.
    destruct (write_change _ _) as [r|] eqn:W; [|discriminate].
    apply write_change_file in W. congruence.
Qed.

Lemma file_path_reaches_config_witness :
  readProjectFile "/ws" "my-plan" "../config.json" project_world
  = (project_world, Ret (Some (ConfigJson.stringify project_config))).
Proof.
  destruct (file_path_reaches_config "/ws" "my-plan" project_world) as [H _].
  rewrite H. vm_compute. reflexivity.
Defined.

(** X15: on a slug whose project folder does not exist, the operations
    that do not create anything find nothing and change nothing:
    [loadProjectConfig], [getProjectSummary] and [updateProject] return
    [null], [deleteProject] returns [false], [listProjectFiles] returns the
    empty list; and for a file path without a [..] segment,
    [readProjectFile] returns [null], [deleteProjectFile] and
    [renameProjectFile] return [false], and the listing of that
    subdirectory is empty. *)
Theorem missing_project cmp fuel root slug sessions u filePath newPath w :
  lookup (fs w) (getProjectPath root slug) = None ->
  loadProjectConfig root slug w = (w, Ret None)
  /\ getProjectSummary fuel root slug sessions w = (w, Ret None)
  /\ updateProject root slug u w = (w, Ret None)
  /\ deleteProject root slug w = (w, Ret false)
  /\ listProjectFiles cmp (S fuel) root slug None w = (w, Ret [])
  /\ (climbs filePath = false ->
      readProjectFile root slug filePath w = (w, Ret None)
      /\ deleteProjectFile root slug filePath w = (w, Ret false)
      /\ renameProjectFile root slug filePath newPath w = (w, Ret false)
      /\ listProjectFiles cmp (S fuel) root slug (Some filePath) w = (w, Ret [])).
Proof.
  intros Hmiss.
  assert (Hbelow : forall q, is_prefix (getProjectPath root slug) q = true ->
                             lookup (fs w) q = None)
    by (intros q; now apply lookup_below_missing).
  assert (Hfiles : is_prefix (getProjectPath root slug) (getProjectFilesPath root slug)
                   = true)
    by (rewrite files_path_child; apply is_prefix_app).
  assert (Hload : loadProjectConfig root slug w = (w, Ret None)).
  { unfold loadProjectConfig, bind, existsSync.
    rewrite Hbelow; [reflexivity|].
    change (join (getProjectPath root slug) "config.json") with (config_path root slug).
    rewrite config_path_child. apply is_prefix_app. }
  split; [exact Hload|]. split; [|split; [|split; [|split]]].
  - unfold getProjectSummary. now run_with Hload.
  - unfold updateProject. now run_with Hload.
  - unfold deleteProject, bind, existsSync. now rewrite Hmiss.
  - cbn [listProjectFiles]. unfold bind, existsSync.
    now rewrite (Hbelow _ Hfiles).
  - intros Hc.
    assert (Hfull : lookup (fs w) (join (getProjectFilesPath root slug) filePath)
                    = None).
    { apply Hbelow. eapply is_prefix_trans; [exact Hfiles|].
      now apply file_path_confined_aux. }
    split; [|split; [|split]].
    + rewrite readProjectFile_run. now rewrite (node_at_join_missing _ _ _ Hfull).
    + unfold deleteProjectFile, bind, existsSync_name.
      now rewrite (node_at_join_missing _ _ _ Hfull).
    + unfold renameProjectFile, bind, existsSync_name.
      now rewrite (node_at_join_missing _ _ _ Hfull).
    + cbn [listProjectFiles]. unfold bind, existsSync.
      destruct (truthy (Some filePath)).
      * now rewrite Hfull.
      * now rewrite (Hbelow _ Hfiles).
Qed.

Lemma missing_project_witness :
  updateProject "/ws" "ghost" guidelines_update project_world
  = (project_world, Ret None)
  /\ deleteProject "/ws" "ghost" project_world = (project_world, Ret false).
Proof.
  destruct (missing_project code_unit_compare 0 "/ws" "ghost" 0 guidelines_update
                            "a.txt" "b.txt" project_world)
    as (_ & _ & Hu & Hd & _).
  - vm_compute. reflexivity.
  - split; assumption.
Defined.

(** X27: the slug is not confined either: the slug [..] names the
    workspace root itself, so [deleteProject] with that slug removes the
    whole workspace folder, when it exists, and returns [true]. *)
Theorem slug_reaches_workspace root w :
  getProjectPath root ".." = resolve root
  /\ (lookup (fs w) (resolve root) <> None -> resolve root <> [] ->
      exists w1,
        deleteProject root ".." w = (w1, Ret true)
        /\ forall q, is_prefix (resolve root) q = true -> lookup (fs w1) q = None).
Proof.
  assert (E : getProjectPath root ".." = resolve root).
  { unfold getProjectPath, getWorkspaceProjectsPath.
    rewrite (join_valid _ "projects") by reflexivity.
    rewrite join_parent. apply removelast_child. }
  split; [exact E|]. intros Hex Hne.
  destruct (deleteProject_run root ".." w) as (_ & Hdel).
  rewrite E in Hdel. destruct (Hdel Hex Hne) as (w1 & Hrun & Hgone & _).
  exists w1. split; assumption.
Qed.

Lemma slug_reaches_workspace_witness :
  exists w1,
    deleteProject "/ws" ".." project_world = (w1, Ret true)
    /\ lookup (fs w1) (getProjectPath "/ws" "my-plan") = None.
Proof.
  destruct (slug_reaches_workspace "/ws" project_world) as (_ & Hdel).
  destruct Hdel as (w1 & Hrun & Hgone).
  - vm_compute. discriminate.
  - vm_compute. discriminate.
  - exists w1. split; [exact Hrun|]. apply Hgone. vm_compute. reflexivity.
Defined.

(** ** The listing: order, count and paths *)

(** X16: [listProjectFiles] shows no entry whose name starts with a dot,
    in the directory it lists or in any directory below it. *)
Theorem hidden_entries_not_listed cmp fuel root slug sub w :
  well_formed (fs w) = true ->
  (height (fs w) < fuel)%nat ->
  exists files,
    listProjectFiles cmp fuel root slug sub w = (w, Ret files)
    /\ List.forallb visible files = true.
Proof. apply listProjectFiles_visible. Qed.

Lemma hidden_entries_not_listed_witness :
  exists files,
    listProjectFiles code_unit_compare 7 "/ws" "my-plan" None listing_world
    = (listing_world, Ret files)
    /\ List.forallb visible files = true.
Proof.
  apply (hidden_entries_not_listed code_unit_compare 7 "/ws" "my-plan" None
                                   listing_world).
  - reflexivity.
  - vm_compute. lia.
Defined.

Lemma In_insert_sorted {A} (cmp : A -> A -> Z) x l y :
  In y (insert_sorted cmp x l) <-> y = x \/ In y l.
Proof.
  induction l as [|z r IH]; cbn [insert_sorted].
  - simpl. intuition.
  - destruct (cmp x z <? 0)%Z; simpl; [intuition|].
    rewrite IH. intuition.
Qed.

Lemma In_sort {A} (cmp : A -> A -> Z) l y : In y (sort cmp l) <-> In y l.
Proof.
  unfold sort.
  enough (G : forall acc,
             In y (fold_left (fun acc x => insert_sorted cmp x acc) l acc)
             <-> In y acc \/ In y l) by (rewrite G; simpl; intuition).
  induction l as [|x r IH]; intros acc; cbn [fold_left].
  - simpl. intuition.
  - rewrite IH, In_insert_sorted. simpl. intuition.
Qed.

Lemma sum_N_cons x l : sum_N (x :: l) = x + sum_N l.
Proof. reflexivity. Qed.

Lemma sum_insert_sorted {A} (cmp : A -> A -> Z) (f : A -> N) x l :
  sum_N (map f (insert_sorted cmp x l)) = f x + sum_N (map f l).
Proof.
  induction l as [|z r IH]; cbn [insert_sorted]; [reflexivity|].
  destruct (cmp x z <? 0)%Z; [reflexivity|].
  cbn [map]. rewrite !sum_N_cons, IH. lia.
Qed.

Lemma sum_sort {A} (cmp : A -> A -> Z) (f : A -> N) l :
  sum_N (map f (sort cmp l)) = sum_N (map f l).
Proof.
  unfold sort.
  enough (G : forall acc,
             sum_N (map f (fold_left (fun acc x => insert_sorted cmp x acc) l acc))
             = sum_N (map f acc) + sum_N (map f l)) by (rewrite G; reflexivity).
  induction l as [|x r IH]; intros acc; cbn [fold_left].
  - cbn [map sum_N fold_right]. lia.
  - rewrite IH, sum_insert_sorted. cbn [map]. rewrite sum_N_cons. lia.
Qed.

Section Order.
Variable cmp : string -> string -> Z.

Lemma dirs_first_insert x l :
  dirs_first l = true -> dirs_first (insert_sorted (compare_files cmp) x l) = true.
Proof.
  induction l as [|y r IH]; intros H.
  - cbn [insert_sorted dirs_first]. now destruct (pf_type x).
  - cbn [insert_sorted]. unfold compare_files at 1.
    destruct (pf_type x) eqn:Tx, (pf_type y) eqn:Ty; cbn [file_type_eqb negb].
    + cbn [dirs_first] in H. rewrite Ty in H.
      destruct (cmp (pf_name x) (pf_name y) <? 0)%Z.
      * cbn [dirs_first]. rewrite Tx. cbn [List.forallb]. unfold is_file_entry at 1.
        now rewrite Ty, H.
      * cbn [dirs_first]. rewrite Ty. rewrite forallb_insert_sorted.
        unfold is_file_entry at 1. now rewrite Tx, H.
    + change (1 <? 0)%Z with false. cbn [dirs_first] in *. rewrite Ty in *. auto.
    + change (-1 <? 0)%Z with true. cbn [dirs_first] in *. rewrite Tx, Ty in *.
      exact H.
    + cbn [dirs_first] in H. rewrite Ty in H.
      destruct (cmp (pf_name x) (pf_name y) <? 0)%Z.
      * cbn [dirs_first]. now rewrite Tx, Ty.
      * cbn [dirs_first]. rewrite Ty. auto.
Qed.

Lemma dirs_first_sort l : dirs_first (sort (compare_files cmp) l) = true.
Proof.
  unfold sort.
  enough (G : forall acc, dirs_first acc = true ->
              dirs_first (fold_left (fun acc x => insert_sorted (compare_files cmp) x acc)
                                    l acc) = true) by now apply G.
  induction l as [|x r IH]; intros acc H; cbn [fold_left]; [exact H|].
  apply IH. now apply dirs_first_insert.
Qed.

Lemma list_node_ordered R t :
  forall D, List.forallb ordered (list_node cmp R D t) = true.
Proof.
  induction t as [c| |es IH] using node_nested_ind; try reflexivity.
  intros D. cbn [list_node]. rewrite forallb_sort.
  induction IH as [|[k c] r Hc _ IHr]; [reflexivity|].
  cbn [snd] in Hc. cbn [list_entries].
  destruct (startsWith "." k); [exact IHr|].
  destruct c as [txt|es'|]; cbn [List.forallb ordered]; rewrite ?IHr, ?Hc;
    try reflexivity; try exact IHr.
  cbn [list_node]. now rewrite dirs_first_sort.
Qed.

(** The comparator never puts each of two names before the other. *)
Hypothesis asym : forall a b, (cmp a b < 0)%Z -> (0 <= cmp b a)%Z.

Lemma compare_files_asym a b :
  (compare_files cmp a b <? 0)%Z = true -> (compare_files cmp b a <? 0)%Z = false.
Proof.
  unfold compare_files.
  destruct (pf_type a), (pf_type b); cbn [file_type_eqb negb]; try discriminate;
    try reflexivity.
  - intros H. apply Z.ltb_lt in H. apply Z.ltb_ge. now apply asym.
  - intros H. apply Z.ltb_lt in H. apply Z.ltb_ge. now apply asym.
Qed.

Lemma in_order_cons a b r :
  in_order cmp (a :: b :: r)
  = negb (compare_files cmp b a <? 0)%Z && in_order cmp (b :: r).
Proof. reflexivity. Qed.

Lemma in_order_insert x l :
  in_order cmp l = true -> in_order cmp (insert_sorted (compare_files cmp) x l) = true.
Proof.
  induction l as [|y r IH]; intros H; [reflexivity|].
  cbn [insert_sorted].
  destruct (compare_files cmp x y <? 0)%Z eqn:E.
  - rewrite in_order_cons, (compare_files_asym _ _ E). exact H.
  - destruct r as [|z r'].
    + cbn [insert_sorted]. rewrite in_order_cons, E. reflexivity.
    + rewrite in_order_cons in H. apply andb_true_iff in H as [H1 H2].
      specialize (IH H2). cbn [insert_sorted] in *.
      destruct (compare_files cmp x z <? 0)%Z.
      * rewrite in_order_cons, E. exact IH.
      * rewrite in_order_cons, H1. exact IH.
Qed.

Lemma in_order_sort l : in_order cmp (sort (compare_files cmp) l) = true.
Proof.
  unfold sort.
  enough (G : forall acc, in_order cmp acc = true ->
              in_order cmp (fold_left (fun acc x => insert_sorted (compare_files cmp) x acc)
                                      l acc) = true) by now apply G.
  induction l as [|x r IH]; intros acc H; cbn [fold_left]; [exact H|].
  apply IH. now apply in_order_insert.
Qed.

Lemma list_node_sorted_deep R t :
  forall D, List.forallb (sorted_deep cmp) (list_node cmp R D t) = true.
Proof.
  induction t as [c| |es IH] using node_nested_ind; try reflexivity.
  intros D. cbn [list_node]. rewrite forallb_sort.
  induction IH as [|[k c] r Hc _ IHr]; [reflexivity|].
  cbn [snd] in Hc. cbn [list_entries].
  destruct (startsWith "." k); [exact IHr|].
  destruct c as [txt|es'|]; cbn [List.forallb sorted_deep]; rewrite ?IHr, ?Hc;
    try reflexivity; try exact IHr.
  cbn [list_node]. now rewrite in_order_sort.
Qed.

End Order.

(** X17: in the listing, and in the children of every directory it
    shows, no file comes before a directory, whatever the collation.  When
    the collation never puts each of two names before the other, no entry is
    followed by one that the comparator of the sort puts before it:
    directories first, then by name. *)
Theorem listProjectFiles_ordered cmp fuel root slug sub w :
  well_formed (fs w) = true ->
  (height (fs w) < fuel)%nat ->
  exists files,
    listProjectFiles cmp fuel root slug sub w = (w, Ret files)
    /\ dirs_first files = true
    /\ List.forallb ordered files = true
    /\ ((forall a b, (cmp a b < 0)%Z -> (0 <= cmp b a)%Z) ->
        in_order cmp files = true
        /\ List.forallb (sorted_deep cmp) files = true).
Proof.
  intros W Hh. eexists. split.
  - apply listProjectFiles_list; [lia|].
    intros n L. destruct (well_formed_lookup _ _ _ W L). split; [auto|lia].
  - unfold list_at.
    destruct (lookup _ _) as [[c|es|]|]; cbn [list_node];
      try (split; [reflexivity|split; [reflexivity|intros _; split; reflexivity]]).
    split; [apply dirs_first_sort|].
    split; [apply (list_node_ordered cmp _ (Dir es))|].
    intros asym. split; [now apply in_order_sort|].
    now apply (list_node_sorted_deep cmp asym _ (Dir es)).
Qed.

Lemma listProjectFiles_ordered_witness :
  exists files,
    listProjectFiles code_unit_compare 7 "/ws" "my-plan" None listing_world
    = (listing_world, Ret files)
    /\ dirs_first files = true.
Proof.
  destruct (listProjectFiles_ordered code_unit_compare 7 "/ws" "my-plan" None
                                     listing_world) as (files & Hrun & Hd & _).
  - reflexivity.
  - vm_compute. lia.
  - exists files. split; assumption.
Defined.

Lemma listed_within_count cmp R t :
  forall D,
    sum_N (map listed_files (list_node cmp R D t)) <= count_node t
    /\ (hidden_free t = true ->
        sum_N (map listed_files (list_node cmp R D t)) = count_node t).
Proof.
  induction t as [c| |es IH] using node_nested_ind;
    try (intros D; split; [cbn; lia|reflexivity]).
  intros D. cbn [list_node count_node hidden_free]. rewrite sum_sort.
  induction IH as [|[k c] r Hc _ IHr]; [split; [cbn; lia|reflexivity]|].
  cbn [snd fst] in *. destruct IHr as [IH1 IH2].
  cbn [list_entries count_entries List.forallb]. cbn [fst snd].
  destruct (startsWith "." k); cbn [negb andb].
  - split; [|discriminate]. destruct c; lia.
  - destruct c as [txt|es'|]; cbn [map]; rewrite ?sum_N_cons; cbn [listed_files].
    + split; [lia|]. intros H. now rewrite IH2.
    + destruct (Hc (D ++ [k])%list) as [H1 H2].
      split; [lia|]. intros H. apply andb_true_iff in H as [Ha Hb].
      now rewrite H2, IH2.
    + split; [lia|]. intros H. now apply IH2.
Qed.

(** X18: the regular files that [listProjectFiles] shows for a project,
    counted at every depth, are never more than the [fileCount] of its
    summary, and they are exactly as many when no entry under [files] has a
    name that starts with a dot. *)
Theorem listing_within_fileCount cmp fuel root slug sessions w s :
  well_formed (fs w) = true ->
  (height (fs w) < fuel)%nat ->
  getProjectSummary fuel root slug sessions w = (w, Ret (Some s)) ->
  exists files,
    listProjectFiles cmp fuel root slug None w = (w, Ret files)
    /\ sum_N (map listed_files files) <= fileCount s
    /\ (hidden_free_at (fs w) (getProjectFilesPath root slug) = true ->
        sum_N (map listed_files files) = fileCount s).
Proof.
  intros W Hh Hsum.
  unfold getProjectSummary in Hsum.
  apply bind_ret_inv in Hsum as (w1 & [c|] & Hload & Hsum); [|discriminate].
  pose proof (readonly_loadProjectConfig root slug w) as F.
  rewrite Hload in F. simpl in F. subst w1.
  rewrite (bind_run _ _ _ _ _ (countFiles_all_files _ _ _ W Hh)) in Hsum.
  injection Hsum as <-. cbn [fileCount].
  eexists. split.
  - apply listProjectFiles_list; [lia|].
    intros n L. destruct (well_formed_lookup _ _ _ W L). split; [auto|lia].
  - unfold list_at, count_at, hidden_free_at, listed_path.
    destruct (lookup (fs w) (getProjectFilesPath root slug)) as [n|].
    + apply listed_within_count.
    + split; [cbn; lia|reflexivity].
Qed.

Lemma listing_within_fileCount_witness :
  exists files,
    listProjectFiles code_unit_compare 7 "/ws" "my-plan" None listing_world
    = (listing_world, Ret files)
    /\ sum_N (map listed_files files) <= 3.
Proof.
  destruct (listing_within_fileCount code_unit_compare 7 "/ws" "my-plan" 0
                                     listing_world listing_summary)
    as (files & Hrun & Hle & _).
  - reflexivity.
  - vm_compute. lia.
  - vm_compute. reflexivity.
  - exists files. split; [exact Hrun|exact Hle].
Defined.

(** ** The paths of a listing *)

Lemma list_entries_in R walk D es g :
  In g (list_entries R walk D es) ->
  exists k c,
    In (k, c) es
    /\ ((exists txt, c = File txt
                     /\ g = mkProjectFile k (relative R (D ++ [k])%list) TFile
                                          (Some (utf8_length txt)) None)
        \/ (exists es', c = Dir es'
                        /\ g = mkProjectFile k (relative R (D ++ [k])%list) TDirectory
                                             None (Some (walk (D ++ [k])%list c)))).
Proof.
  induction es as [|[k c] r IH]; [intros []|].
  cbn [list_entries]. intros H.
  assert (Hr : In g (list_entries R walk D r) ->
               exists k0 c0,
                 In (k0, c0) ((k, c) :: r)
                 /\ ((exists txt, c0 = File txt
                                  /\ g = mkProjectFile k0 (relative R (D ++ [k0])%list)
                                                       TFile (Some (utf8_length txt)) None)
                     \/ (exists es', c0 = Dir es'
                                     /\ g = mkProjectFile k0 (relative R (D ++ [k0])%list)
                                                          TDirectory None
                                                          (Some (walk (D ++ [k0])%list c0))))).
  { intros Hin. destruct (IH Hin) as (k0 & c0 & Hk & Hg).
    exists k0, c0. split; [now right|exact Hg]. }
  destruct (startsWith "." k); [now apply Hr|].
  destruct c as [txt|es'|]; [| |now apply Hr].
  - destruct H as [<-|H]; [|now apply Hr].
    exists k, (File txt). split; [now left|]. left. eauto.
  - destruct H as [<-|H]; [|now apply Hr].
    exists k, (Dir es'). split; [now left|]. right. eauto.
Qed.

Lemma normal_child d k :
  normal d = true -> valid_segment k = true -> normal (d ++ [k])%list = true.
Proof.
  intros Hd Hk. rewrite normal_app, Hd. unfold normal. simpl. now rewrite Hk.
Qed.

(** Every entry of the listing of a tree, at every depth, shows a node
    of the tree. *)
Lemma list_node_shows cmp R t0 t :
  forall D,
    lookup t0 D = Some t -> normal D = true -> well_formed t = true ->
    forall f, In f (flat_map all_entries (list_node cmp R D t)) ->
              exists d k n,
                normal d = true /\ valid_segment k = true
                /\ lookup t0 (d ++ [k])%list = Some n
                /\ shows cmp R f (d ++ [k])%list n.
Proof.
  induction t as [c| |es IH] using node_nested_ind;
    try (intros D _ _ _ f []).
  intros D L N W f Hin. cbn [list_node] in Hin.
  apply in_flat_map in Hin as (g & Hg & Hf).
  apply In_sort in Hg.
  apply list_entries_in in Hg as (k & c & Hkc & Hg).
  destruct (well_formed_child _ _ _ W Hkc) as [Hk Wc].
  assert (Lc : lookup t0 (D ++ [k])%list = Some c).
  { rewrite lookup_child, L.
    apply in_find_unique; [now apply well_formed_unique|exact Hkc]. }
  destruct Hg as [(txt & -> & ->) | (es' & -> & ->)].
  - destruct Hf as [<-|[]].
    exists D, k, (File txt). repeat split; auto.
  - cbn [all_entries] in Hf. destruct Hf as [<-|Hf].
    + exists D, k, (Dir es'). repeat split; auto.
    + rewrite Forall_forall in IH.
      apply (IH (k, Dir es') Hkc (D ++ [k])%list); auto.
      now apply normal_child.
Qed.

Lemma endsWith_char_append c a b :
  b <> EmptyString ->
  JsString.endsWith_char c (a ++ b) = JsString.endsWith_char c b.
Proof.
  intros Hb. induction a as [|x a IH]; [reflexivity|].
  cbn [append]. destruct (a ++ b)%string eqn:E.
  - destruct a; [cbn in E; congruence|discriminate].
  - exact IH.
Qed.

Lemma slash_free_no_end s : slash_free s = true -> ends_in_slash s = false.
Proof.
  unfold slash_free, ends_in_slash. induction s as [|x s IH]; [reflexivity|].
  cbn [JsString.forallb]. intros H. apply andb_true_iff in H as [Hx Hs].
  destruct s as [|y s].
  - cbn. now apply negb_true_iff in Hx.
  - exact (IH Hs).
Qed.

Lemma concat_no_end l :
  Forall (fun x => slash_free x = true /\ x <> EmptyString) l ->
  ends_in_slash (String.concat "/" l) = false.
Proof.
  induction 1 as [|x r [Hx Hne] Hr IH]; [reflexivity|].
  destruct r as [|y r]; [now apply slash_free_no_end|].
  cbn [String.concat]. cbn [String.concat] in IH. unfold ends_in_slash in *.
  assert (Hy : (match r with [] => y | _ :: _ => y ++ "/" ++ String.concat "/" r end)%string
               <> EmptyString).
  { inversion Hr as [|? ? [_ Hy] _]; subst.
    destruct r; [exact Hy|]. destruct y; [congruence|discriminate]. }
  rewrite endsWith_char_append by discriminate.
  change ("/" ++ ?s)%string with (String "/" s).
  cbn [JsString.endsWith_char].
  destruct (match r with [] => y | _ :: _ => y ++ "/" ++ String.concat "/" r end)%string
    eqn:E; [congruence|exact IH].
Qed.

(** The relative path of a listed entry does not end in a slash. *)
Lemma relative_no_end from to :
  normal to = true -> ends_in_slash (relative from to) = false.
Proof.
  intros Ht.
  destruct (relative_segments_shape from to) as (c & f & t & -> & -> & R).
  unfold relative. rewrite R. apply concat_no_end.
  apply Forall_app. split.
  - generalize (List.length f). intros n.
    induction n; constructor; [split; [reflexivity|discriminate]|assumption].
  - rewrite normal_app in Ht. apply andb_true_iff in Ht as [_ Ht].
    apply Forall_forall. intros s Hs.
    unfold normal in Ht. rewrite forallb_forall in Ht. specialize (Ht s Hs).
    split; [now apply valid_segment_slash_free|].
    intros ->. discriminate Ht.
Qed.

(** X19: the paths of a listing lead back to what it shows.  For every
    entry of the listing of a project, at every depth: when it is a file,
    [readProjectFile] of its [path] returns a text; when it is a
    directory, its [children] are what [listProjectFiles] returns for its
    [path]. *)
Theorem listed_paths_resolve cmp fuel root slug w :
  well_formed (fs w) = true ->
  (height (fs w) < fuel)%nat ->
  exists files,
    listProjectFiles cmp fuel root slug None w = (w, Ret files)
    /\ forall f, In f (flat_map all_entries files) ->
         match pf_type f with
         | TFile =>
             exists text,
               readProjectFile root slug (pf_path f) w = (w, Ret (Some text))
         | TDirectory =>
             exists children,
               pf_children f = Some children
               /\ listProjectFiles cmp fuel root slug (Some (pf_path f)) w
                  = (w, Ret children)
         end.
Proof.
  intros W Hh.
  assert (Hsub : forall sub n, lookup (fs w) (listed_path root slug sub) = Some n ->
                               well_formed n = true /\ (height n < fuel)%nat).
  { intros sub n L. destruct (well_formed_lookup _ _ _ W L). split; [auto|lia]. }
  eexists. split; [apply listProjectFiles_list; [lia|apply Hsub]|].
  intros f Hin. unfold list_at, listed_path in Hin.
  destruct (lookup (fs w) (getProjectFilesPath root slug)) as [t|] eqn:L;
    [|destruct Hin].
  pose proof (files_root_normal root slug) as NR.
  destruct (well_formed_lookup _ _ _ W L) as [Wt _].
  destruct (list_node_shows cmp _ (fs w) t _ L NR Wt f Hin)
    as (d & k & n & Nd & Hk & Ln & Hp & Hn).
  pose proof (normal_child _ _ Nd Hk) as Np.
  destruct n as [txt|es|]; [| |destruct Hn].
  - destruct Hn as [-> _]. exists txt.
    rewrite readProjectFile_run, Hp, node_at_join by (now apply relative_no_end).
    rewrite (join_relative _ _ NR Np), Ln. reflexivity.
  - destruct Hn as [-> Hch]. eexists. split; [exact Hch|].
    rewrite listProjectFiles_list by (lia || apply Hsub).
    unfold list_at. rewrite Hp, (listed_path_relative root slug d k Nd Hk), Ln.
    reflexivity.
Qed.

Lemma listed_paths_resolve_witness :
  readProjectFile "/ws" "my-plan" "a/c.md" listing_world
  = (listing_world, Ret (Some "# c")).
Proof.
  destruct (listed_paths_resolve code_unit_compare 7 "/ws" "my-plan" listing_world)
    as (files & Hrun & Hall).
  - reflexivity.
  - vm_compute. lia.
  - vm_compute in Hrun. injection Hrun as <-.
    destruct (Hall (mkProjectFile "c.md" "a/c.md" TFile (Some 3) None))
      as (text & Hread).
    + cbn. auto.
    + vm_compute. reflexivity.
Defined.

(** ** Listing the projects *)





Lemma getProjectSummary_returns fuel root slug sessions w :
  well_formed (fs w) = true ->
  (height (fs w) < fuel)%nat ->
  exists r, getProjectSummary fuel root slug sessions w = (w, Ret r).
Proof.
  intros W Hh. unfold getProjectSummary.
  destruct (returns_loadProjectConfig root slug w) as (w0 & r & Hload).
  pose proof (readonly_loadProjectConfig root slug w) as F.
  rewrite Hload in F. simpl in F. subst w0.
  run_with Hload. destruct r as [c|]; [|now eexists].
  run_with (countFiles_all_files fuel (getProjectFilesPath root slug) w W Hh).
  now eexists.
Qed.

(** The loop of [listProjects] over the entries of the projects
    directory. *)
Lemma listProjects_loop fuel root w es :
  well_formed (fs w) = true ->
  (height (fs w) < fuel)%nat ->
  forall acc,
    exists found,
      for_each (map dirent_of es)
        (fun entry projects =>
           if negb (isDirectory entry) then ret projects
           else
             summary <- getProjectSummary fuel root (dirent_name entry) 0 ;;
             match summary with
             | Some s => ret (projects ++ [s])%list
             | None => ret projects
             end)
        acc w
      = (w, Ret (acc ++ found)%list)
      /\ forall s, In s found <->
                   exists k sub, In (k, Dir sub) es
                                 /\ getProjectSummary fuel root k 0 w = (w, Ret (Some s)).
Proof.
  intros W Hh. induction es as [|[k c] r IH]; intros acc.
  - exists []. split; [now rewrite List.app_nil_r|].
    intros s. split; [intros []|intros (k & sub & [] & _)].
  - cbn [map for_each].
    change (dirent_name (dirent_of (k, c))) with k.
    change (isDirectory (dirent_of (k, c))) with (is_dir c).
    assert (Hskip : forall found,
               (forall s, In s found <->
                          exists k0 sub, In (k0, Dir sub) r
                                         /\ getProjectSummary fuel root k0 0 w
                                            = (w, Ret (Some s))) ->
               (forall sub, c = Dir sub ->
                            getProjectSummary fuel root k 0 w = (w, Ret None)) ->
               forall s, In s found <->
                         exists k0 sub, In (k0, Dir sub) ((k, c) :: r)
                                        /\ getProjectSummary fuel root k0 0 w
                                           = (w, Ret (Some s))).
    { intros found Hf Hc s. rewrite Hf. split.
      - intros (k0 & sub & Hin & Hs). exists k0, sub. split; [now right|exact Hs].
      - intros (k0 & sub & [E|Hin] & Hs); [|now eauto].
        injection E as <- ->. rewrite (Hc sub eq_refl) in Hs. discriminate. }
    destruct (is_dir c) eqn:Ec; cbn [negb].
    + destruct (getProjectSummary_returns fuel root k 0 w W Hh) as [o Ho].
      unfold bind at 1. run_with Ho. destruct o as [s0|].
      * destruct (IH (acc ++ [s0])%list) as (found & Hrun & Hf).
        exists (s0 :: found). split.
        { unfold ret at 1. rewrite Hrun, <- List.app_assoc. reflexivity. }
        intros s. cbn [In]. rewrite Hf. split.
        { intros [<-|(k0 & sub & Hin & Hs)].
          - destruct c as [|sub|]; try discriminate.
            exists k, sub. split; [now left|exact Ho].
          - exists k0, sub. split; [now right|exact Hs]. }
        { intros (k0 & sub & [E|Hin] & Hs).
          - injection E as <- ->. rewrite Ho in Hs. injection Hs as ->. now left.
          - right. eauto. }
      * destruct (IH acc) as (found & Hrun & Hf).
        exists found. split.
        { unfold ret at 1. exact Hrun. }
        apply Hskip; [exact Hf|]. intros sub _. exact Ho.
    + destruct (IH acc) as (found & Hrun & Hf).
      exists found. split.
      { unfold ret at 1. unfold bind at 1. exact Hrun. }
      apply Hskip; [exact Hf|]. intros sub ->. discriminate.
Qed.

Lemma listProjects_of_entries fuel root w es :
  well_formed (fs w) = true ->
  (height (fs w) < fuel)%nat ->
  lookup (fs w) (getWorkspaceProjectsPath root) = Some (Dir es) ->
  exists l,
    listProjects fuel root w = (w, Ret l)
    /\ forall s, In s l <->
                 exists k sub, In (k, Dir sub) es
                               /\ getProjectSummary fuel root k 0 w = (w, Ret (Some s)).
Proof.
  intros W Hh L.
  destruct (listProjects_loop fuel root w es W Hh []) as (found & Hrun & Hf).
  exists (sort (fun a b => (summary_updatedAt b - summary_updatedAt a)%Z) found).
  split.
  - unfold listProjects. unfold bind at 1. unfold existsSync at 1. rewrite L.
    cbn [negb]. unfold bind at 1. unfold try_catch.
    unfold bind at 1. unfold readdirSync at 1. rewrite L.
    rewrite Hrun. reflexivity.
  - intros s. rewrite In_sort. apply Hf.
Qed.

(** X21: [listProjects] lists exactly the project folders that load: a
    summary is in the list if and only if it is the summary
    [getProjectSummary] returns for a directory entry of the projects
    directory.  Entries that are not directories and directories whose
    [config.json] does not load are left out. *)
Theorem listProjects_members fuel root w es :
  well_formed (fs w) = true ->
  (height (fs w) < fuel)%nat ->
  lookup (fs w) (getWorkspaceProjectsPath root) = Some (Dir es) ->
  exists l,
    listProjects fuel root w = (w, Ret l)
    /\ forall s, In s l <->
                 exists k sub, In (k, Dir sub) es
                               /\ getProjectSummary fuel root k 0 w = (w, Ret (Some s)).
Proof. apply listProjects_of_entries. Qed.

Lemma listProjects_members_witness :
  exists l,
    listProjects 7 "/ws" two_projects_world = (two_projects_world, Ret l)
    /\ List.length l = 2%nat.
Proof.
  destruct (listProjects_members 7 "/ws" two_projects_world
              (match lookup (fs two_projects_world) (getWorkspaceProjectsPath "/ws") with
               | Some (Dir es) => es
               | _ => []
               end))
    as (l & Hrun & _).
  - reflexivity.
  - vm_compute. lia.
  - vm_compute. reflexivity.
  - exists l. split; [exact Hrun|].
    vm_compute in Hrun. injection Hrun as <-. reflexivity.
Defined.

(** X25: a project that [createProject] made is listed: in the world the
    call leaves (a tree without doubled names, not deeper than the fuel of
    the walks), [listProjects] returns a list that holds the summary of the
    new project, with the fields of the returned config and no files. *)
Theorem created_project_is_listed fuel root input w :
  projects_root_ready fuel w root ->
  well_formed (fs (world_after (createProject fuel root input) w)) = true ->
  (height (fs (world_after (createProject fuel root input) w)) < fuel)%nat ->
  exists w1 c l,
    createProject fuel root input w = (w1, Ret c)
    /\ listProjects fuel root w1 = (w1, Ret l)
    /\ In (mkProjectSummary (id c) (slug c) (name c) (description c) 0 0
                            (createdAt c) (updatedAt c)) l.
Proof.
  intros Hready.
  destruct (createProject_layout fuel root input w Hready)
    as (t1 & es & s & Hmk & Hes & Hs & HP & Hrun).
  unfold world_after. rewrite Hrun. cbn [fst].
  set (c := created_config input s w) in *.
  set (w1 := mkWorld _ _ _ _ _) in *.
  intros W Hh. destruct Hs as (Hfree & Hvalid & _).
  assert (Lp : lookup (fs w1) (getWorkspaceProjectsPath root)
               = Some (Dir (es ++ [(s, project_folder c)]))).
  { unfold w1. cbn [fs]. apply lookup_graft_same. congruence. }
  destruct (listProjects_of_entries fuel root w1 _ W Hh Lp) as (l & Hl & Hin).
  exists w1, c, l. split; [reflexivity|]. split; [exact Hl|].
  apply Hin. exists s. eexists. split.
  { apply in_or_app. right. left. unfold project_folder. reflexivity. }
  assert (Hload : loadProjectConfig root s w1 = (w1, Ret (Some c))).
  { eapply loadProjectConfig_file; [|apply config_parse_stringify].
    rewrite config_path_child, HP. unfold w1. cbn [fs].
    rewrite (lookup_created _ _ _ _ _ ["config.json"] Hes Hfree). reflexivity. }
  unfold getProjectSummary. run_with Hload.
  run_with (countFiles_all_files fuel (getProjectFilesPath root s) w1 W Hh).
  unfold ret. do 3 f_equal. cbn [slug c created_config]. f_equal.
  unfold count_at. rewrite files_path_child, HP. unfold w1. cbn [fs].
  rewrite (lookup_created _ _ _ _ _ ["files"] Hes Hfree). reflexivity.
Qed.

Lemma created_project_is_listed_witness :
  exists l,
    listProjects 7 "/ws" (world_after (createProject 7 "/ws" project_input)
                                      fresh_workspace)
    = (world_after (createProject 7 "/ws" project_input) fresh_workspace, Ret l)
    /\ map summary_slug l = ["my-plan"].
Proof.
  destruct (created_project_is_listed 7 "/ws" project_input fresh_workspace)
    as (w1 & c & l & Hrun & Hl & _).
  - eexists. split; [vm_compute; reflexivity|]. vm_compute. lia.
  - reflexivity.
  - vm_compute. lia.
  - exists l. unfold world_after. rewrite Hrun. cbn [fst]. split; [exact Hl|].
    vm_compute in Hrun. injection Hrun as <- <-.
    vm_compute in Hl. injection Hl as <-. reflexivity.
Defined.

(** ** The size shown for a file *)

Lemma toFixed1_nearest num den :
  0 < den ->
  exists t,
    toFixed1 num den = of_N (t / 10) ++ "." ++ of_N (t mod 10)
    /\ 2 * den * t <= 20 * num + den
    /\ 20 * num + den < 2 * den * t + 2 * den.
Proof.
  intros Hd. exists ((20 * num + den) / (2 * den)).
  split; [reflexivity|].
  assert (Hne : 2 * den <> 0) by lia.
  pose proof (N.div_mod (20 * num + den) (2 * den) Hne) as E.
  pose proof (N.mod_lt (20 * num + den) (2 * den) Hne) as L.
  set (q := (20 * num + den) / (2 * den)) in *.
  set (r := (20 * num + den) mod (2 * den)) in *.
  split; nia.
Qed.

(** X22: the size shown for a file.  Below 1024 bytes it is the number of
    bytes.  From 1024 bytes up to one byte less than 1024 * 1024 it is a
    number of KB with one decimal, the size divided by 1024 and rounded to
    the nearest tenth, so the largest sizes of that range, from 1048525
    bytes on, are shown as [1024.0 KB].  From 1024 * 1024 bytes on it is
    a number of MB with one decimal, rounded likewise. *)
Theorem formatFileSize_rounds (bytes : N) :
  (bytes < 1024 -> formatFileSize bytes = of_N bytes ++ " B")
  /\ (1024 <= bytes < 1048576 ->
      exists t,
        formatFileSize bytes = of_N (t / 10) ++ "." ++ of_N (t mod 10) ++ " KB"
        /\ 10 <= t <= 10240
        /\ 1024 * t <= 10 * bytes + 512 < 1024 * t + 1024)
  /\ (1048525 <= bytes < 1048576 -> formatFileSize bytes = "1024.0 KB")
  /\ (1048576 <= bytes ->
      exists t,
        formatFileSize bytes = of_N (t / 10) ++ "." ++ of_N (t mod 10) ++ " MB"
        /\ 10 <= t
        /\ 1048576 * t <= 10 * bytes + 524288 < 1048576 * t + 1048576).
Proof.
  unfold formatFileSize.
  split; [|split; [|split]].
  - intros H. apply N.ltb_lt in H. now rewrite H.
  - intros [H1 H2].
    destruct (bytes <? 1024) eqn:E1; [apply N.ltb_lt in E1; lia|].
    destruct (bytes <? 1024 * 1024) eqn:E2; [|apply N.ltb_ge in E2; lia].
    destruct (toFixed1_nearest bytes 1024) as (t & -> & Ha & Hb); [lia|].
    exists t. split; [now rewrite !str_app_assoc|]. lia.
  - intros [H1 H2].
    destruct (bytes <? 1024) eqn:E1; [apply N.ltb_lt in E1; lia|].
    destruct (bytes <? 1024 * 1024) eqn:E2; [|apply N.ltb_ge in E2; lia].
    unfold toFixed1.
    replace ((20 * bytes + 1024) / (2 * 1024)) with 10240; [reflexivity|].
    apply (N.div_unique _ _ _ (20 * bytes + 1024 - 2 * 1024 * 10240)); lia.
  - intros H.
    destruct (bytes <? 1024) eqn:E1; [apply N.ltb_lt in E1; lia|].
    destruct (bytes <? 1024 * 1024) eqn:E2; [apply N.ltb_lt in E2; lia|].
    destruct (toFixed1_nearest bytes (1024 * 1024)) as (t & -> & Ha & Hb); [lia|].
    exists t. split; [now rewrite !str_app_assoc|]. lia.
Qed.

Lemma formatFileSize_rounds_witness :
  formatFileSize 5 = "5 B" /\ formatFileSize 1280 = "1.3 KB"
  /\ formatFileSize 1048575 = "1024.0 KB".
Proof.
  destruct (formatFileSize_rounds 5) as (H1 & _).
  destruct (formatFileSize_rounds 1048575) as (_ & _ & H3 & _).
  split; [apply H1; lia|]. split; [vm_compute; reflexivity|]. apply H3. lia.
Defined.

(** ** Saving a config, and updates that give no guidelines *)

Lemma saveProjectConfig_settles root slug c : settles (saveProjectConfig root slug c).
Proof.
  unfold saveProjectConfig. repeat settles_step.
  intros w. discriminate.
Qed.

(** X23: [saveProjectConfig] returns exactly when the project folder is a
    directory or can be created and [config.json] is a regular file or
    missing, and throws otherwise; and whatever its outcome, it changes
    nothing but [config.json] and the directories above it: any other path
    leads where it led before. *)
Theorem saveProjectConfig_effect root slug c w :
  ((exists w1, saveProjectConfig root slug c w = (w1, Ret tt))
   <-> config_writable (fs w) root slug)
  /\ (~ config_writable (fs w) root slug ->
      result_of (saveProjectConfig root slug c) w = Throw)
  /\ (forall q, apart (config_path root slug) q ->
                lookup (fs (world_after (saveProjectConfig root slug c) w)) q
                = lookup (fs w) q).
Proof.
  split; [apply saveProjectConfig_returns|]. split.
  - intros Hn. unfold result_of.
    pose proof (saveProjectConfig_settles root slug c w) as Hs.
    destruct (saveProjectConfig root slug c w) as [w1 [[]| |]] eqn:E;
      [|reflexivity|now destruct Hs].
    exfalso. apply Hn. apply (saveProjectConfig_returns root slug c w). eauto.
  - intros q [H1 H2]. unfold world_after, saveProjectConfig.
    fold (config_path root slug).
    assert (Hw : forall w0,
               lookup (fs (fst (writeFileSync (config_path root slug)
                                  (ConfigJson.stringify
                                     (with_updatedAt c (clock w0 (ticks w0))))
                                  (mkWorld (fs w0) (clock w0) (S (ticks w0))
                                           (entropy w0) (draws w0))))) q
               = lookup (fs w0) q).
    { intros w0. unfold writeFileSync, update_fs. cbn [fs].
      destruct (alter _ _ (fs w0)) as [t'|] eqn:Halt; [|reflexivity].
      cbn [fst fs with_fs]. apply (lookup_alter_frame _ _ _ _ _ Halt H1 H2). }
    unfold bind at 1. unfold existsSync at 1.
    destruct (lookup (fs w) (getProjectPath root slug)) as [n|] eqn:L; cbn [negb].
    + unfold bind at 1. unfold ret at 1. unfold bind at 1. unfold Date_now at 1.
      apply Hw.
    + unfold bind at 1. unfold mkdirSync_recursive, update_fs.
      destruct (mkdir_p (getProjectPath root slug) (fs w)) as [t1|] eqn:Hmk;
        [|reflexivity].
      unfold bind at 1. unfold Date_now at 1.
      rewrite (Hw (with_fs w t1)). cbn [fs with_fs].
      apply (mkdir_p_frame _ _ _ _ Hmk).
      rewrite config_path_child in H2. now apply is_prefix_false_app in H2.
Qed.

Lemma saveProjectConfig_effect_witness :
  result_of (saveProjectConfig "/ws" "my-plan" saved_config) project_world
  = Ret tt
  /\ result_of (saveProjectConfig "/ws" "my-plan/config.json" saved_config) project_world
     = Throw.
Proof.
  destruct (saveProjectConfig_effect "/ws" "my-plan/config.json" saved_config
                                     project_world) as (_ & Hthrow & _).
  split; [vm_compute; reflexivity|]. apply Hthrow.
  intros (t1 & Hmk & _). vm_compute in Hmk. discriminate.
Defined.

(** X24: an update that gives no guidelines text leaves [guidelines.md]
    as it is.  When the update has no [guidelines] property the returned
    config keeps the guidelines of the loaded one; when the property is
    there with the value [undefined], the returned config has no guidelines
    any more, while [guidelines.md] still holds the old text. *)
Theorem updateProject_without_guidelines root slug u w w0 c :
  loadProjectConfig root slug w = (w0, Ret (Some c)) ->
  upd_guidelines u = Absent \/ upd_guidelines u = Undefined ->
  exists w1 c1,
    updateProject root slug u w = (w1, Ret (Some c1))
    /\ lookup (fs w1) (guidelines_path root slug)
       = lookup (fs w) (guidelines_path root slug)
    /\ (upd_guidelines u = Absent -> guidelines c1 = guidelines c)
    /\ (upd_guidelines u = Undefined -> guidelines c1 = None).
Proof.
  intros Hload Hu.
  destruct (updateProject_spec root slug u w w0 c Hload) as (t2 & _ & Hframe & Hrun).
  destruct (config_beside_guidelines root slug) as [H1 H2].
  assert (Hstep : forall w2, guidelines_step root slug u w2 = (w2, Ret tt)).
  { intros w2. unfold guidelines_step. now destruct Hu as [-> | ->]. }
  rewrite Hrun. run_with (Hstep (mkWorld t2 (clock w) (S (S (ticks w))) (entropy w)
                                         (draws w))).
  do 2 eexists. split; [reflexivity|]. cbn [fs guidelines spread_updates].
  split; [now apply Hframe|].
  split; intros ->; reflexivity.
Qed.

Lemma updateProject_without_guidelines_witness :
  exists w1 c1,
    updateProject "/ws" "my-plan" undefined_guidelines_update project_world
    = (w1, Ret (Some c1))
    /\ lookup (fs w1) (guidelines_path "/ws" "my-plan") = Some (File "be nice")
    /\ guidelines c1 = None.
Proof.
  destruct (updateProject_without_guidelines "/ws" "my-plan"
              undefined_guidelines_update project_world project_world project_config)
    as (w1 & c1 & Hrun & Hfile & _ & Hnone).
  - vm_compute. reflexivity.
  - now right.
  - exists w1, c1. split; [exact Hrun|]. split; [|now apply Hnone].
    rewrite Hfile. vm_compute. reflexivity.
Defined.

(** ** What a rename leaves alone *)

Lemma rename_node_frame old new t t' q :
  rename_node old new t = Some t' ->
  apart old q -> apart new q ->
  lookup t' q = lookup t q.
Proof.
  unfold rename_node. intros H [O1 O2] [N1 N2].
  destruct (lookup t old) as [src|]; [|discriminate].
  destruct (path_eqb old new); [now injection H as <-|].
  destruct (is_prefix old new); [discriminate|].
  destruct (alter rm_change old t) as [t1|] eqn:Hrm; [|discriminate].
  rewrite (lookup_alter_frame _ _ _ _ _ H N1 N2).
  apply (lookup_alter_frame _ _ _ _ _ Hrm O1 O2).
Qed.

(** X26: whatever [renameProjectFile] returns, it changes nothing but the
    old path, the new path and the directories above the new path: a path
    that lies neither below nor above either of the two leads where it led
    before. *)
Theorem renameProjectFile_frame root slug oldPath newPath w q :
  apart (join (getProjectFilesPath root slug) oldPath) q ->
  apart (join (getProjectFilesPath root slug) newPath) q ->
  lookup (fs (world_after (renameProjectFile root slug oldPath newPath) w)) q
  = lookup (fs w) q.
Proof.
  set (old := join (getProjectFilesPath root slug) oldPath).
  set (new := join (getProjectFilesPath root slug) newPath).
  set (so := ends_in_slash oldPath). set (sn := ends_in_slash newPath).
  intros Ho Hn. unfold world_after, renameProjectFile, join_name.
  cbn [components]. fold old new so sn.
  unfold bind at 1. unfold existsSync_name at 1.
  destruct (node_at (fs w) (mkPathname old so)); cbn [negb]; [|reflexivity].
  unfold bind at 1. unfold existsSync_name at 1.
  destruct (node_at (fs w) (mkPathname new sn)); [reflexivity|].
  assert (Hren : forall w0,
             lookup (fs (fst (try_catch
                                (renameSync_name (mkPathname old so) (mkPathname new sn) ;;
                                 ret true)
                                (ret false) w0))) q
             = lookup (fs w0) q).
  { intros w0. unfold try_catch, bind, renameSync_name. cbn [components slash].
    destruct (lookup (fs w0) old) as [src|]; [|reflexivity].
    destruct ((so || sn) && negb (is_dir src)); [reflexivity|].
    unfold renameSync, update_fs.
    destruct (rename_node old new (fs w0)) as [t'|] eqn:E; [|reflexivity].
    cbn [fst fs with_fs ret]. apply (rename_node_frame _ _ _ _ _ E Ho Hn). }
  unfold try_catch. rewrite (ensure_parent_name new).
  unfold bind at 1. unfold existsSync at 1.
  destruct (lookup (fs w) (removelast new)) as [d|]; cbn [negb].
  - unfold bind at 1. unfold ret at 1. apply (Hren w).
  - unfold bind at 1. unfold mkdirSync_recursive, update_fs.
    destruct (mkdir_p (removelast new) (fs w)) as [t1|] eqn:Hmk; [|reflexivity].
    etransitivity; [apply (Hren (with_fs w t1))|]. cbn [fs with_fs].
    apply (mkdir_p_frame _ _ _ _ Hmk). apply apart_parent. apply Hn.
Qed.

Lemma renameProjectFile_frame_witness :
  lookup (fs (world_after (renameProjectFile "/ws" "my-plan" "b.txt" "docs/b.txt")
                          listing_world))
         (join (getProjectFilesPath "/ws" "my-plan") "a/c.md")
  = Some (File "# c").
Proof.
  rewrite (renameProjectFile_frame "/ws" "my-plan" "b.txt" "docs/b.txt" listing_world).
  - vm_compute. reflexivity.
  - split; vm_compute; reflexivity.
  - split; vm_compute; reflexivity.
Defined.
